(** * TouchControls.js: a shallow embedding of the virtual gamepad

    The development follows src/TouchControls/TouchControls.js section by
    section: configuration and key table, script state, the control tree
    built by [buildControls], the layout pass [calculateAndApplyLayout],
    the touch listeners of [setupEventListeners] with [handleJoystickMove],
    and the mode toggle with [updateControlVisibility].

    JavaScript numbers are modelled as exact rationals ([Q]): every finite
    double is a rational, and comparisons of finite doubles agree with the
    comparison of the rationals they denote.  Infinities and NaN are
    outside the model, and so is the rounding of arithmetic, except for the
    sizes of the layout pass: [Double] computes them a second time as
    binary64 does, and the two are compared.  The functions the browser
    provides ([Math.atan2], [Math.sqrt], [Math.cos], [Math.sin],
    [getBoundingClientRect]) are fields of a [Host] record over which the
    listeners are parameterised. *)

From Stdlib Require Import QArith Qabs Qminmax Qround Qpower Lqa ZArith.
From stdpp Require Import gmap strings list fin_maps.

Open Scope string_scope.

(** ** Numbers *)

Module Num.

(** [a < b] and [a > b] on JavaScript numbers. *)
Definition ltb (a b : Q) : bool := negb (Qle_bool b a).
Definition gtb (a b : Q) : bool := negb (Qle_bool a b).

End Num.

(** ** 1. Configuration and key table *)

(** The [CONFIG] object literal. *)
Record Config := {
  scale : Q;
  paddingPercent : Q;
  gapPercent : Q
}.

Definition CONFIG : Config :=
  {| scale := 1.0; paddingPercent := 4; gapPercent := 3 |}.

(** One entry of [KEY_MAPPINGS]. *)
Record KeyMapping := {
  key : string;
  keyCode : Z;
  code : string
}.

Definition KEY_MAPPINGS : gmap string KeyMapping :=
  list_to_map [
    ("touch-z", {| key := "z"; keyCode := 90; code := "KeyZ" |});
    ("touch-x", {| key := "x"; keyCode := 88; code := "KeyX" |});
    ("touch-c", {| key := "c"; keyCode := 67; code := "KeyC" |});
    ("touch-v", {| key := "v"; keyCode := 86; code := "KeyV" |});
    ("touch-m", {| key := "m"; keyCode := 77; code := "KeyM" |});
    ("touch-q", {| key := "q"; keyCode := 81; code := "KeyQ" |});
    ("touch-esc", {| key := "Escape"; keyCode := 27; code := "Escape" |});
    ("touch-up", {| key := "ArrowUp"; keyCode := 38; code := "ArrowUp" |});
    ("touch-down", {| key := "ArrowDown"; keyCode := 40; code := "ArrowDown" |});
    ("touch-left", {| key := "ArrowLeft"; keyCode := 37; code := "ArrowLeft" |});
    ("touch-right", {| key := "ArrowRight"; keyCode := 39; code := "ArrowRight" |})
  ].

(** ** 2. Script state and the document *)

(** The joystick direction is one of the strings ['left'], ['right'], ['up'],
    ['down']; [null] is [None]. *)
Inductive Direction := Left | Right | Up | Down.

#[global] Instance Direction_eq_dec : EqDecision Direction.
Proof. solve_decision. Defined.

Definition dirName (d : Direction) : string :=
  match d with
  | Left => "left" | Right => "right" | Up => "up" | Down => "down"
  end.

(** ['touch-' + direction]: string concatenation turns [null] into ["null"]. *)
Definition touchKey (d : option Direction) : string :=
  "touch-" ++ match d with Some d => dirName d | None => "null" end.

(** A value of an inline style property. Template literals [`${x}px`] are
    [Px x]; [`translate(${x}px, ${y}px)`] is [Translate x y]. *)
Inductive StyleValue :=
| Px (q : Q)
| Keyword (s : string)
| Translate (x y : Q).

Record Element := {
  parentId : option string;
  classList : gset string;
  style : gmap string StyleValue;
  textContent : string
}.

Definition setStyle (f : gmap string StyleValue -> gmap string StyleValue)
    (el : Element) : Element :=
  {| parentId := parentId el; classList := classList el;
     style := f (style el); textContent := textContent el |}.

Definition setClassList (f : gset string -> gset string) (el : Element) : Element :=
  {| parentId := parentId el; classList := f (classList el);
     style := style el; textContent := textContent el |}.

Definition setTextContent (t : string) (el : Element) : Element :=
  {| parentId := parentId el; classList := classList el;
     style := style el; textContent := t |}.

Definition hasClass (c : string) (el : Element) : bool :=
  bool_decide (c ∈ classList el).

(** [classList.toggle(c, force)]. *)
Definition classToggle (c : string) (force : bool) (el : Element) : Element :=
  setClassList (fun cl => if force then {[ c ]} ∪ cl else cl ∖ {[ c ]}) el.

(** [Object.assign(el.style, styles)]: the new properties win. *)
Definition assignStyle (styles : gmap string StyleValue) (el : Element) : Element :=
  setStyle (fun st => styles ∪ st) el.

(** The document, indexed by element id ([document.getElementById]). *)
Abbreviation Document := (gmap string Element).

(** [localStorage]. An access can throw (storage blocked or full). *)
Record Storage := {
  items : gmap string string;
  readThrows : bool;
  writeThrows : bool
}.

Record Window := {
  innerWidth : Q;
  innerHeight : Q
}.

Record DOMRect := {
  rect_left : Q;
  rect_top : Q;
  rect_width : Q;
  rect_height : Q
}.

(** A synthetic keyboard event and where it was dispatched. *)
Inductive EventTarget := Canvas | DocumentTarget.

Record KeyboardEvent := {
  ev_type : string;
  ev_key : string;
  ev_code : string;
  ev_keyCode : Z;
  ev_which : Z;
  ev_bubbles : bool;
  ev_cancelable : bool
}.

Record State := {
  isJoystickMode : bool;
  currentJoystickDirection : option Direction;
  activeJoystickTouchId : option Z;
  document : Document;
  localStorage : Storage;
  window : Window;
  hasCanvas : bool;
  focusCalls : nat;
  dispatched : list (EventTarget * KeyboardEvent)
}.

Definition setDocument (f : Document -> Document) (s : State) : State :=
  {| isJoystickMode := isJoystickMode s;
     currentJoystickDirection := currentJoystickDirection s;
     activeJoystickTouchId := activeJoystickTouchId s;
     document := f (document s);
     localStorage := localStorage s;
     window := window s;
     hasCanvas := hasCanvas s;
     focusCalls := focusCalls s;
     dispatched := dispatched s |}.

Definition setIsJoystickMode (b : bool) (s : State) : State :=
  {| isJoystickMode := b;
     currentJoystickDirection := currentJoystickDirection s;
     activeJoystickTouchId := activeJoystickTouchId s;
     document := document s;
     localStorage := localStorage s;
     window := window s;
     hasCanvas := hasCanvas s;
     focusCalls := focusCalls s;
     dispatched := dispatched s |}.

Definition setCurrentJoystickDirection (d : option Direction) (s : State) : State :=
  {| isJoystickMode := isJoystickMode s;
     currentJoystickDirection := d;
     activeJoystickTouchId := activeJoystickTouchId s;
     document := document s;
     localStorage := localStorage s;
     window := window s;
     hasCanvas := hasCanvas s;
     focusCalls := focusCalls s;
     dispatched := dispatched s |}.

Definition setActiveJoystickTouchId (i : option Z) (s : State) : State :=
  {| isJoystickMode := isJoystickMode s;
     currentJoystickDirection := currentJoystickDirection s;
     activeJoystickTouchId := i;
     document := document s;
     localStorage := localStorage s;
     window := window s;
     hasCanvas := hasCanvas s;
     focusCalls := focusCalls s;
     dispatched := dispatched s |}.

Definition setLocalStorage (f : Storage -> Storage) (s : State) : State :=
  {| isJoystickMode := isJoystickMode s;
     currentJoystickDirection := currentJoystickDirection s;
     activeJoystickTouchId := activeJoystickTouchId s;
     document := document s;
     localStorage := f (localStorage s);
     window := window s;
     hasCanvas := hasCanvas s;
     focusCalls := focusCalls s;
     dispatched := dispatched s |}.

Definition setWindow (w : Window) (s : State) : State :=
  {| isJoystickMode := isJoystickMode s;
     currentJoystickDirection := currentJoystickDirection s;
     activeJoystickTouchId := activeJoystickTouchId s;
     document := document s;
     localStorage := localStorage s;
     window := w;
     hasCanvas := hasCanvas s;
     focusCalls := focusCalls s;
     dispatched := dispatched s |}.

(** [target.dispatchEvent(event)], after [target.focus()] when the target
    has a [focus] method (the canvas has one, the document has none).
    [focusCalls] counts the calls of [focus()] on the canvas; whether the
    canvas then holds the focus is up to the page (a canvas takes the
    focus only when it is focusable, as with a [tabindex]). *)
Definition dispatchTo (t : EventTarget) (e : KeyboardEvent) (s : State) : State :=
  {| isJoystickMode := isJoystickMode s;
     currentJoystickDirection := currentJoystickDirection s;
     activeJoystickTouchId := activeJoystickTouchId s;
     document := document s;
     localStorage := localStorage s;
     window := window s;
     hasCanvas := hasCanvas s;
     focusCalls :=
       match t with Canvas => S (focusCalls s) | DocumentTarget => focusCalls s end;
     dispatched := dispatched s ++ [(t, e)] |}.

(** What the browser provides to the script. *)
Record Host := {
  Math_atan2 : Q -> Q -> Q;
  Math_sqrt : Q -> Q;
  Math_cos : Q -> Q;
  Math_sin : Q -> Q;
  getBoundingClientRect : Window -> Document -> string -> DOMRect
}.

(** ** Exceptions

    A listener or the script body either returns or throws; the effects
    made before the throw stay in the state. *)

Inductive Exn := TypeError | StorageError.

Inductive Outcome (A : Type) :=
| Returned (a : A)
| Thrown (e : Exn).
Arguments Returned {A} a.
Arguments Thrown {A} e.

Definition M (A : Type) : Type := State -> Outcome A * State.

Definition ret {A} (a : A) : M A := fun s => (Returned a, s).

Definition bind {A B} (m : M A) (k : A -> M B) : M B :=
  fun s =>
    match m s with
    | (Returned a, s') => k a s'
    | (Thrown e, s') => (Thrown e, s')
    end.

Definition throw {A} (e : Exn) : M A := fun s => (Thrown e, s).

Definition get : M State := fun s => (Returned s, s).

Definition modify (f : State -> State) : M unit := fun s => (Returned tt, f s).

Notation "x <~ m ;; k" := (bind m (fun x => k))
  (at level 100, m at next level, right associativity).
Notation "m >>> k" := (bind m (fun _ => k))
  (at level 100, right associativity).

(** [localStorage.getItem(k)] and [localStorage.setItem(k, v)]. *)
Definition getItem (k : string) : M (option string) :=
  fun s =>
    if readThrows (localStorage s) then (Thrown StorageError, s)
    else (Returned (items (localStorage s) !! k), s).

Definition setItem (k v : string) : M unit :=
  fun s =>
    if writeThrows (localStorage s) then (Thrown StorageError, s)
    else (Returned tt,
          setLocalStorage (fun st =>
            {| items := <[k := v]> (items st);
               readThrows := readThrows st;
               writeThrows := writeThrows st |}) s).

(** [document.getElementById(id).m(...)]: a property access on [null]
    throws a [TypeError]. *)
Definition withElement (id : string) (f : Element -> Element) : M unit :=
  fun s =>
    match document s !! id with
    | Some _ => (Returned tt, setDocument (alter f id) s)
    | None => (Thrown TypeError, s)
    end.

(** ** 3. The control tree *)

Definition mkElement (parent : option string) (classes : list string)
    (text : string) : Element :=
  {| parentId := parent; classList := list_to_set classes;
     style := ∅; textContent := text |}.

(** The markup assigned to [container.innerHTML], with the container
    itself; every element of the overlay carries an id. An object literal
    or a markup with distinct keys is a [list_to_map] of its entries. *)
Definition controlTree : Document :=
  list_to_map [
    ("virtual-controls-container", mkElement None [] "");
    ("action-cluster",
      mkElement (Some "virtual-controls-container") ["virtual-cluster"] "");
    ("touch-q", mkElement (Some "action-cluster") ["virtual-button"; "action-button"] "Q");
    ("touch-z", mkElement (Some "action-cluster") ["virtual-button"; "action-button"] "Z");
    ("touch-x", mkElement (Some "action-cluster") ["virtual-button"; "action-button"] "X");
    ("touch-m", mkElement (Some "action-cluster") ["virtual-button"; "action-button"] "M");
    ("touch-c", mkElement (Some "action-cluster") ["virtual-button"; "action-button"] "C");
    ("touch-v", mkElement (Some "action-cluster") ["virtual-button"; "action-button"] "V");
    ("touch-esc",
      mkElement (Some "virtual-controls-container") ["virtual-button"; "system-button"] "ESC");
    ("dpad-container",
      mkElement (Some "virtual-controls-container") ["virtual-cluster"; "control-mode"] "");
    ("touch-up", mkElement (Some "dpad-container") ["virtual-button"; "dpad-button"] "");
    ("touch-down", mkElement (Some "dpad-container") ["virtual-button"; "dpad-button"] "");
    ("touch-left", mkElement (Some "dpad-container") ["virtual-button"; "dpad-button"] "");
    ("touch-right", mkElement (Some "dpad-container") ["virtual-button"; "dpad-button"] "");
    ("joystick-container",
      mkElement (Some "virtual-controls-container") ["virtual-cluster"; "control-mode"] "");
    ("joystick-base", mkElement (Some "joystick-container") ["virtual-button"] "");
    ("joystick-thumb", mkElement (Some "joystick-base") [] "");
    ("control-toggle-button",
      mkElement (Some "virtual-controls-container") ["virtual-button"] "")
  ].

(** [buildControls]: the container is appended to the body, after whatever
    the page already holds ([getElementById] returns the first match in
    document order). *)
Definition buildControls (s : State) : State :=
  setDocument (fun d => d ∪ controlTree) s.

(** ** 4. Dynamic layout engine *)

(** The two ways the pass writes styles: [applyStyle(id, styles)] on one
    element, skipped when the element is missing, and
    [querySelectorAll('.dpad-button').forEach(...)] on a class. *)
Inductive Step :=
| ApplyStyle (id : string) (styles : list (string * StyleValue))
| ForEachDpadButton (styles : list (string * StyleValue)).

(** [applyStyle]: [Object.assign] on the element's style when
    [getElementById] finds it. *)
Definition applyStyle (id : string) (styles : list (string * StyleValue))
    (d : Document) : Document :=
  alter (assignStyle (list_to_map styles)) id d.

(** The same assignment on every element of class [dpad-button]. *)
Definition styleDpadButtons (styles : list (string * StyleValue))
    (d : Document) : Document :=
  (fun el => if hasClass "dpad-button" el
             then assignStyle (list_to_map styles) el else el) <$> d.

Definition runStep (st : Step) (d : Document) : Document :=
  match st with
  | ApplyStyle id styles => applyStyle id styles d
  | ForEachDpadButton styles => styleDpadButtons styles d
  end.

Section Layout.

Variable cfg : Config.
Variable w : Window.

Definition screenW : Q := innerWidth w.
Definition screenH : Q := innerHeight w.
Definition isLandscape : bool := Num.gtb screenW screenH.
Definition shortSide : Q := Qmin screenW screenH.

Definition sizeMultiplier : Q := if isLandscape then 1.4 else 1.0.

(** The local constant [scale] of the source; the name is taken by the
    field of [CONFIG]. *)
Definition effectiveScale : Q := scale cfg * sizeMultiplier.

Definition padding : Q := shortSide * paddingPercent cfg / 100.
Definition gap : Q := shortSide * gapPercent cfg / 100.

Definition actionButtonSize : Q := (shortSide * 0.11) * effectiveScale.
Definition movementClusterSize : Q := (shortSide * 0.38) * effectiveScale.

Definition clusterWidth : Q := (actionButtonSize * 3) + (gap * 2).
Definition clusterHeight : Q := (actionButtonSize * 2) + gap.

Definition actionBtnStyle : list (string * StyleValue) :=
  [ ("width", Px actionButtonSize);
    ("height", Px actionButtonSize);
    ("position", Keyword "absolute");
    ("fontSize", Px (actionButtonSize * 0.45)) ].

Definition escButtonSize : Q := (shortSide * 0.10) * effectiveScale.

Definition dpadButtonSize : Q := movementClusterSize / 3.2.
Definition joystickBaseSize : Q := movementClusterSize * 0.8.

Definition toggleButtonW : Q := (shortSide * 0.22) * effectiveScale.
Definition toggleButtonH : Q := (shortSide * 0.07) * effectiveScale.
Definition toggleBottom : Q := padding + movementClusterSize + gap.
Definition toggleLeft : Q :=
  padding + (movementClusterSize / 2) - (toggleButtonW / 2).

(** The assignments of the pass, in source order. *)
Definition layoutSteps : list Step :=
  [ ApplyStyle "action-cluster"
      [ ("bottom", Px padding); ("right", Px padding);
        ("width", Px clusterWidth); ("height", Px clusterHeight) ];
    ApplyStyle "touch-q" (actionBtnStyle ++ [("top", Px 0); ("left", Px 0)]);
    ApplyStyle "touch-z"
      (actionBtnStyle ++ [("top", Px 0); ("left", Px (actionButtonSize + gap))]);
    ApplyStyle "touch-x" (actionBtnStyle ++ [("top", Px 0); ("right", Px 0)]);
    ApplyStyle "touch-m" (actionBtnStyle ++ [("bottom", Px 0); ("left", Px 0)]);
    ApplyStyle "touch-c"
      (actionBtnStyle ++ [("bottom", Px 0); ("left", Px (actionButtonSize + gap))]);
    ApplyStyle "touch-v" (actionBtnStyle ++ [("bottom", Px 0); ("right", Px 0)]);
    ApplyStyle "touch-esc"
      [ ("width", Px escButtonSize); ("height", Px escButtonSize);
        ("top", Px padding); ("right", Px padding);
        ("fontSize", Px (escButtonSize * 0.4)) ];
    ApplyStyle "dpad-container"
      [ ("width", Px movementClusterSize); ("height", Px movementClusterSize);
        ("bottom", Px padding); ("left", Px padding) ];
    ApplyStyle "joystick-container"
      [ ("width", Px movementClusterSize); ("height", Px movementClusterSize);
        ("bottom", Px padding); ("left", Px padding) ];
    ForEachDpadButton
      [ ("width", Px dpadButtonSize); ("height", Px dpadButtonSize) ];
    ApplyStyle "joystick-base"
      [ ("width", Px joystickBaseSize); ("height", Px joystickBaseSize) ];
    ApplyStyle "joystick-thumb"
      [ ("width", Px (joystickBaseSize / 2)); ("height", Px (joystickBaseSize / 2)) ];
    ApplyStyle "control-toggle-button"
      [ ("width", Px toggleButtonW); ("height", Px toggleButtonH);
        ("bottom", Px toggleBottom); ("left", Px toggleLeft);
        ("borderRadius", Px (toggleButtonH / 4));
        ("fontSize", Px (toggleButtonH * 0.45)) ] ].

Definition applyLayout (d : Document) : Document :=
  foldl (fun d step => runStep step d) d layoutSteps.

End Layout.

(** [calculateAndApplyLayout] reads the window size afresh and writes the
    inline styles; [CONFIG] is the only other input. *)
Definition calculateAndApplyLayoutWith (cfg : Config) (s : State) : State :=
  setDocument (applyLayout cfg (window s)) s.

Definition calculateAndApplyLayout : State -> State :=
  calculateAndApplyLayoutWith CONFIG.

(** ** 5. Event handling *)

Record Touch := {
  identifier : Z;
  clientX : Q;
  clientY : Q
}.

(** The chain from an element up to the root, the element first. *)
Fixpoint ancestorsOrSelf (fuel : nat) (d : Document) (id : string) : list string :=
  match fuel with
  | O => []
  | S fuel' =>
      match d !! id with
      | None => []
      | Some el =>
          id :: match parentId el with
                | Some p => ancestorsOrSelf fuel' d p
                | None => []
                end
      end
  end.

Definition elementHasClass (d : Document) (c : string) (id : string) : bool :=
  match d !! id with
  | Some el => hasClass c el
  | None => false
  end.

(** [e.target.closest('.' + c)], as the id of the element found. *)
Definition closest (d : Document) (c : string) (target : string) : option string :=
  find (elementHasClass d c) (ancestorsOrSelf (size d) d target).

(** Whether a listener attached to [listener] hears an event at [target]. *)
Definition bubblesTo (d : Document) (listener target : string) : bool :=
  bool_decide (listener ∈ ancestorsOrSelf (size d) d target).

(** The class test shared by the two container listeners. *)
Definition isDiscreteButton (d : Document) (id : string) : bool :=
  elementHasClass d "action-button" id
  || elementHasClass d "dpad-button" id
  || elementHasClass d "system-button" id.

Definition joystickDeadzone : Q := 0.20.

Definition newKeyboardEvent (type : string) (mapping : KeyMapping) : KeyboardEvent :=
  {| ev_type := type; ev_key := key mapping; ev_code := code mapping;
     ev_keyCode := keyCode mapping; ev_which := keyCode mapping;
     ev_bubbles := true; ev_cancelable := true |}.

Definition simulateKeyEvent (type : string) (mapping : option KeyMapping)
    (s : State) : State :=
  match mapping with
  | None => s
  | Some mapping =>
      let target := if hasCanvas s then Canvas else DocumentTarget in
      dispatchTo target (newKeyboardEvent type mapping) s
  end.

(** The [touchstart] listener of the container. *)
Definition container_touchstart (target : string) (s : State) : State :=
  match closest (document s) "virtual-button" target with
  | Some button =>
      if isDiscreteButton (document s) button then
        let s := setDocument
                   (alter (setClassList (fun cl => {[ "active" ]} ∪ cl)) button) s in
        simulateKeyEvent "keydown" (KEY_MAPPINGS !! button) s
      else s
  | None => s
  end.

(** [querySelectorAll('.virtual-button.active')] with the class removed. *)
Definition deactivateAll (d : Document) : Document :=
  (fun el => if hasClass "virtual-button" el && hasClass "active" el
             then setClassList (fun cl => cl ∖ {[ "active" ]}) el else el) <$> d.

(** The [touchend] listener of the container. *)
Definition container_touchend (target : string) (s : State) : State :=
  let s := setDocument deactivateAll s in
  match closest (document s) "virtual-button" target with
  | Some button =>
      if isDiscreteButton (document s) button then
        simulateKeyEvent "keyup" (KEY_MAPPINGS !! button) s
      else s
  | None => s
  end.

Section Joystick.

Variable host : Host.

(** The ladder of [handleJoystickMove]: [distance] against the deadzone,
    then the four tests on the angle, the first that holds deciding. *)
Definition resolveDirection (rectWidth distance angle : Q) : option Direction :=
  if Num.gtb distance (rectWidth / 2 * joystickDeadzone) then
    let absAngle := Qabs angle in
    if Num.gtb absAngle 2.356 then Some Left
    else if Num.ltb absAngle 0.785 then Some Right
    else if Num.ltb angle (-0.785) then Some Up
    else if Num.gtb angle 0.785 then Some Down
    else None
  else None.

(** The angle and the clamped distance of a contact point. *)
Definition contactAngle (rect : DOMRect) (x y : Q) : Q :=
  let centerX := (rect_left rect + rect_width rect / 2)%Q in
  let centerY := (rect_top rect + rect_height rect / 2)%Q in
  let deltaX := (x - centerX)%Q in
  let deltaY := (y - centerY)%Q in
  Math_atan2 host deltaY deltaX.

Definition contactDistance (rect : DOMRect) (x y : Q) : Q :=
  let centerX := (rect_left rect + rect_width rect / 2)%Q in
  let centerY := (rect_top rect + rect_height rect / 2)%Q in
  let deltaX := (x - centerX)%Q in
  let deltaY := (y - centerY)%Q in
  Qmin (rect_width rect / 2) (Math_sqrt host (deltaX * deltaX + deltaY * deltaY)).

(** The direction a sample resolves to in a given state. *)
Definition sampleDirection (s : State) (x y : Q) : option Direction :=
  let rect := getBoundingClientRect host (window s) (document s) "joystick-base" in
  resolveDirection (rect_width rect) (contactDistance rect x y) (contactAngle rect x y).

Definition handleJoystickMove (x y : Q) (s : State) : State :=
  let rect := getBoundingClientRect host (window s) (document s) "joystick-base" in
  let angle := contactAngle rect x y in
  let distance := contactDistance rect x y in
  let direction := resolveDirection (rect_width rect) distance angle in
  let s :=
    if bool_decide (direction <> currentJoystickDirection s) then
      let s := simulateKeyEvent "keyup"
                 (KEY_MAPPINGS !! touchKey (currentJoystickDirection s)) s in
      let s := simulateKeyEvent "keydown" (KEY_MAPPINGS !! touchKey direction) s in
      setCurrentJoystickDirection direction s
    else s in
  let thumbX := (distance * Math_cos host angle)%Q in
  let thumbY := (distance * Math_sin host angle)%Q in
  setDocument
    (alter (setStyle (insert "transform" (Translate thumbX thumbY))) "joystick-thumb") s.

(** The listeners of the joystick base. [changedTouches[0]] of an empty
    list would throw before any assignment; the state is then unchanged. *)
Definition joystickBase_touchstart (changedTouches : list Touch) (s : State) : State :=
  match changedTouches with
  | t :: _ =>
      let s := setActiveJoystickTouchId (Some (identifier t)) s in
      handleJoystickMove (clientX t) (clientY t) s
  | [] => s
  end.

Definition isActiveTouch (s : State) (t : Touch) : bool :=
  bool_decide (activeJoystickTouchId s = Some (identifier t)).

Definition joystickBase_touchmove (changedTouches : list Touch) (s : State) : State :=
  match find (isActiveTouch s) changedTouches with
  | Some t => handleJoystickMove (clientX t) (clientY t) s
  | None => s
  end.

Definition joystickBase_touchend (changedTouches : list Touch) (s : State) : State :=
  match find (isActiveTouch s) changedTouches with
  | Some _ =>
      let s := simulateKeyEvent "keyup"
                 (KEY_MAPPINGS !! touchKey (currentJoystickDirection s)) s in
      let s := setCurrentJoystickDirection None s in
      let s := setDocument
                 (alter (setStyle (insert "transform" (Translate 0 0))) "joystick-thumb") s in
      setActiveJoystickTouchId None s
  | None => s
  end.

End Joystick.

(** ** 6. Mode toggle and initialisation *)

Definition updateControlVisibility : M unit :=
  s <~ get ;;
  withElement "dpad-container" (classToggle "hidden" (isJoystickMode s)) >>>
  withElement "joystick-container" (classToggle "hidden" (negb (isJoystickMode s))) >>>
  withElement "control-toggle-button"
    (setTextContent (if isJoystickMode s then "Use D-Pad" else "Use Joystick")).

(** The [click] listener of the toggle button. *)
Definition toggle_click : M unit :=
  modify (fun s => setIsJoystickMode (negb (isJoystickMode s)) s) >>>
  (s <~ get ;;
   setItem "controlMode" (if isJoystickMode s then "joystick" else "dpad")) >>>
  updateControlVisibility.

(** [setupEventListeners] looks up the three elements it attaches
    listeners to; [addEventListener] on [null] throws. *)
Definition requireElement (id : string) : M unit :=
  fun s =>
    match document s !! id with
    | Some _ => (Returned tt, s)
    | None => (Thrown TypeError, s)
    end.

Definition setupEventListeners : M unit :=
  requireElement "virtual-controls-container" >>>
  requireElement "joystick-base" >>>
  requireElement "control-toggle-button".

(** [init]. [addBaseStyles] only injects the static style sheet; the rules
    of it that place elements are the subject of [Rendering] below. *)
Definition init : M unit :=
  modify buildControls >>>
  setupEventListeners >>>
  updateControlVisibility >>>
  modify calculateAndApplyLayout.

(** The body of the script: the touch check, the two state variables, and
    [init] (run at once or on [DOMContentLoaded]). *)
Definition script (isTouchDevice : bool) : M unit :=
  if negb isTouchDevice then ret tt
  else
    stored <~ getItem "controlMode" ;;
    modify (setIsJoystickMode (bool_decide (stored = Some "joystick"))) >>>
    modify (setCurrentJoystickDirection None) >>>
    init.

(** The events the attached listeners react to. A [Resize] stands for a
    [resize] or [orientationchange] of the window, with its new size. *)
Inductive Event :=
| TouchStart (target : string) (changedTouches : list Touch)
| TouchMove (target : string) (changedTouches : list Touch)
| TouchEnd (target : string) (changedTouches : list Touch)
| Click (target : string)
| Resize (w : Window).

Definition when (b : bool) (f : State -> State) (s : State) : State :=
  if b then f s else s.

(** An event bubbles from its target: the listeners of the joystick base
    run before those of the container. *)
Definition dispatchEvent (host : Host) (e : Event) : M unit :=
  match e with
  | TouchStart target touches =>
      modify (fun s =>
        let s := when (bubblesTo (document s) "joystick-base" target)
                   (joystickBase_touchstart host touches) s in
        when (bubblesTo (document s) "virtual-controls-container" target)
          (container_touchstart target) s)
  | TouchMove target touches =>
      modify (fun s =>
        when (bubblesTo (document s) "joystick-base" target)
          (joystickBase_touchmove host touches) s)
  | TouchEnd target touches =>
      modify (fun s =>
        let s := when (bubblesTo (document s) "joystick-base" target)
                   (joystickBase_touchend touches) s in
        when (bubblesTo (document s) "virtual-controls-container" target)
          (container_touchend target) s)
  | Click target =>
      fun s =>
        if bubblesTo (document s) "control-toggle-button" target
        then toggle_click s else ret tt s
  | Resize w =>
      modify (setWindow w) >>> modify calculateAndApplyLayout
  end.

(** A run of events; a listener that throws does not stop later events. *)
Definition runEvents (host : Host) (es : list Event) (s : State) : State :=
  foldl (fun s e => snd (dispatchEvent host e s)) s es.

(** ** Rendering: where the base style sheet puts each element

    The rules of [addBaseStyles] that decide positions: the container is
    fixed and covers the viewport; buttons and clusters are absolutely
    positioned in their parent (all boxes are border boxes); the four
    directional buttons are static items of a 3 x 3 grid of equal tracks;
    the joystick base is centred in its flex container and the thumb, which
    has no inset, is centred in the base. *)

Module Rendering.

Inductive Placement :=
| Viewport
| Absolute
| GridCell (col row : Q)
| Centered.

Definition idRules : gmap string Placement :=
  list_to_map [
    ("virtual-controls-container", Viewport);
    ("touch-up", GridCell 2 1);
    ("touch-down", GridCell 2 3);
    ("touch-left", GridCell 1 2);
    ("touch-right", GridCell 3 2);
    ("joystick-base", Centered);
    ("joystick-thumb", Centered)
  ].

Definition placement (id : string) : Placement :=
  default Absolute (idRules !! id).

Definition pxOf (el : Element) (prop : string) : option Q :=
  match style el !! prop with
  | Some (Px q) => Some q
  | _ => None
  end.

(** An absolutely positioned box along one axis: the start inset wins,
    else the end inset, else the start of the parent. *)
Definition absOffset (start_ end_ : option Q) (parentStart parentLen len : Q) : Q :=
  match start_, end_ with
  | Some a, _ => parentStart + a
  | None, Some b => parentStart + parentLen - b - len
  | None, None => parentStart
  end.

Definition place (p : Placement) (parent : DOMRect) (el : Element)
    (wd ht : Q) : DOMRect :=
  match p with
  | Viewport => parent
  | Absolute =>
      {| rect_left := absOffset (pxOf el "left") (pxOf el "right")
                        (rect_left parent) (rect_width parent) wd;
         rect_top := absOffset (pxOf el "top") (pxOf el "bottom")
                        (rect_top parent) (rect_height parent) ht;
         rect_width := wd; rect_height := ht |}
  | GridCell col row =>
      {| rect_left := rect_left parent + (col - 1) * (rect_width parent / 3);
         rect_top := rect_top parent + (row - 1) * (rect_height parent / 3);
         rect_width := wd; rect_height := ht |}
  | Centered =>
      {| rect_left := rect_left parent + (rect_width parent - wd) / 2;
         rect_top := rect_top parent + (rect_height parent - ht) / 2;
         rect_width := wd; rect_height := ht |}
  end.

Definition viewportRect (w : Window) : DOMRect :=
  {| rect_left := 0; rect_top := 0;
     rect_width := innerWidth w; rect_height := innerHeight w |}.

(** The box of an element, from the inline sizes and insets on the chain
    of its ancestors; [None] when the element or a size is missing. *)
Fixpoint boxWithin (fuel : nat) (w : Window) (d : Document) (id : string)
    : option DOMRect :=
  match fuel with
  | O => None
  | S fuel' =>
      match d !! id with
      | None => None
      | Some el =>
          match placement id with
          | Viewport => Some (viewportRect w)
          | p =>
              match parentId el with
              | None => None
              | Some pid =>
                  match boxWithin fuel' w d pid, pxOf el "width", pxOf el "height" with
                  | Some parent, Some wd, Some ht => Some (place p parent el wd ht)
                  | _, _, _ => None
                  end
              end
          end
      end
  end.

Definition boundingBox (w : Window) (d : Document) (id : string) : option DOMRect :=
  boxWithin (size d) w d id.

(** A box lies fully within the viewport. *)
Definition inViewport (w : Window) (b : DOMRect) : Prop :=
  (0 <= rect_left b /\ rect_left b + rect_width b <= innerWidth w /\
   0 <= rect_top b /\ rect_top b + rect_height b <= innerHeight w)%Q.

(** [boundingBox] is the border box the layout gives an element that is
    displayed, before any transform.  What [getBoundingClientRect] answers
    reflects two more things, both of which the script changes as it runs:
    an element with the class [hidden], or inside one, is not displayed
    ([display: none]) and has the empty rectangle; and a [transform] moves
    an element, with all it contains, by its translation. *)
Definition emptyRect : DOMRect :=
  {| rect_left := 0; rect_top := 0; rect_width := 0; rect_height := 0 |}.

Definition hiddenWithin (d : Document) (id : string) : bool :=
  existsb (elementHasClass d "hidden") (ancestorsOrSelf (size d) d id).

Definition translated (el : Element) (b : DOMRect) : DOMRect :=
  match style el !! "transform" with
  | Some (Translate x y) =>
      {| rect_left := rect_left b + x; rect_top := rect_top b + y;
         rect_width := rect_width b; rect_height := rect_height b |}
  | _ => b
  end.

(** The translations of the elements of a chain, applied to a box. *)
Definition translatedAlong (d : Document) (chain : list string) (b : DOMRect)
    : DOMRect :=
  foldr (fun i b => match d !! i with Some el => translated el b | None => b end)
    b chain.

Definition clientRect (w : Window) (d : Document) (id : string) : DOMRect :=
  if hiddenWithin d id then emptyRect
  else
    match boundingBox w d id with
    | Some b => translatedAlong d (ancestorsOrSelf (size d) d id) b
    | None => emptyRect
    end.

End Rendering.

(** ** A reference host

    ECMAScript leaves the precision of [Math.atan2], [Math.sqrt], [Math.cos]
    and [Math.sin] to the implementation. [refHost] is a rational
    implementation used to run the model on concrete inputs; no theorem
    about the script depends on its precision. *)

Module RefHost.

Definition pi : Q := 3.141592653589793.

Definition sqrt (q : Q) : Q :=
  if Qle_bool q 0 then 0
  else Qmake (Z.sqrt (Qnum q * Zpos (Qden q) * 10 ^ 12))
             (Qden q * 1000000).

(** The arctangent on [-1, 1], to a few milliradians. *)
Definition atanUnit (t : Q) : Q :=
  t * (pi / 4 + 0.273 * (1 - Qabs t)).

Definition atan2 (y x : Q) : Q :=
  let ax := Qabs x in
  let ay := Qabs y in
  if Qle_bool ax 0 && Qle_bool ay 0 then 0
  else
    let a := (if Qle_bool ay ax then atanUnit (ay / ax)
              else pi / 2 - atanUnit (ax / ay))%Q in
    let a := (if Num.ltb x 0 then pi - a else a)%Q in
    (if Num.ltb y 0 then - a else a)%Q.

Definition sin (x : Q) : Q :=
  let x2 := (x * x)%Q in
  x * (1 - x2 / 6 * (1 - x2 / 20 * (1 - x2 / 42 * (1 - x2 / 72 * (1 - x2 / 110))))).

Definition cos (x : Q) : Q :=
  let x2 := (x * x)%Q in
  1 - x2 / 2 * (1 - x2 / 12 * (1 - x2 / 30 * (1 - x2 / 56 * (1 - x2 / 90)))).

Definition zeroRect : DOMRect :=
  {| rect_left := 0; rect_top := 0; rect_width := 0; rect_height := 0 |}.

(** [getBoundingClientRect]: an element under a [hidden] ancestor is not
    rendered and reports an empty rectangle; a translated element reports
    where it is shown. *)
Definition boundingRect (w : Window) (d : Document) (id : string) : DOMRect :=
  Rendering.clientRect w d id.

Definition refHost : Host :=
  {| Math_atan2 := atan2; Math_sqrt := sqrt; Math_cos := cos; Math_sin := sin;
     getBoundingClientRect := boundingRect |}.

End RefHost.

(** ** Sample pages *)

Definition emptyStorage : Storage :=
  {| items := ∅; readThrows := false; writeThrows := false |}.

(** A page before the script runs: no overlay element, a canvas present. *)
Definition blankPage (w : Window) (st : Storage) : State :=
  {| isJoystickMode := false;
     currentJoystickDirection := None;
     activeJoystickTouchId := None;
     document := ∅;
     localStorage := st;
     window := w;
     hasCanvas := true;
     focusCalls := 0;
     dispatched := [] |}.

Definition portrait : Window := {| innerWidth := 390; innerHeight := 844 |}.
Definition landscape : Window := {| innerWidth := 844; innerHeight := 390 |}.

(** The state once the script has run on a touch device. *)
Definition started (w : Window) (st : Storage) : State :=
  snd (script true (blankPage w st)).

(** ** Vocabulary of the statements *)

(** [Math.PI], the double nearest to pi. *)
Definition Math_PI : Q := 3.141592653589793.

(** Where [simulateKeyEvent] sends its events in a state. *)
Definition keyTarget (s : State) : EventTarget :=
  if hasCanvas s then Canvas else DocumentTarget.

(** The entry of [KEY_MAPPINGS] a direction selects. *)
Definition arrowMapping (d : Direction) : KeyMapping :=
  match d with
  | Left => {| key := "ArrowLeft"; keyCode := 37; code := "ArrowLeft" |}
  | Right => {| key := "ArrowRight"; keyCode := 39; code := "ArrowRight" |}
  | Up => {| key := "ArrowUp"; keyCode := 38; code := "ArrowUp" |}
  | Down => {| key := "ArrowDown"; keyCode := 40; code := "ArrowDown" |}
  end.

(** The events one key-up or key-down of a direction amounts to: none for
    no direction, exactly one for a direction. *)
Definition keyFor (s : State) (type : string) (d : option Direction)
    : list (EventTarget * KeyboardEvent) :=
  match d with
  | None => []
  | Some d => [(keyTarget s, newKeyboardEvent type (arrowMapping d))]
  end.

(** An element is shown when it is in the tree without the [hidden] class. *)
Definition visible (d : Document) (id : string) : bool :=
  match d !! id with
  | Some el => negb (hasClass "hidden" el)
  | None => false
  end.

Definition present (d : Document) (id : string) : Prop :=
  is_Some (d !! id).

(** No button carries the [active] class. *)
Definition noneActive (d : Document) : Prop :=
  forall id el, d !! id = Some el ->
    hasClass "virtual-button" el = true -> hasClass "active" el = false.

(** The identifier a scheme is persisted under. *)
Definition schemeName (joystick : bool) : string :=
  if joystick then "joystick" else "dpad".

(** ** Sample runs *)

(** The overlay on a portrait phone, switched to the joystick. *)
Definition joystickShown : State :=
  runEvents RefHost.refHost [Click "control-toggle-button"]
    (started portrait emptyStorage).

Definition firstContact : Touch :=
  {| identifier := 7; clientX := 130; clientY := 754 |}.

Definition secondContact : Touch :=
  {| identifier := 8; clientX := 120; clientY := 760 |}.

(** A first finger holds the joystick to the right. *)
Definition joystickHeld : State :=
  runEvents RefHost.refHost [TouchStart "joystick-base" [firstContact]] joystickShown.

(** Two documents with the same elements and the same parent links. *)
Definition sameShape (d d' : Document) : Prop :=
  forall id, parentId <$> d !! id = parentId <$> d' !! id.

(** Same shape and, the [active] marker apart, the same classes. *)
Definition sameControls (d d' : Document) : Prop :=
  sameShape d d' /\
  forall c id, c <> "active" -> elementHasClass d c id = elementHasClass d' c id.

(** The key-up the joystick base's own [touchend] listener emits: the
    release of the tracked direction, when the event reaches the base and
    the tracked contact is among the ended ones. *)
Definition joystickRelease (s : State) (target : string) (touches : list Touch)
    : list (EventTarget * KeyboardEvent) :=
  if bubblesTo (document s) "joystick-base" target then
    match find (isActiveTouch s) touches with
    | Some _ => keyFor s "keyup" (currentJoystickDirection s)
    | None => []
    end
  else [].

Definition pressZ : Touch := {| identifier := 1; clientX := 300; clientY := 750 |}.

(** A finger pressed on the Z button of the freshly started overlay. *)
Definition zPressed : State :=
  runEvents RefHost.refHost [TouchStart "touch-z" [pressZ]]
    (started portrait emptyStorage).

(** ** Storage failures and the mode toggle *)

(** Storage that throws on every access (blocked), and storage that reads
    but cannot be written (full). *)
Definition blockedStorage : Storage :=
  {| items := ∅; readThrows := true; writeThrows := true |}.

Definition fullStorage : Storage :=
  {| items := ∅; readThrows := false; writeThrows := true |}.

(** The three document updates of [updateControlVisibility]. *)
Definition applyVisibility (joystick : bool) (d : Document) : Document :=
  alter (setTextContent (if joystick then "Use D-Pad" else "Use Joystick"))
    "control-toggle-button"
    (alter (classToggle "hidden" (negb joystick)) "joystick-container"
       (alter (classToggle "hidden" joystick) "dpad-container" d)).

(** The elements the toggle touches are in the tree and storage accepts
    writes. *)
Definition controlsInPlace (s : State) : Prop :=
  present (document s) "dpad-container" /\
  present (document s) "joystick-container" /\
  present (document s) "control-toggle-button" /\
  writeThrows (localStorage s) = false.

(** The shown cluster is the one of the active scheme. *)
Definition visibilityInSync (s : State) : Prop :=
  visible (document s) "dpad-container" = negb (isJoystickMode s) /\
  visible (document s) "joystick-container" = isJoystickMode s.

(** The states the overlay can be in: the script has run on some page
    whose storage works, and any events have followed. *)
Inductive Reachable (host : Host) : State -> Prop :=
| reachable_start (page : State) :
    readThrows (localStorage page) = false ->
    writeThrows (localStorage page) = false ->
    Reachable host (snd (script true page))
| reachable_step (s : State) (e : Event) :
    Reachable host s ->
    Reachable host (snd (dispatchEvent host e s)).

(** A listener that leaves the scheme, the storage and, the [active]
    marker and inline styles apart, the tree alone. *)
Definition sameMode (s s' : State) : Prop :=
  isJoystickMode s' = isJoystickMode s /\
  localStorage s' = localStorage s /\
  sameControls (document s) (document s').

(** ** The layout pass, element by element *)

(** What one step assigns to the element with a given id and with or
    without the [dpad-button] class. *)
Definition stepStyles (st : Step) (id : string) (dpad : bool)
    : gmap string StyleValue :=
  match st with
  | ApplyStyle i styles => if decide (i = id) then list_to_map styles else ∅
  | ForEachDpadButton styles => if dpad then list_to_map styles else ∅
  end.

(** The inline styles a run of steps leaves assigned, later steps winning. *)
Definition stylesAfter (steps : list Step) (id : string) (dpad : bool)
    (assigned : gmap string StyleValue) : gmap string StyleValue :=
  foldl (fun m st => stepStyles st id dpad ∪ m) assigned steps.

(** The geometry of one control: a function of the configuration, the
    window, the id and the class alone. *)
Definition assignedStyles (cfg : Config) (w : Window) (id : string) (dpad : bool)
    : gmap string StyleValue :=
  stylesAfter (layoutSteps cfg w) id dpad ∅.

(** Two steps that write the same properties of the same elements. *)
Definition sameKeys (st st' : Step) : Prop :=
  match st, st' with
  | ApplyStyle i l, ApplyStyle i' l' => i = i' /\ l.*1 = l'.*1
  | ForEachDpadButton l, ForEachDpadButton l' => l.*1 = l'.*1
  | _, _ => False
  end.

(** ** The boxes of a laid-out overlay *)

(** A configuration under which the controls fit: nothing negative, and
    the padding, the scaled sizes and the gaps add up to at most the short
    side, across (the action cluster's width in landscape) and down (the
    movement cluster with the toggle above it in landscape). *)
Definition fits (cfg : Config) : Prop :=
  (0 <= paddingPercent cfg /\ 0 <= gapPercent cfg /\ 0 <= scale cfg /\
   paddingPercent cfg + 46.2 * scale cfg + 2 * gapPercent cfg <= 100 /\
   paddingPercent cfg + 63 * scale cfg + gapPercent cfg <= 100)%Q.

Definition box (l t wd ht : Q) : DOMRect :=
  {| rect_left := l; rect_top := t; rect_width := wd; rect_height := ht |}.

(** The box of every element of the tree after a pass, as the rules of
    [Rendering] place it. *)
Definition layoutBoxes (cfg : Config) (w : Window) : list (string * DOMRect) :=
  let W := innerWidth w in
  let H := innerHeight w in
  let p := padding cfg w in
  let g := gap cfg w in
  let a := actionButtonSize cfg w in
  let m := movementClusterSize cfg w in
  let cw := clusterWidth cfg w in
  let ch := clusterHeight cfg w in
  let e := escButtonSize cfg w in
  let db := dpadButtonSize cfg w in
  let jb := joystickBaseSize cfg w in
  let acl := (0 + W - p - cw)%Q in
  let act := (0 + H - p - ch)%Q in
  let mcl := (0 + p)%Q in
  let mct := (0 + H - p - m)%Q in
  let jbl := (mcl + (m - jb) / 2)%Q in
  let jbt := (mct + (m - jb) / 2)%Q in
  [ ("virtual-controls-container", box 0 0 W H);
    ("action-cluster", box acl act cw ch);
    ("touch-q", box (acl + 0) (act + 0) a a);
    ("touch-z", box (acl + (a + g)) (act + 0) a a);
    ("touch-x", box (acl + cw - 0 - a) (act + 0) a a);
    ("touch-m", box (acl + 0) (act + ch - 0 - a) a a);
    ("touch-c", box (acl + (a + g)) (act + ch - 0 - a) a a);
    ("touch-v", box (acl + cw - 0 - a) (act + ch - 0 - a) a a);
    ("touch-esc", box (0 + W - p - e) (0 + p) e e);
    ("dpad-container", box mcl mct m m);
    ("touch-up", box (mcl + (2 - 1) * (m / 3)) (mct + (1 - 1) * (m / 3)) db db);
    ("touch-down", box (mcl + (2 - 1) * (m / 3)) (mct + (3 - 1) * (m / 3)) db db);
    ("touch-left", box (mcl + (1 - 1) * (m / 3)) (mct + (2 - 1) * (m / 3)) db db);
    ("touch-right", box (mcl + (3 - 1) * (m / 3)) (mct + (2 - 1) * (m / 3)) db db);
    ("joystick-container", box mcl mct m m);
    ("joystick-base", box jbl jbt jb jb);
    ("joystick-thumb",
      box (jbl + (jb - jb / 2) / 2) (jbt + (jb - jb / 2) / 2) (jb / 2) (jb / 2));
    ("control-toggle-button",
      box (0 + toggleLeft cfg w) (0 + H - toggleBottom cfg w - toggleButtonH cfg w)
        (toggleButtonW cfg w) (toggleButtonH cfg w)) ].



(** What the rendering reads of an element: its parent, whether it is a
    directional button, and its six inline insets and sizes. *)
Definition geometryKeys : list string :=
  ["left"; "right"; "top"; "bottom"; "width"; "height"].

Definition geometryOf (el : Element)
    : option string * bool * list (option StyleValue) :=
  (parentId el, hasClass "dpad-button" el,
   (fun k => style el !! k) <$> geometryKeys).

Definition sameGeometry (d d' : Document) : Prop :=
  forall id, geometryOf <$> d !! id = geometryOf <$> d' !! id.

(** A listener that leaves the window and what the rendering reads alone. *)
Definition sameLayout (s s' : State) : Prop :=
  window s' = window s /\ sameGeometry (document s) (document s').

(** The document renders as the fresh tree does after a pass with the
    present window. *)
Definition laidOut (s : State) : Prop :=
  sameGeometry (document s) (applyLayout CONFIG (window s) controlTree).

(** ** Vocabulary of the further properties *)

(** The events one call of [simulateKeyEvent] dispatches: one for a
    mapping, none for [undefined]. *)
Definition keyEvents (s : State) (type : string) (mapping : option KeyMapping)
    : list (EventTarget * KeyboardEvent) :=
  match mapping with
  | Some m => [(keyTarget s, newKeyboardEvent type m)]
  | None => []
  end.

(** A dispatched event built as [simulateKeyEvent] builds them in state
    [s]: a key-down or key-up of an entry of [KEY_MAPPINGS], sent to the
    canvas when there is one. *)
Definition fromTable (s : State) (te : EventTarget * KeyboardEvent) : Prop :=
  te.1 = keyTarget s /\
  exists type id m,
    (type = "keydown" \/ type = "keyup") /\
    KEY_MAPPINGS !! id = Some m /\
    te.2 = newKeyboardEvent type m.

(** Two documents that agree on one reading of every element. *)
Definition sameBy {X : Type} (g : Element -> X) (d d' : Document) : Prop :=
  forall id, g <$> d !! id = g <$> d' !! id.

(** A reading that no style assignment and no change of the [active]
    marker alters. *)
Definition keptByTouch {X : Type} (g : Element -> X) : Prop :=
  (forall f el, g (setStyle f el) = g el) /\
  (forall el, g (setClassList (fun cl => {[ "active" ]} ∪ cl) el) = g el) /\
  (forall el, g (setClassList (fun cl => cl ∖ {[ "active" ]}) el) = g el).

(** The text of the toggle button for a scheme: it names the other one. *)
Definition toggleLabel (joystick : bool) : string :=
  if joystick then "Use D-Pad" else "Use Joystick".

(** The property names the layout pass writes. *)
Definition layoutProperties : list string :=
  ["width"; "height"; "position"; "fontSize"; "top"; "left"; "right";
   "bottom"; "borderRadius"].

Definition stepKeys (st : Step) : list string :=
  match st with
  | ApplyStyle _ styles => styles.*1
  | ForEachDpadButton styles => styles.*1
  end.

(** The box of an element of the fresh tree after a pass. *)
Definition renderedBox (cfg : Config) (w : Window) (id : string) : DOMRect :=
  default RefHost.zeroRect
    (Rendering.boundingBox w (applyLayout cfg w controlTree) id).

Definition rect_right (b : DOMRect) : Q := rect_left b + rect_width b.
Definition rect_bottom (b : DOMRect) : Q := rect_top b + rect_height b.

(** Two boxes share an inner point. *)
Definition overlap (a b : DOMRect) : Prop :=
  (rect_left a < rect_right b /\ rect_left b < rect_right a /\
   rect_top a < rect_bottom b /\ rect_top b < rect_bottom a)%Q.

(** A contact that is not the tracked one. *)
Definition untracked (s : State) (t : Touch) : Prop :=
  activeJoystickTouchId s <> Some (identifier t).

(** A window a little wider than tall, and a stored joystick preference. *)
Definition nearSquare : Window := {| innerWidth := 1100; innerHeight := 1000 |}.

Definition joystickStored : Storage :=
  {| items := {[ "controlMode" := "joystick" ]};
     readThrows := false; writeThrows := false |}.

(** From [s] to [s'] the canvas is the same and the dispatched events have
    only grown, by events built from the table. *)
Definition emits (s s' : State) : Prop :=
  hasCanvas s' = hasCanvas s /\
  exists l, dispatched s' = (dispatched s ++ l)%list /\ Forall (fromTable s) l.

(** From [s] to [s'] storage throws as before, every key other than
    [controlMode] holds what it held, and [controlMode] holds what it held
    or the name of a scheme. *)
Definition stores (s s' : State) : Prop :=
  readThrows (localStorage s') = readThrows (localStorage s) /\
  writeThrows (localStorage s') = writeThrows (localStorage s) /\
  (forall k, k <> "controlMode" ->
     items (localStorage s') !! k = items (localStorage s) !! k) /\
  (items (localStorage s') !! "controlMode" = items (localStorage s) !! "controlMode" \/
   items (localStorage s') !! "controlMode" = Some "joystick" \/
   items (localStorage s') !! "controlMode" = Some "dpad").

(** What the script leaves of a page on a touch device. *)
Definition loaded (page : State) : State := snd (script true page).

(** An event that is not a click on the toggle button. *)
Definition notToggle (s : State) (e : Event) : Prop :=
  forall target, e = Click target ->
    bubblesTo (document s) "control-toggle-button" target = false.

(** From [s] to [s'] the canvas is the same and [focus()] has been
    called on it once for every event dispatched since, never when there
    is no canvas. *)
Definition focuses (s s' : State) : Prop :=
  hasCanvas s' = hasCanvas s /\
  exists n : nat,
    length (dispatched s') = (length (dispatched s) + n)%nat /\
    focusCalls s' = (focusCalls s + if hasCanvas s then n else 0)%nat.



(** ** Key events, field by field *)

(** A key event with every field spelled out: [which] repeats the key
    code, and the event bubbles and can be cancelled. *)
Definition keyEvent (type key code : string) (keyCode : Z) : KeyboardEvent :=
  {| ev_type := type; ev_key := key; ev_code := code;
     ev_keyCode := keyCode; ev_which := keyCode;
     ev_bubbles := true; ev_cancelable := true |}.

(** The arrow-key event of a direction. *)
Definition arrowEvent (type : string) (d : Direction) : KeyboardEvent :=
  match d with
  | Left => keyEvent type "ArrowLeft" "ArrowLeft" 37
  | Right => keyEvent type "ArrowRight" "ArrowRight" 39
  | Up => keyEvent type "ArrowUp" "ArrowUp" 38
  | Down => keyEvent type "ArrowDown" "ArrowDown" 40
  end.

(** What a key-up or key-down of a tracked direction dispatches in state
    [s]: nothing for no direction, one arrow-key event for a direction. *)
Definition arrowEvents (s : State) (type : string) (d : option Direction)
    : list (EventTarget * KeyboardEvent) :=
  match d with
  | None => []
  | Some d => [(keyTarget s, arrowEvent type d)]
  end.

(** The target resolves to no discrete button: [closest('.virtual-button')]
    finds nothing, or an element without any of the three button classes
    (as the joystick base and the toggle button are). *)
Definition noDiscreteButton (d : Document) (target : string) : Prop :=
  forall b, closest d "virtual-button" target = Some b ->
            isDiscreteButton d b = false.

(** Every discrete button of the document has an entry of its own in
    [KEY_MAPPINGS].  The source reads [KEY_MAPPINGS[button.id]], a property
    access that also finds what the object inherits (['constructor'],
    ['toString'], ...); for the ids of the table and for ids of the form
    ['touch-...'] the access and the lookup in the table agree. *)
Definition ownKeys (d : Document) : Prop :=
  forall id, isDiscreteButton d id = true -> is_Some (KEY_MAPPINGS !! id).

(** A dispatched event that is the key-down or key-up of an entry of the
    table, sent to the canvas when there is one. *)
Definition tableEvent (s : State) (te : EventTarget * KeyboardEvent) : Prop :=
  te.1 = keyTarget s /\
  exists type id m,
    (type = "keydown" \/ type = "keyup") /\
    KEY_MAPPINGS !! id = Some m /\
    te.2 = keyEvent type (key m) (code m) (keyCode m).

(** The [transform] the move logic writes on the thumb for a contact point. *)
Definition thumbTransform (host : Host) (s : State) (x y : Q) : StyleValue :=
  let rect := getBoundingClientRect host (window s) (document s) "joystick-base" in
  let angle := contactAngle host rect x y in
  let distance := contactDistance host rect x y in
  Translate (distance * Math_cos host angle) (distance * Math_sin host angle).

(** ** Vocabulary of the rectangles of a running overlay *)

Definition transformOf (el : Element) : option StyleValue :=
  style el !! "transform".

(** Two documents with the same [transform] on every element. *)
Definition sameTransforms (d d' : Document) : Prop :=
  forall i, transformOf <$> d !! i = transformOf <$> d' !! i.

(** The same, the joystick thumb apart. *)
Definition sameTransformsOffThumb (d d' : Document) : Prop :=
  forall i, i <> "joystick-thumb" -> transformOf <$> d !! i = transformOf <$> d' !! i.

Definition isCluster (id : string) : Prop :=
  id = "dpad-container" \/ id = "joystick-container".

(** Outside the two movement clusters the same elements carry the class
    [hidden]. *)
Definition sameHidden (d d' : Document) : Prop :=
  forall i, ~ isCluster i ->
    elementHasClass d "hidden" i = elementHasClass d' "hidden" i.



(** The chain of an element of the tree up to the container. *)
Definition chainOf (id : string) : list string :=
  ancestorsOrSelf (size controlTree) controlTree id.

(** The movement cluster of a scheme. *)
Definition clusterOf (joystick : bool) : string :=
  if joystick then "joystick-container" else "dpad-container".

(** A finger on the left rim of the joystick of a landscape phone. *)
Definition rimContact : Touch :=
  {| identifier := 3; clientX := 30; clientY := 270 |}.

Definition landscapeJoystickHeld : State :=
  runEvents RefHost.refHost
    [Click "control-toggle-button"; TouchStart "joystick-base" [rimContact]]
    (started landscape emptyStorage).

(** ** The arithmetic of the pass in binary64

    The sizes of [calculateAndApplyLayout] as JavaScript computes them:
    every decimal literal denotes the double nearest to it, and every
    product, quotient and sum is rounded to the nearest double, ties to
    even.  A double is the rational it denotes.  Results of magnitude
    [2 ^ 1024] and more (infinities) are outside this model. *)

Module Double.

Definition pow2 (e : Z) : Q := (2 ^ e)%Q.

(** The exponent of a positive number: [pow2 e <= x < pow2 (e + 1)]. *)
Definition ilog2 (x : Q) : Z :=
  let k := (Z.log2 (Qnum x) - Z.log2 (Zpos (Qden x)))%Z in
  if Qle_bool (pow2 k) x then k else (k - 1)%Z.

(** The nearest integer, the even one of two equally near. *)
Definition nearestEven (q : Q) : Z :=
  let f := Qfloor q in
  match ((q - inject_Z f) ?= (1 # 2))%Q with
  | Lt => f
  | Gt => (f + 1)%Z
  | Eq => if Z.even f then f else (f + 1)%Z
  end.

(** Rounding to binary64: 53 significant bits, exponents from -1022
    (below, the spacing of the subnormal numbers stays [2 ^ -1074]). *)
Definition round (x : Q) : Q :=
  if Qeq_bool x 0 then 0
  else
    let e := Z.max (ilog2 (Qabs x)) (-1022) in
    let ulp := pow2 (e - 52) in
    Qred (inject_Z (nearestEven (x / ulp)) * ulp).

(** A decimal literal of the source. *)
Definition lit (x : Q) : Q := round x.

Definition mul (a b : Q) : Q := round (a * b).
Definition div (a b : Q) : Q := round (a / b).
Definition add (a b : Q) : Q := round (a + b).

Section Sizes.

Variable cfg : Config.
Variable w : Window.

Definition sizeMultiplier : Q := if isLandscape w then lit 1.4 else lit 1.0.
Definition effectiveScale : Q := mul (scale cfg) sizeMultiplier.

Definition padding : Q := div (mul (shortSide w) (paddingPercent cfg)) (lit 100).
Definition gap : Q := div (mul (shortSide w) (gapPercent cfg)) (lit 100).

Definition actionButtonSize : Q := mul (mul (shortSide w) (lit 0.11)) effectiveScale.
Definition movementClusterSize : Q := mul (mul (shortSide w) (lit 0.38)) effectiveScale.

Definition clusterWidth : Q :=
  add (mul actionButtonSize (lit 3)) (mul gap (lit 2)).
Definition clusterHeight : Q := add (mul actionButtonSize (lit 2)) gap.

Definition actionFontSize : Q := mul actionButtonSize (lit 0.45).

Definition escButtonSize : Q := mul (mul (shortSide w) (lit 0.10)) effectiveScale.
Definition escFontSize : Q := mul escButtonSize (lit 0.4).

Definition dpadButtonSize : Q := div movementClusterSize (lit 3.2).
Definition joystickBaseSize : Q := mul movementClusterSize (lit 0.8).
Definition joystickThumbSize : Q := div joystickBaseSize (lit 2).

Definition toggleButtonW : Q := mul (mul (shortSide w) (lit 0.22)) effectiveScale.
Definition toggleButtonH : Q := mul (mul (shortSide w) (lit 0.07)) effectiveScale.
Definition toggleRadius : Q := div toggleButtonH (lit 4).
Definition toggleFontSize : Q := mul toggleButtonH (lit 0.45).

End Sizes.

(** Half a unit in the last place of a number in [[1, 2)], relative to it. *)
Definition u : Q := pow2 (-53).

(** Two positive numbers that differ by at most [2 ^ -48] of either. *)
Definition agree (a b : Q) : Prop :=
  (a <= b * (1 + pow2 (-48)) /\ b <= a * (1 + pow2 (-48)))%Q.

(** [(1 + u) ^ n]. *)
Fixpoint up (n : nat) : Q :=
  match n with
  | O => 1
  | S n => ((1 + u) * up n)%Q
  end.

(** [a] is [b] after at most [n] roundings, [b] being at least [2 ^ e]. *)
Definition rel (n : nat) (e : Z) (a b : Q) : Prop :=
  (pow2 e <= b /\ b <= a * up n /\ a <= b * up n)%Q.

End Double.

(** * Properties *)

(** ** Comparisons of numbers *)

Lemma ltb_lt a b : Num.ltb a b = true <-> (a < b)%Q.
Proof.
  unfold Num.ltb. rewrite negb_true_iff, <- not_true_iff_false, Qle_bool_iff.
  split; [apply Qnot_le_lt | apply Qlt_not_le].
Qed.

Lemma ltb_ge a b : Num.ltb a b = false <-> (b <= a)%Q.
Proof. unfold Num.ltb. by rewrite negb_false_iff, Qle_bool_iff. Qed.

Lemma gtb_gt a b : Num.gtb a b = true <-> (b < a)%Q.
Proof. apply ltb_lt. Qed.

Lemma gtb_le a b : Num.gtb a b = false <-> (a <= b)%Q.
Proof. apply ltb_ge. Qed.

(** Case analysis on every comparison of a goal, each turned into the
    order fact it decides. *)
Ltac cases_cmp :=
  repeat match goal with
  | |- context [Num.gtb ?a ?b] =>
      let E := fresh "E" in
      destruct (Num.gtb a b) eqn:E;
      [apply gtb_gt in E | apply gtb_le in E]
  | |- context [Num.ltb ?a ?b] =>
      let E := fresh "E" in
      destruct (Num.ltb a b) eqn:E;
      [apply ltb_lt in E | apply ltb_ge in E]
  end.

(** Divisions by a constant, as products with its inverse. *)
Ltac inv_consts :=
  unfold Qdiv in *;
  repeat match goal with
  | |- context [Qinv ?c] =>
      let v := eval vm_compute in (Qinv c) in progress change (Qinv c) with v
  | H : context [Qinv ?c] |- _ =>
      let v := eval vm_compute in (Qinv c) in progress change (Qinv c) with v in H
  end.

(** The absolute value, split by the sign of its argument. *)
Lemma Qabs_cases (a : Q) :
  ((0 <= a /\ Qabs a == a) \/ (a < 0 /\ Qabs a == - a))%Q.
Proof.
  destruct (Qlt_le_dec a 0) as [Hneg | Hpos].
  - right. split; [exact Hneg |]. apply Qabs_neg. apply Qlt_le_weak, Hneg.
  - left. split; [exact Hpos |]. apply Qabs_pos, Hpos.
Qed.

(** ** The joystick ladder *)

Section Ladder.

Variables (rectWidth distance angle : Q).

Local Ltac ladder :=
  unfold resolveDirection, joystickDeadzone in *; cases_cmp; try reflexivity;
  destruct (Qabs_cases angle) as [[? ?] | [? ?]]; exfalso; lra.

Lemma ladder_deadzone :
  (distance <= rectWidth / 2 * joystickDeadzone)%Q ->
  resolveDirection rectWidth distance angle = None.
Proof.
  intros. unfold resolveDirection, joystickDeadzone in *.
  cases_cmp; try reflexivity; exfalso; lra.
Qed.

Hypothesis above : (rectWidth / 2 * joystickDeadzone < distance)%Q.

Lemma ladder_left :
  (2.356 < Qabs angle)%Q ->
  resolveDirection rectWidth distance angle = Some Left.
Proof. intros. ladder. Qed.

Lemma ladder_right :
  (Qabs angle < 0.785)%Q ->
  resolveDirection rectWidth distance angle = Some Right.
Proof. intros. ladder. Qed.

Lemma ladder_up :
  (-2.356 <= angle)%Q -> (angle < -0.785)%Q ->
  resolveDirection rectWidth distance angle = Some Up.
Proof. intros. ladder. Qed.

Lemma ladder_down :
  (0.785 < angle)%Q -> (angle <= 2.356)%Q ->
  resolveDirection rectWidth distance angle = Some Down.
Proof. intros. ladder. Qed.

(** The two angles no branch takes. *)
Lemma ladder_gap :
  (angle == 0.785 \/ angle == -0.785)%Q ->
  resolveDirection rectWidth distance angle = None.
Proof. intros [? | ?]; ladder. Qed.

(** Every other angle resolves to a direction. *)
Lemma ladder_some :
  ~ (angle == 0.785)%Q -> ~ (angle == -0.785)%Q ->
  is_Some (resolveDirection rectWidth distance angle).
Proof.
  intros Hp Hn. unfold resolveDirection, joystickDeadzone in *.
  cases_cmp; try (by eexists).
  - exfalso. apply Hp. destruct (Qabs_cases angle) as [[? ?] | [? ?]]; lra.
  - exfalso. lra.
Qed.

End Ladder.

(** The angles on the four axes, with [Math.PI] for pi. *)
Lemma ladder_axes (rectWidth distance : Q) :
  (rectWidth / 2 * joystickDeadzone < distance)%Q ->
  resolveDirection rectWidth distance 0 = Some Right /\
  resolveDirection rectWidth distance (Math_PI / 2) = Some Down /\
  resolveDirection rectWidth distance (- (Math_PI / 2)) = Some Up /\
  resolveDirection rectWidth distance Math_PI = Some Left /\
  resolveDirection rectWidth distance (- Math_PI) = Some Left.
Proof.
  intros Habove. unfold resolveDirection.
  apply gtb_gt in Habove. rewrite Habove. by vm_compute.
Qed.

(** C1. Above the deadzone the direction follows the ladder
    ([ladder_left], [ladder_right], [ladder_up], [ladder_down],
    [ladder_axes]), but an angle of exactly 0.785 passes all four tests and
    falls through: whatever the rectangle and the distance, the result is
    no direction, not [Down]. *)
Theorem boundary_angle_resolves_to_none (rectWidth distance : Q) :
  resolveDirection rectWidth distance 0.785 = None.
Proof.
  unfold resolveDirection.
  destruct (Num.gtb distance (rectWidth / 2 * joystickDeadzone)); reflexivity.
Qed.

(** A contact exactly on the deadzone radius resolves to no direction. *)
Lemma at_deadzone_none (rectWidth angle : Q) :
  resolveDirection rectWidth (rectWidth / 2 * joystickDeadzone) angle = None.
Proof. apply ladder_deadzone. apply Qle_refl. Qed.

(** Above the deadzone neither the distance nor the rectangle matters. *)
Lemma above_deadzone_angle_only (w1 d1 w2 d2 angle : Q) :
  (w1 / 2 * joystickDeadzone < d1)%Q ->
  (w2 / 2 * joystickDeadzone < d2)%Q ->
  resolveDirection w1 d1 angle = resolveDirection w2 d2 angle.
Proof.
  intros H1 H2. unfold resolveDirection.
  apply gtb_gt in H1, H2. by rewrite H1, H2.
Qed.

(** C2. A contact at half the radius, well above the deadzone of a base
    200 wide, with the angle 0.785: no direction is resolved. *)
Theorem above_deadzone_unresolved :
  (200 / 2 * joystickDeadzone < 50)%Q /\
  resolveDirection 200 50 0.785 = None /\
  resolveDirection 200 50 (-0.785) = None.
Proof. by vm_compute. Qed.

(** ** Key events of the joystick *)

Lemma key_lookup (d : option Direction) :
  KEY_MAPPINGS !! touchKey d = arrowMapping <$> d.
Proof. by destruct d as [[] |]; vm_compute. Qed.

Lemma simulateKeyEvent_direction (type : string) (d : option Direction) (s : State) :
  dispatched (simulateKeyEvent type (KEY_MAPPINGS !! touchKey d) s)
  = (dispatched s ++ keyFor s type d)%list.
Proof.
  rewrite key_lookup. destruct d as [d |]; simpl.
  - reflexivity.
  - by rewrite app_nil_r.
Qed.

Lemma simulateKeyEvent_hasCanvas (type : string) (m : option KeyMapping) (s : State) :
  hasCanvas (simulateKeyEvent type m s) = hasCanvas s.
Proof. by destruct m. Qed.

Lemma simulateKeyEvent_document (type : string) (m : option KeyMapping) (s : State) :
  document (simulateKeyEvent type m s) = document s.
Proof. by destruct m. Qed.

Lemma simulateKeyEvent_direction_kept (type : string) (m : option KeyMapping) (s : State) :
  currentJoystickDirection (simulateKeyEvent type m s) = currentJoystickDirection s.
Proof. by destruct m. Qed.

Lemma simulateKeyEvent_touchId (type : string) (m : option KeyMapping) (s : State) :
  activeJoystickTouchId (simulateKeyEvent type m s) = activeJoystickTouchId s.
Proof. by destruct m. Qed.

Lemma keyFor_target (s s' : State) (type : string) (d : option Direction) :
  hasCanvas s' = hasCanvas s -> keyFor s' type d = keyFor s type d.
Proof. intros H. destruct d; [| done]. unfold keyFor, keyTarget. by rewrite H. Qed.

(** The events of [keyFor], field by field. *)
Lemma keyFor_arrowEvents (s : State) (type : string) (d : option Direction) :
  keyFor s type d = arrowEvents s type d.
Proof. by destruct d as [[] |]. Qed.

Section JoystickFacts.

Variable host : Host.

(** What one sample emits, and the direction it leaves tracked. *)
Lemma handleJoystickMove_dispatched (x y : Q) (s : State) :
  dispatched (handleJoystickMove host x y s)
  = (dispatched s ++
     if decide (sampleDirection host s x y = currentJoystickDirection s) then []
     else keyFor s "keyup" (currentJoystickDirection s)
          ++ keyFor s "keydown" (sampleDirection host s x y))%list.
Proof.
  unfold handleJoystickMove, sampleDirection. simpl.
  set (dir := resolveDirection _ _ _).
  destruct (decide (dir = currentJoystickDirection s)) as [Heq | Hne].
  - rewrite bool_decide_eq_false_2 by (intros H; by apply H).
    by rewrite app_nil_r.
  - rewrite bool_decide_eq_true_2 by done. simpl.
    rewrite !simulateKeyEvent_direction, <- app_assoc.
    f_equal. f_equal. apply keyFor_target, simulateKeyEvent_hasCanvas.
Qed.

Lemma handleJoystickMove_direction (x y : Q) (s : State) :
  currentJoystickDirection (handleJoystickMove host x y s) = sampleDirection host s x y.
Proof.
  unfold handleJoystickMove, sampleDirection. simpl.
  set (dir := resolveDirection _ _ _).
  destruct (decide (dir = currentJoystickDirection s)) as [Heq | Hne].
  - by rewrite bool_decide_eq_false_2 by (intros H; by apply H).
  - by rewrite bool_decide_eq_true_2 by done.
Qed.

Lemma handleJoystickMove_touchId (x y : Q) (s : State) :
  activeJoystickTouchId (handleJoystickMove host x y s) = activeJoystickTouchId s.
Proof.
  unfold handleJoystickMove. simpl. case_bool_decide; simpl; [| done].
  by rewrite !simulateKeyEvent_touchId.
Qed.

Lemma handleJoystickMove_hasCanvas (x y : Q) (s : State) :
  hasCanvas (handleJoystickMove host x y s) = hasCanvas s.
Proof.
  unfold handleJoystickMove. simpl. case_bool_decide; simpl; [| done].
  by rewrite !simulateKeyEvent_hasCanvas.
Qed.

(** C3. Two consecutive move samples: the first leaves its resolved
    direction tracked; the second emits nothing when it resolves to the
    same direction, and otherwise the key-up of the previous direction's
    arrow key (nothing for none) followed by the key-down of the new
    direction's arrow key (nothing for none), each at most one event with
    its type, key, code and key code as written out in [arrowEvent]; the
    new direction is then tracked. *)
Theorem direction_change_law (x1 y1 x2 y2 : Q) (s : State) :
  let s1 := handleJoystickMove host x1 y1 s in
  let s2 := handleJoystickMove host x2 y2 s1 in
  let previous := sampleDirection host s x1 y1 in
  let new := sampleDirection host s1 x2 y2 in
  currentJoystickDirection s1 = previous /\
  dispatched s2 = (dispatched s1 ++
    if decide (new = previous) then []
    else arrowEvents s1 "keyup" previous ++ arrowEvents s1 "keydown" new)%list /\
  currentJoystickDirection s2 = new.
Proof.
  intros s1 s2 previous new. split; [| split].
  - apply handleJoystickMove_direction.
  - subst s2. rewrite handleJoystickMove_dispatched, !keyFor_arrowEvents.
    subst s1. by rewrite handleJoystickMove_direction.
  - apply handleJoystickMove_direction.
Qed.

End JoystickFacts.

(** ** Contact start on the joystick base *)

(** A direction is only resolved outside the deadzone. *)
Lemma sampleDirection_outside (host : Host) (s : State) (x y : Q) (d : Direction) :
  sampleDirection host s x y = Some d ->
  let rect := getBoundingClientRect host (window s) (document s) "joystick-base" in
  (rect_width rect / 2 * joystickDeadzone < contactDistance host rect x y)%Q.
Proof.
  intros H. unfold sampleDirection in H. cbv zeta in *.
  set (rect := getBoundingClientRect host (window s) (document s) "joystick-base") in *.
  destruct (Qlt_le_dec (rect_width rect / 2 * joystickDeadzone)
              (contactDistance host rect x y)) as [Hlt | Hle]; [exact Hlt |].
  by rewrite ladder_deadzone in H.
Qed.

(** The whole dispatch of a first contact right of the centre: the
    key-down of the right arrow, sent to the canvas, and nothing else. *)
Lemma first_contact_presses_right :
  dispatched joystickShown = [] /\
  dispatched joystickHeld
  = [(Canvas, newKeyboardEvent "keydown" (arrowMapping Right))] /\
  currentJoystickDirection joystickHeld = Some Right /\
  activeJoystickTouchId joystickHeld = Some 7%Z.
Proof. by vm_compute. Qed.

(** C10 as stated fails: while a first finger holds the joystick to the
    right, a second contact starting on the base, outside the deadzone and
    on the same side, emits no key event at all. *)
Lemma second_contact_emits_nothing :
  let rect := getBoundingClientRect RefHost.refHost
                (window joystickHeld) (document joystickHeld) "joystick-base" in
  (rect_width rect / 2 * joystickDeadzone
   < contactDistance RefHost.refHost rect (clientX secondContact) (clientY secondContact))%Q /\
  currentJoystickDirection joystickHeld = Some Right /\
  dispatched (snd (dispatchEvent RefHost.refHost
                     (TouchStart "joystick-base" [secondContact]) joystickHeld))
  = dispatched joystickHeld.
Proof. by vm_compute. Qed.

(** ** Class lists *)

Lemma elem_of_removed (c x : string) (cl : gset string) :
  c <> x -> c ∈ cl ∖ {[ x ]} <-> c ∈ cl.
Proof. intros Hne. rewrite elem_of_difference, elem_of_singleton. tauto. Qed.

Lemma elem_of_added (c x : string) (cl : gset string) :
  c <> x -> c ∈ {[ x ]} ∪ cl <-> c ∈ cl.
Proof. intros Hne. rewrite elem_of_union, elem_of_singleton. tauto. Qed.

Lemma removed_not_elem_of (x : string) (cl : gset string) : x ∉ cl ∖ {[ x ]}.
Proof. rewrite elem_of_difference, elem_of_singleton. tauto. Qed.

Lemma added_elem_of (x : string) (cl : gset string) : x ∈ {[ x ]} ∪ cl.
Proof. rewrite elem_of_union, elem_of_singleton. tauto. Qed.

(** ** The tree under class and style updates *)

Lemma sameShape_fmap (f : Element -> Element) (d : Document) :
  (forall el, parentId (f el) = parentId el) -> sameShape d (f <$> d).
Proof.
  intros Hf id. rewrite lookup_fmap. destruct (d !! id); simpl; [| done].
  by rewrite Hf.
Qed.

Lemma sameShape_alter (f : Element -> Element) (i : string) (d : Document) :
  (forall el, parentId (f el) = parentId el) -> sameShape d (alter f i d).
Proof.
  intros Hf id. rewrite lookup_alter. case_decide; [subst | done].
  destruct (d !! id); simpl; [| done]. by rewrite Hf.
Qed.

Lemma sameShape_trans (d1 d2 d3 : Document) :
  sameShape d1 d2 -> sameShape d2 d3 -> sameShape d1 d3.
Proof. intros H12 H23 id. by rewrite H12. Qed.

Lemma sameShape_size (d d' : Document) : sameShape d d' -> size d = size d'.
Proof.
  intros H. rewrite <- !size_dom. f_equal. apply set_eq. intros id.
  rewrite !elem_of_dom. specialize (H id).
  destruct (d !! id), (d' !! id); simpl in H; done.
Qed.

Lemma sameShape_ancestors (d d' : Document) (fuel : nat) (id : string) :
  sameShape d d' -> ancestorsOrSelf fuel d id = ancestorsOrSelf fuel d' id.
Proof.
  intros H. revert id. induction fuel as [| fuel IH]; intros id; simpl; [done |].
  pose proof (H id) as Hid.
  destruct (d !! id) as [el |], (d' !! id) as [el' |]; simpl in Hid; try done.
  injection Hid as ->. destruct (parentId el'); [| done]. by rewrite IH.
Qed.

Lemma sameShape_bubblesTo (d d' : Document) (listener target : string) :
  sameShape d d' -> bubblesTo d listener target = bubblesTo d' listener target.
Proof.
  intros H. unfold bubblesTo.
  by rewrite (sameShape_size _ _ H), (sameShape_ancestors _ _ _ _ H).
Qed.

Lemma sameShape_closest (d d' : Document) (c target : string) :
  sameShape d d' ->
  (forall id, elementHasClass d c id = elementHasClass d' c id) ->
  closest d c target = closest d' c target.
Proof.
  intros H Hc. unfold closest.
  rewrite (sameShape_size _ _ H), (sameShape_ancestors _ _ _ _ H).
  generalize (ancestorsOrSelf (size d') d' target) as l.
  induction l as [| a l IH]; simpl; [done |]. by rewrite Hc, IH.
Qed.

(** Clearing the [active] class leaves every other class in place. *)
Lemma deactivateAll_class (d : Document) (c id : string) :
  c <> "active" ->
  elementHasClass (deactivateAll d) c id = elementHasClass d c id.
Proof.
  intros Hc. unfold elementHasClass, deactivateAll. rewrite lookup_fmap.
  destruct (d !! id) as [el |]; simpl; [| done].
  destruct (hasClass "virtual-button" el && hasClass "active" el); [| done].
  unfold hasClass. simpl. apply bool_decide_ext. by apply elem_of_removed.
Qed.

Lemma deactivateAll_shape (d : Document) : sameShape d (deactivateAll d).
Proof.
  apply sameShape_fmap. intros el.
  by destruct (hasClass "virtual-button" el && hasClass "active" el).
Qed.

Lemma deactivateAll_noneActive (d : Document) : noneActive (deactivateAll d).
Proof.
  intros id el' Hlook Hbutton. unfold deactivateAll in Hlook.
  rewrite lookup_fmap in Hlook.
  destruct (d !! id) as [el |]; simpl in Hlook; [| done].
  injection Hlook as <-.
  destruct (hasClass "virtual-button" el && hasClass "active" el) eqn:Hboth.
  - unfold hasClass. simpl. apply bool_decide_eq_false, removed_not_elem_of.
  - rewrite Hbutton in Hboth. exact Hboth.
Qed.

(** A style update changes neither the shape nor the classes. *)
Lemma restyle_shape (f : gmap string StyleValue -> gmap string StyleValue)
    (i : string) (d : Document) :
  sameShape d (alter (setStyle f) i d).
Proof. by apply sameShape_alter. Qed.

Lemma restyle_class (f : gmap string StyleValue -> gmap string StyleValue)
    (i c id : string) (d : Document) :
  elementHasClass (alter (setStyle f) i d) c id = elementHasClass d c id.
Proof.
  unfold elementHasClass. rewrite lookup_alter. case_decide; [subst | done].
  by destruct (d !! id).
Qed.

Lemma sameControls_refl (d : Document) : sameControls d d.
Proof. by split. Qed.

Lemma sameControls_trans (d1 d2 d3 : Document) :
  sameControls d1 d2 -> sameControls d2 d3 -> sameControls d1 d3.
Proof.
  intros [S12 C12] [S23 C23]. split.
  - by eapply sameShape_trans.
  - intros c id Hc. by rewrite C12, C23.
Qed.

Lemma sameControls_restyle (f : gmap string StyleValue -> gmap string StyleValue)
    (i : string) (d : Document) :
  sameControls d (alter (setStyle f) i d).
Proof.
  split; [apply restyle_shape |]. intros c id _. by rewrite restyle_class.
Qed.

Lemma sameControls_deactivateAll (d : Document) : sameControls d (deactivateAll d).
Proof.
  split; [apply deactivateAll_shape |]. intros c id Hc.
  by rewrite deactivateAll_class.
Qed.

Lemma sameControls_closest (d d' : Document) (target : string) :
  sameControls d d' ->
  closest d "virtual-button" target = closest d' "virtual-button" target.
Proof. intros [Hs Hc]. apply sameShape_closest; [done |]. intros id. by apply Hc. Qed.

Lemma sameControls_discrete (d d' : Document) (id : string) :
  sameControls d d' -> isDiscreteButton d id = isDiscreteButton d' id.
Proof. intros [_ Hc]. unfold isDiscreteButton. by rewrite !Hc. Qed.

Lemma sameControls_bubblesTo (d d' : Document) (listener target : string) :
  sameControls d d' -> bubblesTo d listener target = bubblesTo d' listener target.
Proof. intros [Hs _]. by apply sameShape_bubblesTo. Qed.

(** ** Contact end *)

Lemma joystickBase_touchend_controls (touches : list Touch) (s : State) :
  sameControls (document s) (document (joystickBase_touchend touches s)).
Proof.
  unfold joystickBase_touchend. destruct (find (isActiveTouch s) touches); simpl.
  - rewrite simulateKeyEvent_document. apply sameControls_restyle.
  - apply sameControls_refl.
Qed.

Lemma joystickBase_touchend_dispatched (touches : list Touch) (s : State) :
  dispatched (joystickBase_touchend touches s)
  = (dispatched s ++
     match find (isActiveTouch s) touches with
     | Some _ => keyFor s "keyup" (currentJoystickDirection s)
     | None => []
     end)%list.
Proof.
  unfold joystickBase_touchend. destruct (find (isActiveTouch s) touches); simpl.
  - apply simulateKeyEvent_direction.
  - by rewrite app_nil_r.
Qed.

(** The container's listener on a target that is no discrete control:
    the markers are cleared and nothing is dispatched. *)
Lemma container_touchend_elsewhere (target : string) (s : State) :
  (forall b, closest (document s) "virtual-button" target = Some b ->
             isDiscreteButton (document s) b = false) ->
  container_touchend target s = setDocument deactivateAll s.
Proof.
  intros Hnot. unfold container_touchend. simpl.
  pose proof (sameControls_deactivateAll (document s)) as Hsame.
  rewrite <- (sameControls_closest _ _ target Hsame).
  destruct (closest (document s) "virtual-button" target) as [b |] eqn:Hb; [| done].
  by rewrite <- (sameControls_discrete _ _ b Hsame), (Hnot b).
Qed.

(** C9, as the code has it. A contact end whose target resolves to no
    discrete control: the container's listener clears the [active] marker
    from every button and dispatches nothing; the only key event of the
    whole dispatch is the joystick base's own release of its tracked
    direction. *)
Theorem contact_end_elsewhere
    (host : Host) (target : string) (touches : list Touch) (s : State) :
  (forall b, closest (document s) "virtual-button" target = Some b ->
             isDiscreteButton (document s) b = false) ->
  let s' := snd (dispatchEvent host (TouchEnd target touches) s) in
  dispatched s' = (dispatched s ++ joystickRelease s target touches)%list /\
  (bubblesTo (document s) "virtual-controls-container" target = true ->
   noneActive (document s')).
Proof.
  intros Hnot. simpl.
  set (s1 := when (bubblesTo (document s) "joystick-base" target)
               (joystickBase_touchend touches) s).
  assert (Hsame : sameControls (document s) (document s1)).
  { subst s1. unfold when. destruct (bubblesTo _ _ _).
    - apply joystickBase_touchend_controls.
    - apply sameControls_refl. }
  assert (Hlog : dispatched s1 = (dispatched s ++ joystickRelease s target touches)%list).
  { subst s1. unfold when, joystickRelease. destruct (bubblesTo _ _ _).
    - apply joystickBase_touchend_dispatched.
    - by rewrite app_nil_r. }
  assert (Hnot1 : forall b, closest (document s1) "virtual-button" target = Some b ->
                            isDiscreteButton (document s1) b = false).
  { intros b Hb. rewrite <- (sameControls_closest _ _ target Hsame) in Hb.
    rewrite <- (sameControls_discrete _ _ b Hsame). by apply Hnot. }
  rewrite <- (sameControls_bubblesTo _ _ _ target Hsame).
  destruct (bubblesTo (document s) "virtual-controls-container" target); simpl.
  - rewrite (container_touchend_elsewhere target s1 Hnot1). simpl.
    split; [exact Hlog |]. intros _. apply deactivateAll_noneActive.
  - split; [exact Hlog | done].
Qed.

Lemma contact_end_elsewhere_witness :
  let s' := snd (dispatchEvent RefHost.refHost
                   (TouchEnd "control-toggle-button" [pressZ]) zPressed) in
  dispatched s'
  = (dispatched zPressed
     ++ joystickRelease zPressed "control-toggle-button" [pressZ])%list /\
  (bubblesTo (document zPressed) "virtual-controls-container" "control-toggle-button"
   = true -> noneActive (document s')).
Proof.
  apply (contact_end_elsewhere RefHost.refHost "control-toggle-button" [pressZ] zPressed).
  intros b Hb. vm_compute in Hb. injection Hb as <-. by vm_compute.
Defined.

(** The press of Z followed by a release on the toggle button: the key-down
    is the only event dispatched, no key-up follows it. *)
Lemma release_elsewhere_leaves_key_down :
  dispatched zPressed
  = [(Canvas, newKeyboardEvent "keydown" {| key := "z"; keyCode := 90; code := "KeyZ" |})] /\
  elementHasClass (document zPressed) "active" "touch-z" = true /\
  let s' := snd (dispatchEvent RefHost.refHost
                   (TouchEnd "control-toggle-button" [pressZ]) zPressed) in
  dispatched s' = dispatched zPressed /\
  elementHasClass (document s') "active" "touch-z" = false.
Proof. by vm_compute. Qed.

(** C9 as stated fails: the joystick base is a button but no discrete
    control, and the end of the contact that holds it to the right
    dispatches the key-up of the right arrow. *)
Lemma joystick_release_emits_key_up :
  closest (document joystickHeld) "virtual-button" "joystick-thumb"
  = Some "joystick-base" /\
  isDiscreteButton (document joystickHeld) "joystick-base" = false /\
  dispatched (snd (dispatchEvent RefHost.refHost
                     (TouchEnd "joystick-thumb" [firstContact]) joystickHeld))
  = (dispatched joystickHeld
     ++ [(Canvas, newKeyboardEvent "keyup" (arrowMapping Right))])%list.
Proof. by vm_compute. Qed.

(** ** Visibility and the mode toggle *)

Lemma withElement_present (id : string) (f : Element -> Element) (s : State) :
  present (document s) id ->
  withElement id f s = (Returned tt, setDocument (alter f id) s).
Proof. intros [el Hel]. unfold withElement. by rewrite Hel. Qed.

Lemma withElement_absent (id : string) (f : Element -> Element) (s : State) :
  document s !! id = None -> withElement id f s = (Thrown TypeError, s).
Proof. intros Hel. unfold withElement. by rewrite Hel. Qed.

Lemma present_alter (f : Element -> Element) (i id : string) (d : Document) :
  present (alter f i d) id <-> present d id.
Proof. apply lookup_alter_is_Some. Qed.

Lemma sameControls_present (d d' : Document) (id : string) :
  sameControls d d' -> present d id -> present d' id.
Proof.
  intros [Hs _] [el Hel]. specialize (Hs id). rewrite Hel in Hs.
  unfold present. destruct (d' !! id); [by eexists | done].
Qed.

Lemma sameControls_visible (d d' : Document) (id : string) :
  sameControls d d' -> visible d id = visible d' id.
Proof.
  intros [Hs Hc]. specialize (Hc "hidden" id). specialize (Hs id).
  unfold visible, elementHasClass in *.
  destruct (d !! id), (d' !! id); simpl in Hs; try done.
  by rewrite Hc.
Qed.

Lemma updateControlVisibility_returns (s : State) :
  present (document s) "dpad-container" ->
  present (document s) "joystick-container" ->
  present (document s) "control-toggle-button" ->
  updateControlVisibility s
  = (Returned tt, setDocument (applyVisibility (isJoystickMode s)) s).
Proof.
  intros Hd Hj Ht. unfold updateControlVisibility, bind, get.
  rewrite (withElement_present _ _ _ Hd).
  rewrite withElement_present by (simpl; by apply present_alter).
  rewrite withElement_present by (simpl; by do 2 apply present_alter).
  reflexivity.
Qed.

Lemma visible_toggle_here (force : bool) (id : string) (d : Document) :
  present d id -> visible (alter (classToggle "hidden" force) id d) id = negb force.
Proof.
  intros [el Hel]. unfold visible. rewrite lookup_alter_eq, Hel. simpl.
  f_equal. unfold hasClass. simpl. destruct force.
  - apply bool_decide_eq_true, added_elem_of.
  - apply bool_decide_eq_false, removed_not_elem_of.
Qed.

Lemma visible_alter_other (f : Element -> Element) (i id : string) (d : Document) :
  i <> id -> visible (alter f i d) id = visible d id.
Proof. intros Hne. unfold visible. by rewrite lookup_alter_ne. Qed.

Lemma visible_retext (t : string) (i id : string) (d : Document) :
  visible (alter (setTextContent t) i d) id = visible d id.
Proof.
  unfold visible. rewrite lookup_alter. case_decide; [subst | done].
  by destruct (d !! id).
Qed.

Lemma applyVisibility_visible (joystick : bool) (d : Document) :
  present d "dpad-container" -> present d "joystick-container" ->
  visible (applyVisibility joystick d) "dpad-container" = negb joystick /\
  visible (applyVisibility joystick d) "joystick-container" = joystick.
Proof.
  intros Hd Hj. unfold applyVisibility. rewrite !visible_retext. split.
  - rewrite visible_alter_other by done. by apply visible_toggle_here.
  - rewrite visible_toggle_here by (by apply present_alter).
    apply negb_involutive.
Qed.

Lemma applyVisibility_present (joystick : bool) (d : Document) (id : string) :
  present (applyVisibility joystick d) id <-> present d id.
Proof. unfold applyVisibility. by rewrite !present_alter. Qed.

(** What a click on the toggle does when nothing throws. *)
Lemma toggle_click_returns (s : State) :
  controlsInPlace s ->
  exists s',
    toggle_click s = (Returned tt, s') /\
    isJoystickMode s' = negb (isJoystickMode s) /\
    document s' = applyVisibility (negb (isJoystickMode s)) (document s) /\
    items (localStorage s') !! "controlMode" = Some (schemeName (negb (isJoystickMode s))) /\
    writeThrows (localStorage s') = false.
Proof.
  intros (Hd & Hj & Ht & Hw). unfold toggle_click, bind, modify, get, setItem. simpl.
  rewrite Hw. rewrite updateControlVisibility_returns by done.
  eexists. split; [reflexivity |]. simpl.
  repeat split; try done. by rewrite lookup_insert_eq.
Qed.

(** C5. From a state where the toggle's elements are in the tree, storage
    accepts the write and the shown cluster is the active scheme's (every
    reachable state with working storage, [reachable_controls]): one
    toggle flips the scheme, shows exactly one cluster - the new scheme's -
    with both still in the tree, and persists the new scheme's identifier;
    a second toggle restores the scheme and both visibilities. *)
Theorem toggle_law (s : State) :
  controlsInPlace s -> visibilityInSync s ->
  let s1 := snd (toggle_click s) in
  let s2 := snd (toggle_click s1) in
  fst (toggle_click s) = Returned tt /\
  isJoystickMode s1 = negb (isJoystickMode s) /\
  visible (document s1) "dpad-container"
    = negb (visible (document s1) "joystick-container") /\
  visible (document s1) "joystick-container" = isJoystickMode s1 /\
  present (document s1) "dpad-container" /\
  present (document s1) "joystick-container" /\
  items (localStorage s1) !! "controlMode" = Some (schemeName (isJoystickMode s1)) /\
  fst (toggle_click s1) = Returned tt /\
  isJoystickMode s2 = isJoystickMode s /\
  visible (document s2) "dpad-container" = visible (document s) "dpad-container" /\
  visible (document s2) "joystick-container" = visible (document s) "joystick-container".
Proof.
  intros Hin [Hvd Hvj] s1 s2.
  destruct (toggle_click_returns s Hin) as (t1 & E1 & M1 & D1 & I1 & W1).
  assert (Hs1 : s1 = t1) by (subst s1; by rewrite E1). rewrite E1, <- Hs1 in *.
  destruct Hin as (Hd & Hj & Ht & Hw).
  assert (Hin1 : controlsInPlace s1).
  { unfold controlsInPlace. rewrite D1. by rewrite !applyVisibility_present. }
  destruct (toggle_click_returns s1 Hin1) as (t2 & E2 & M2 & D2 & I2 & W2).
  assert (Hs2 : s2 = t2) by (subst s2; by rewrite E2). rewrite E2, <- Hs2 in *.
  destruct (applyVisibility_visible (negb (isJoystickMode s)) (document s) Hd Hj)
    as [V1d V1j].
  destruct Hin1 as (Hd1 & Hj1 & _).
  destruct (applyVisibility_visible (negb (isJoystickMode s1)) (document s1) Hd1 Hj1)
    as [V2d V2j].
  rewrite <- D1 in V1d, V1j. rewrite <- D2 in V2d, V2j.
  rewrite M2, M1, negb_involutive in *.
  repeat split; try done.
  - by rewrite V1d, V1j, negb_involutive.
  - by rewrite V2d, Hvd.
  - by rewrite V2j, Hvj.
Qed.

(** ** What the listeners leave alone *)

Lemma sameMode_refl (s : State) : sameMode s s.
Proof. repeat split; done. Qed.

Lemma sameMode_trans (s1 s2 s3 : State) :
  sameMode s1 s2 -> sameMode s2 s3 -> sameMode s1 s3.
Proof.
  intros (M12 & L12 & C12) (M23 & L23 & C23). repeat split.
  - by rewrite M23.
  - by rewrite L23.
  - apply (sameControls_trans _ _ _ C12 C23).
  - apply (sameControls_trans _ _ _ C12 C23).
Qed.

Lemma sameMode_when (b : bool) (f : State -> State) (s : State) :
  sameMode s (f s) -> sameMode s (when b f s).
Proof. intros H. destruct b; [exact H | apply sameMode_refl]. Qed.

Lemma sameMode_simulateKeyEvent (type : string) (m : option KeyMapping) (s : State) :
  sameMode s (simulateKeyEvent type m s).
Proof. destruct m; by repeat split. Qed.

Lemma sameMode_restyle (f : gmap string StyleValue -> gmap string StyleValue)
    (i : string) (s : State) :
  sameMode s (setDocument (alter (setStyle f) i) s).
Proof. repeat split; try done; apply sameControls_restyle. Qed.

Lemma sameMode_handleJoystickMove (host : Host) (x y : Q) (s : State) :
  sameMode s (handleJoystickMove host x y s).
Proof.
  unfold handleJoystickMove. cbv zeta.
  eapply sameMode_trans; [| apply sameMode_restyle].
  case_bool_decide; [| apply sameMode_refl].
  eapply sameMode_trans; [apply sameMode_simulateKeyEvent |].
  eapply sameMode_trans; [apply sameMode_simulateKeyEvent |].
  by repeat split.
Qed.

Lemma sameMode_joystickBase_touchstart (host : Host) (ts : list Touch) (s : State) :
  sameMode s (joystickBase_touchstart host ts s).
Proof.
  destruct ts as [| t ts]; simpl; [apply sameMode_refl |].
  eapply sameMode_trans; [| apply sameMode_handleJoystickMove].
  by repeat split.
Qed.

Lemma sameMode_joystickBase_touchmove (host : Host) (ts : list Touch) (s : State) :
  sameMode s (joystickBase_touchmove host ts s).
Proof.
  unfold joystickBase_touchmove. destruct (find _ ts).
  - apply sameMode_handleJoystickMove.
  - apply sameMode_refl.
Qed.

Lemma sameMode_joystickBase_touchend (ts : list Touch) (s : State) :
  sameMode s (joystickBase_touchend ts s).
Proof.
  unfold joystickBase_touchend. destruct (find _ ts); [| apply sameMode_refl].
  eapply sameMode_trans; [apply sameMode_simulateKeyEvent |].
  repeat split; try done; apply sameControls_restyle.
Qed.

(** Marking a button active changes no other class. *)
Lemma sameControls_activate (i : string) (d : Document) :
  sameControls d (alter (setClassList (fun cl => {[ "active" ]} ∪ cl)) i d).
Proof.
  split; [by apply sameShape_alter |]. intros c id Hc.
  unfold elementHasClass. rewrite lookup_alter. case_decide; [subst | done].
  destruct (d !! id) as [el |]; simpl; [| done].
  unfold hasClass. simpl. apply bool_decide_ext. symmetry. by apply elem_of_added.
Qed.

Lemma sameMode_container_touchstart (target : string) (s : State) :
  sameMode s (container_touchstart target s).
Proof.
  unfold container_touchstart.
  destruct (closest _ _ _) as [b |]; [| apply sameMode_refl].
  destruct (isDiscreteButton _ _); [| apply sameMode_refl].
  eapply sameMode_trans; [| apply sameMode_simulateKeyEvent].
  repeat split; try done; apply sameControls_activate.
Qed.

Lemma sameMode_container_touchend (target : string) (s : State) :
  sameMode s (container_touchend target s).
Proof.
  unfold container_touchend. cbv zeta.
  assert (H : sameMode s (setDocument deactivateAll s)).
  { repeat split; try done; apply sameControls_deactivateAll. }
  destruct (closest _ _ _) as [b |]; [| exact H].
  destruct (isDiscreteButton _ _); [| exact H].
  eapply sameMode_trans; [exact H | apply sameMode_simulateKeyEvent].
Qed.

(** ** The joystick's listeners, through the dispatch *)

Lemma container_touchstart_elsewhere (target : string) (s : State) :
  noDiscreteButton (document s) target -> container_touchstart target s = s.
Proof.
  intros Hnot. unfold container_touchstart.
  destruct (closest (document s) "virtual-button" target) as [b |] eqn:Hb; [| done].
  by rewrite (Hnot b).
Qed.

Lemma noDiscreteButton_sameControls (d d' : Document) (target : string) :
  sameControls d d' -> noDiscreteButton d target -> noDiscreteButton d' target.
Proof.
  intros Hsame Hnot b Hb. rewrite <- (sameControls_closest _ _ target Hsame) in Hb.
  rewrite <- (sameControls_discrete _ _ b Hsame). by apply Hnot.
Qed.

(** A contact start that reaches the base and is on no discrete button:
    the base's listener is the only one with an effect. *)
Lemma touchstart_on_joystick
    (host : Host) (target : string) (ts : list Touch) (s : State) :
  bubblesTo (document s) "joystick-base" target = true ->
  noDiscreteButton (document s) target ->
  snd (dispatchEvent host (TouchStart target ts) s) = joystickBase_touchstart host ts s.
Proof.
  intros Hb Hnot. simpl. rewrite Hb. unfold when.
  destruct (sameMode_joystickBase_touchstart host ts s) as (_ & _ & Hsame).
  destruct (bubblesTo _ "virtual-controls-container" target); [| done].
  apply container_touchstart_elsewhere.
  by apply (noDiscreteButton_sameControls (document s)).
Qed.

(** The matching contact end: the base's listener, then the container's
    clearing of the [active] markers. *)
Lemma touchend_on_joystick
    (host : Host) (target : string) (ts : list Touch) (s : State) :
  bubblesTo (document s) "joystick-base" target = true ->
  noDiscreteButton (document s) target ->
  snd (dispatchEvent host (TouchEnd target ts) s)
  = when (bubblesTo (document s) "virtual-controls-container" target)
      (setDocument deactivateAll) (joystickBase_touchend ts s).
Proof.
  intros Hb Hnot. simpl. rewrite Hb. unfold when.
  pose proof (joystickBase_touchend_controls ts s) as Hsame.
  rewrite <- (sameControls_bubblesTo _ _ _ target Hsame).
  destruct (bubblesTo (document s) "virtual-controls-container" target); [| done].
  apply container_touchend_elsewhere.
  by apply (noDiscreteButton_sameControls (document s)).
Qed.

Lemma handleJoystickMove_thumb (host : Host) (x y : Q) (s : State) :
  document (handleJoystickMove host x y s)
  = alter (setStyle (insert "transform" (thumbTransform host s x y)))
      "joystick-thumb" (document s).
Proof.
  unfold handleJoystickMove, thumbTransform. cbv zeta. simpl. f_equal.
  case_bool_decide; [| done]. simpl. by rewrite !simulateKeyEvent_document.
Qed.

(** C10, as the code has it. On every contact start that reaches the
    joystick base (on a target that is no discrete button, as the base and
    its thumb are), the move logic runs at once with the point of the first
    changed contact: that contact becomes the tracked one, the thumb is
    moved, and the direction the point resolves to becomes the tracked
    direction; when it differs from the direction tracked before, the
    key-up of the previous direction's arrow key (nothing for none) and
    then the key-down of the new direction's arrow key (nothing for none)
    are emitted at contact start, and when it is the same nothing is
    emitted. *)
Theorem contact_start_resolves_at_once
    (host : Host) (target : string) (t : Touch) (ts : list Touch) (s : State) :
  bubblesTo (document s) "joystick-base" target = true ->
  noDiscreteButton (document s) target ->
  let s' := snd (dispatchEvent host (TouchStart target (t :: ts)) s) in
  let previous := currentJoystickDirection s in
  let new := sampleDirection host s (clientX t) (clientY t) in
  activeJoystickTouchId s' = Some (identifier t) /\
  currentJoystickDirection s' = new /\
  dispatched s' =
    (dispatched s ++
     if decide (new = previous) then []
     else arrowEvents s "keyup" previous ++ arrowEvents s "keydown" new)%list /\
  (forall el, document s' !! "joystick-thumb" = Some el ->
     style el !! "transform" = Some (thumbTransform host s (clientX t) (clientY t))).
Proof.
  intros Hb Hnot s' previous new. subst s'.
  rewrite (touchstart_on_joystick host target (t :: ts) s Hb Hnot).
  unfold joystickBase_touchstart.
  set (s0 := setActiveJoystickTouchId (Some (identifier t)) s).
  split; [| split; [| split]].
  - by rewrite handleJoystickMove_touchId.
  - by rewrite handleJoystickMove_direction.
  - by rewrite handleJoystickMove_dispatched, !keyFor_arrowEvents.
  - intros el. rewrite handleJoystickMove_thumb, lookup_alter_eq.
    change (document s0) with (document s).
    destruct (document s !! "joystick-thumb") as [el0 |]; simpl; [| done].
    intros [= <-]. simpl. apply lookup_insert_eq.
Qed.

Lemma contact_start_witness :
  let s' := snd (dispatchEvent RefHost.refHost
                   (TouchStart "joystick-thumb" [firstContact]) joystickShown) in
  let previous := currentJoystickDirection joystickShown in
  let new := sampleDirection RefHost.refHost joystickShown 130 754 in
  activeJoystickTouchId s' = Some 7%Z /\
  currentJoystickDirection s' = new /\
  dispatched s' =
    (dispatched joystickShown ++
     if decide (new = previous) then []
     else arrowEvents joystickShown "keyup" previous
          ++ arrowEvents joystickShown "keydown" new)%list /\
  (forall el, document s' !! "joystick-thumb" = Some el ->
     style el !! "transform" = Some (thumbTransform RefHost.refHost joystickShown 130 754)).
Proof.
  apply (contact_start_resolves_at_once RefHost.refHost "joystick-thumb"
           firstContact [] joystickShown).
  - by vm_compute.
  - intros b Hb. vm_compute in Hb. injection Hb as <-. by vm_compute.
Defined.

(** The same run, event by event: a first contact on the thumb, right of
    the centre, dispatches the key-down of the right arrow to the canvas. *)
Lemma contact_on_thumb_presses_right :
  dispatched (snd (dispatchEvent RefHost.refHost
                     (TouchStart "joystick-thumb" [firstContact]) joystickShown))
  = [(Canvas, keyEvent "keydown" "ArrowRight" "ArrowRight" 39)].
Proof. by vm_compute. Qed.

(** The layout pass only assigns inline styles. *)
Lemma sameControls_styleDpadButtons (styles : list (string * StyleValue)) (d : Document) :
  sameControls d (styleDpadButtons styles d).
Proof.
  split.
  - apply sameShape_fmap. intros el. by destruct (hasClass "dpad-button" el).
  - intros c id _. unfold elementHasClass, styleDpadButtons. rewrite lookup_fmap.
    destruct (d !! id) as [el |]; simpl; [| done].
    by destruct (hasClass "dpad-button" el).
Qed.

Lemma sameControls_runStep (st : Step) (d : Document) :
  sameControls d (runStep st d).
Proof.
  destruct st; [apply sameControls_restyle | apply sameControls_styleDpadButtons].
Qed.

Lemma sameControls_applyLayout (cfg : Config) (w : Window) (d : Document) :
  sameControls d (applyLayout cfg w d).
Proof.
  unfold applyLayout. generalize (layoutSteps cfg w) as steps. intros steps.
  revert d. induction steps as [| st steps IH]; intros d; simpl.
  - apply sameControls_refl.
  - eapply sameControls_trans; [apply sameControls_runStep | apply IH].
Qed.

Lemma sameMode_layout (cfg : Config) (s : State) :
  sameMode s (calculateAndApplyLayoutWith cfg s).
Proof. repeat split; try done; apply sameControls_applyLayout. Qed.

Lemma sameMode_controlsInPlace (s s' : State) :
  sameMode s s' -> controlsInPlace s -> controlsInPlace s'.
Proof.
  intros (_ & L & C) (Hd & Hj & Ht & Hw). unfold controlsInPlace. rewrite L.
  repeat split; try done; by eapply sameControls_present.
Qed.

Lemma sameMode_visibilityInSync (s s' : State) :
  sameMode s s' -> visibilityInSync s -> visibilityInSync s'.
Proof.
  intros (M & _ & C) [Hd Hj]. unfold visibilityInSync.
  by rewrite M, <- !(sameControls_visible _ _ _ C).
Qed.

(** ** Initialisation *)

Lemma buildControls_present (s : State) (id : string) :
  present controlTree id -> present (document (buildControls s)) id.
Proof. intros H. simpl. apply lookup_union_is_Some. by right. Qed.

Lemma controlTree_present :
  present controlTree "virtual-controls-container" /\
  present controlTree "joystick-base" /\
  present controlTree "control-toggle-button" /\
  present controlTree "dpad-container" /\
  present controlTree "joystick-container".
Proof. unfold present. repeat apply conj; eexists; vm_compute; reflexivity. Qed.

Lemma requireElement_present (id : string) (s : State) :
  present (document s) id -> requireElement id s = (Returned tt, s).
Proof. intros [el Hel]. unfold requireElement. by rewrite Hel. Qed.

(** [init] never throws: it builds the elements it then looks up. *)
Lemma init_returns (s : State) :
  init s =
  (Returned tt,
   calculateAndApplyLayout
     (setDocument (applyVisibility (isJoystickMode s)) (buildControls s))).
Proof.
  destruct controlTree_present as (Hc & Hb & Ht & Hd & Hj).
  unfold init, setupEventListeners, bind, modify.
  rewrite !requireElement_present by by apply buildControls_present.
  rewrite updateControlVisibility_returns by by apply buildControls_present.
  reflexivity.
Qed.

Lemma init_invariant (s : State) :
  writeThrows (localStorage s) = false ->
  controlsInPlace (snd (init s)) /\ visibilityInSync (snd (init s)).
Proof.
  intros Hw. rewrite init_returns. simpl.
  destruct controlTree_present as (Hc & Hb & Ht & Hd & Hj).
  set (s1 := setDocument (applyVisibility (isJoystickMode s)) (buildControls s)).
  assert (H1 : controlsInPlace s1).
  { unfold controlsInPlace, s1. simpl. rewrite !applyVisibility_present.
    repeat split; try done; apply lookup_union_is_Some; by right. }
  assert (H2 : visibilityInSync s1).
  { unfold visibilityInSync, s1. simpl.
    apply applyVisibility_visible; apply lookup_union_is_Some; by right. }
  split.
  - by apply (sameMode_controlsInPlace s1), H1; apply sameMode_layout.
  - by apply (sameMode_visibilityInSync s1), H2; apply sameMode_layout.
Qed.

(** The script with readable storage: the stored scheme is loaded, any
    other or missing value giving the directional pad, and [init] runs. *)
Lemma script_returns (page : State) :
  readThrows (localStorage page) = false ->
  script true page =
  init (setCurrentJoystickDirection None
          (setIsJoystickMode
             (bool_decide (items (localStorage page) !! "controlMode" = Some "joystick"))
             page)).
Proof. intros Hr. unfold script, bind, getItem, modify. simpl. by rewrite Hr. Qed.

(** Every reachable state has the toggle's elements in place and shows the
    cluster of its scheme. *)
Lemma reachable_controls (host : Host) (s : State) :
  Reachable host s -> controlsInPlace s /\ visibilityInSync s.
Proof.
  induction 1 as [page Hr Hw | s e Hreach [Hin Hsync]].
  - rewrite script_returns by done. by apply init_invariant.
  - destruct e as [target ts | target ts | target ts | target | w]; simpl.
    + set (s1 := when _ (joystickBase_touchstart host ts) s).
      assert (H1 : sameMode s s1)
        by apply sameMode_when, sameMode_joystickBase_touchstart.
      assert (H2 : sameMode s1 (when (bubblesTo (document s1)
                     "virtual-controls-container" target)
                     (container_touchstart target) s1))
        by apply sameMode_when, sameMode_container_touchstart.
      pose proof (sameMode_trans _ _ _ H1 H2) as H.
      split; [by eapply sameMode_controlsInPlace | by eapply sameMode_visibilityInSync].
    + assert (H : sameMode s (when (bubblesTo (document s) "joystick-base" target)
                    (joystickBase_touchmove host ts) s))
        by apply sameMode_when, sameMode_joystickBase_touchmove.
      split; [by eapply sameMode_controlsInPlace | by eapply sameMode_visibilityInSync].
    + set (s1 := when _ (joystickBase_touchend ts) s).
      assert (H1 : sameMode s s1)
        by apply sameMode_when, sameMode_joystickBase_touchend.
      assert (H2 : sameMode s1 (when (bubblesTo (document s1)
                     "virtual-controls-container" target)
                     (container_touchend target) s1))
        by apply sameMode_when, sameMode_container_touchend.
      pose proof (sameMode_trans _ _ _ H1 H2) as H.
      split; [by eapply sameMode_controlsInPlace | by eapply sameMode_visibilityInSync].
    + destruct (bubblesTo _ _ _); [| done].
      destruct (toggle_click_returns s Hin) as (s' & E & M & D & I & W).
      rewrite E. simpl. destruct Hin as (Hd & Hj & Ht & Hw). split.
      * unfold controlsInPlace. rewrite D, !applyVisibility_present. by repeat split.
      * unfold visibilityInSync. rewrite D, M. by apply applyVisibility_visible.
    + assert (H : sameMode s (calculateAndApplyLayout (setWindow w s))).
      { eapply sameMode_trans; [| apply sameMode_layout]. by repeat split. }
      split; [by eapply sameMode_controlsInPlace | by eapply sameMode_visibilityInSync].
Qed.

Lemma toggle_law_witness :
  let s := started portrait emptyStorage in
  let s1 := snd (toggle_click s) in
  let s2 := snd (toggle_click s1) in
  fst (toggle_click s) = Returned tt /\
  isJoystickMode s1 = negb (isJoystickMode s) /\
  visible (document s1) "dpad-container"
    = negb (visible (document s1) "joystick-container") /\
  visible (document s1) "joystick-container" = isJoystickMode s1 /\
  present (document s1) "dpad-container" /\
  present (document s1) "joystick-container" /\
  items (localStorage s1) !! "controlMode" = Some (schemeName (isJoystickMode s1)) /\
  fst (toggle_click s1) = Returned tt /\
  isJoystickMode s2 = isJoystickMode s /\
  visible (document s2) "dpad-container" = visible (document s) "dpad-container" /\
  visible (document s2) "joystick-container" = visible (document s) "joystick-container".
Proof.
  apply (toggle_law (started portrait emptyStorage)).
  - unfold controlsInPlace, present.
    repeat apply conj; by (eexists; vm_compute; reflexivity).
  - split; vm_compute; reflexivity.
Defined.

(** ** Storage that throws *)

(** C4, as the code has it. No access to storage is guarded. A load that
    throws aborts the script before anything is built, the state untouched;
    a save that throws aborts the toggle after the scheme flipped in memory
    and before the visibility update; either exception reaches the caller.
    With readable storage the script returns with the stored scheme, the
    directional pad for a missing or unknown value. *)
Theorem storage_failure_propagates (s : State) :
  (readThrows (localStorage s) = true ->
   script true s = (Thrown StorageError, s)) /\
  (writeThrows (localStorage s) = true ->
   toggle_click s
   = (Thrown StorageError, setIsJoystickMode (negb (isJoystickMode s)) s)) /\
  (readThrows (localStorage s) = false ->
   fst (script true s) = Returned tt /\
   isJoystickMode (snd (script true s))
   = bool_decide (items (localStorage s) !! "controlMode" = Some "joystick")).
Proof.
  split; [| split].
  - intros Hr. unfold script, bind, getItem. simpl. by rewrite Hr.
  - intros Hw. unfold toggle_click, bind, modify, get, setItem. simpl. by rewrite Hw.
  - intros Hr. rewrite script_returns, init_returns by done. by split.
Qed.

Lemma storage_failure_witness :
  let page := blankPage portrait blockedStorage in
  script true page = (Thrown StorageError, page) /\
  toggle_click page = (Thrown StorageError, setIsJoystickMode true page) /\
  fst (script true (blankPage portrait emptyStorage)) = Returned tt /\
  isJoystickMode (started portrait emptyStorage) = false.
Proof.
  intros page.
  destruct (storage_failure_propagates page) as (Hload & Hsave & _).
  destruct (storage_failure_propagates (blankPage portrait emptyStorage))
    as (_ & _ & Hok).
  split; [apply Hload; reflexivity |].
  split; [apply Hsave; reflexivity |].
  apply Hok. reflexivity.
Defined.

(** C4 as stated fails. With storage blocked the script throws and builds
    nothing; with storage full a click on the toggle throws, leaving the
    joystick scheme active in memory while the directional pad is still the
    cluster shown. *)
Lemma storage_failure_reaches_caller :
  fst (script true (blankPage portrait blockedStorage)) = Thrown StorageError /\
  document (snd (script true (blankPage portrait blockedStorage))) = ∅ /\
  let s := started portrait fullStorage in
  fst (toggle_click s) = Thrown StorageError /\
  isJoystickMode (snd (toggle_click s)) = true /\
  visible (document (snd (toggle_click s))) "dpad-container" = true /\
  visible (document (snd (toggle_click s))) "joystick-container" = false.
Proof. by vm_compute. Qed.

(** ** The layout pass is a function of the window *)

Lemma assignStyle_empty (el : Element) : assignStyle ∅ el = el.
Proof.
  destruct el. unfold assignStyle, setStyle. simpl. f_equal.
  apply (left_id_L ∅ (∪)).
Qed.

Lemma assignStyle_assignStyle (m m' : gmap string StyleValue) (el : Element) :
  assignStyle m (assignStyle m' el) = assignStyle (m ∪ m') el.
Proof.
  unfold assignStyle, setStyle. simpl. f_equal. apply (assoc_L (∪)).
Qed.

(** One step, seen from one element. *)
Lemma runStep_lookup (st : Step) (d : Document) (id : string) :
  runStep st d !! id
  = (fun el => assignStyle (stepStyles st id (hasClass "dpad-button" el)) el)
    <$> d !! id.
Proof.
  destruct st as [i styles | styles]; simpl.
  - unfold applyStyle. rewrite lookup_alter. case_decide; [subst; done |].
    destruct (d !! id) as [el |]; simpl; [| done]. by rewrite assignStyle_empty.
  - unfold styleDpadButtons. rewrite lookup_fmap.
    destruct (d !! id) as [el |]; simpl; [| done].
    destruct (hasClass "dpad-button" el); [done |]. by rewrite assignStyle_empty.
Qed.

Lemma assignSteps (steps : list Step) (id : string) (m : gmap string StyleValue)
    (el : Element) :
  foldl (fun e st => assignStyle (stepStyles st id (hasClass "dpad-button" e)) e)
    (assignStyle m el) steps
  = assignStyle (stylesAfter steps id (hasClass "dpad-button" el) m) el.
Proof.
  revert m. induction steps as [| st steps IH]; intros m; simpl; [done |].
  rewrite assignStyle_assignStyle. apply IH.
Qed.

Lemma runSteps_lookup (steps : list Step) (d : Document) (id : string) :
  foldl (fun d st => runStep st d) d steps !! id
  = (fun el => assignStyle (stylesAfter steps id (hasClass "dpad-button" el) ∅) el)
    <$> d !! id.
Proof.
  transitivity
    ((fun el =>
        foldl (fun e st => assignStyle (stepStyles st id (hasClass "dpad-button" e)) e)
          el steps) <$> d !! id).
  - revert d. induction steps as [| st steps IH]; intros d; simpl.
    + by destruct (d !! id).
    + rewrite IH, runStep_lookup. by destruct (d !! id).
  - destruct (d !! id) as [el |]; simpl; [| done]. f_equal.
    rewrite <- (assignStyle_empty el) at 1. apply assignSteps.
Qed.

Lemma applyLayout_lookup (cfg : Config) (w : Window) (d : Document) (id : string) :
  applyLayout cfg w d !! id
  = (fun el => assignStyle (assignedStyles cfg w id (hasClass "dpad-button" el)) el)
    <$> d !! id.
Proof. apply runSteps_lookup. Qed.

(** Steps with the same keys assign the same set of properties. *)
Lemma stepStyles_dom (st st' : Step) (id : string) (dpad : bool) :
  sameKeys st st' ->
  dom (stepStyles st id dpad) = dom (stepStyles st' id dpad).
Proof.
  destruct st as [i l | l], st' as [i' l' | l']; simpl; try done.
  - intros [-> Hl]. case_decide; [| done]. by rewrite !dom_list_to_map_L, Hl.
  - intros Hl. destruct dpad; [| done]. by rewrite !dom_list_to_map_L, Hl.
Qed.

Lemma stylesAfter_dom (steps steps' : list Step) (id : string) (dpad : bool)
    (m m' : gmap string StyleValue) :
  Forall2 sameKeys steps steps' -> dom m = dom m' ->
  dom (stylesAfter steps id dpad m) = dom (stylesAfter steps' id dpad m').
Proof.
  intros H. revert m m'. induction H as [| st st' steps steps' Hst _ IH];
    intros m m' Hm; simpl; [done |].
  apply IH. by rewrite !dom_union_L, Hm, (stepStyles_dom st st').
Qed.

Lemma layoutSteps_sameKeys (cfg : Config) (w w' : Window) :
  Forall2 sameKeys (layoutSteps cfg w) (layoutSteps cfg w').
Proof. unfold layoutSteps. repeat constructor. Qed.

(** A second assignment of the same properties hides the first. *)
Lemma assignStyle_overwrite (m m' : gmap string StyleValue) (el : Element) :
  dom m = dom m' -> assignStyle m (assignStyle m' el) = assignStyle m el.
Proof.
  intros Hdom. unfold assignStyle, setStyle. simpl. f_equal.
  apply map_eq. intros k. rewrite !lookup_union.
  destruct (m !! k) as [v |] eqn:Hk; [by destruct (m' !! k), (style el !! k) |].
  assert (Hk' : m' !! k = None).
  { apply not_elem_of_dom. rewrite <- Hdom. by apply not_elem_of_dom. }
  rewrite Hk'. by destruct (style el !! k).
Qed.

(** A pass hides whatever an earlier pass assigned. *)
Lemma applyLayout_overwrites (cfg : Config) (w previous : Window) (d : Document) :
  applyLayout cfg w (applyLayout cfg previous d) = applyLayout cfg w d.
Proof.
  apply map_eq. intros id. rewrite !applyLayout_lookup.
  destruct (d !! id) as [el |]; simpl; [| done]. f_equal.
  apply assignStyle_overwrite, stylesAfter_dom; [| done].
  apply layoutSteps_sameKeys.
Qed.

(** C7. The pass writes to each control the styles [assignedStyles] gives
    for the configuration, the window, and the control's id and class,
    over whatever was there; so a second pass with the same window changes
    nothing, and a pass gives the same document whatever window an earlier
    pass was run with. *)
Theorem layout_is_pure (cfg : Config) (w previous : Window) (d : Document) :
  (forall id,
     applyLayout cfg w d !! id
     = (fun el => assignStyle (assignedStyles cfg w id (hasClass "dpad-button" el)) el)
       <$> d !! id) /\
  applyLayout cfg w (applyLayout cfg w d) = applyLayout cfg w d /\
  applyLayout cfg w (applyLayout cfg previous d) = applyLayout cfg w d.
Proof.
  split; [intros id; apply applyLayout_lookup |].
  split; apply applyLayout_overwrites.
Qed.

(** The same at the level of the listener: a repeated
    [calculateAndApplyLayout] is the identity on its own result. *)
Lemma calculateAndApplyLayout_idempotent (s : State) :
  calculateAndApplyLayout (calculateAndApplyLayout s) = calculateAndApplyLayout s.
Proof.
  unfold calculateAndApplyLayout, calculateAndApplyLayoutWith, setDocument. simpl.
  f_equal. apply applyLayout_overwrites.
Qed.

(** ** Orientation *)

Lemma sizeMultiplier_landscape (w : Window) :
  isLandscape w = true -> sizeMultiplier w = 1.4%Q.
Proof. intros H. unfold sizeMultiplier. by rewrite H. Qed.

Lemma sizeMultiplier_portrait (w : Window) :
  isLandscape w = false -> sizeMultiplier w = 1.0%Q.
Proof. intros H. unfold sizeMultiplier. by rewrite H. Qed.

(** ** Rounding to binary64 *)

Section DoubleFacts.

Import Double.

Lemma pow2_pos (e : Z) : (0 < pow2 e)%Q.
Proof. by apply Qpower_0_lt. Qed.

Lemma pow2_add (a b : Z) : (pow2 (a + b) == pow2 a * pow2 b)%Q.
Proof. apply Qpower_plus. discriminate. Qed.

Lemma pow2_le (a b : Z) : (a <= b)%Z -> (pow2 a <= pow2 b)%Q.
Proof. intros H. by apply Qpower_le_compat_l. Qed.

Lemma pow2_lt_inv (a b : Z) : (pow2 a < pow2 b)%Q -> (a < b)%Z.
Proof. intros H. by apply (Qpower_lt_compat_l_inv 2). Qed.

Lemma pow2_inject (n : Z) : (0 <= n)%Z -> (pow2 n == inject_Z (2 ^ n))%Q.
Proof. intros H. symmetry. by apply (Zpower_Qpower 2). Qed.

(** A positive integer between the powers of two of its logarithm. *)
Lemma log2_bounds (n : Z) :
  (0 < n)%Z ->
  (pow2 (Z.log2 n) <= inject_Z n /\ inject_Z n < pow2 (Z.log2 n + 1))%Q.
Proof.
  intros Hn. destruct (Z.log2_spec n Hn) as [Hlo Hhi].
  pose proof (Z.log2_nonneg n) as H0.
  rewrite !pow2_inject by lia. split.
  - by rewrite <- Zle_Qle.
  - rewrite <- Zlt_Qlt. by rewrite <- Z.add_1_r in Hhi.
Qed.

Lemma ilog2_spec (x : Q) :
  (0 < x)%Q -> (pow2 (ilog2 x) <= x /\ x < pow2 (ilog2 x + 1))%Q.
Proof.
  intros Hx. destruct x as [n d].
  assert (Hn : (0 < n)%Z).
  { unfold Qlt in Hx. simpl in Hx. lia. }
  destruct (log2_bounds n Hn) as [Hnlo Hnhi].
  destruct (log2_bounds (Zpos d) eq_refl) as [Hdlo Hdhi].
  set (ln := Z.log2 n) in *. set (ld := Z.log2 (Zpos d)) in *.
  assert (Hd : (0 < inject_Z (Zpos d))%Q) by (by rewrite <- (Zlt_Qlt 0)).
  assert (Hx' : ((n # d) * inject_Z (Zpos d) == inject_Z n)%Q).
  { rewrite (Qmake_Qdiv n d). field. intros H. rewrite H in Hd.
    by apply Qlt_irrefl in Hd. }
  assert (Hlow : (pow2 (ln - ld - 1) < n # d)%Q).
  { apply (Qmult_lt_r _ _ (inject_Z (Zpos d)) Hd). rewrite Hx'.
    eapply Qlt_le_trans; [| exact Hnlo].
    eapply Qlt_le_trans;
      [apply Qmult_lt_l; [apply pow2_pos | exact Hdhi] |].
    rewrite <- pow2_add. apply pow2_le. lia. }
  assert (Hupp : (n # d < pow2 (ln - ld + 1))%Q).
  { apply (Qmult_lt_r _ _ (inject_Z (Zpos d)) Hd). rewrite Hx'.
    eapply Qlt_le_trans; [exact Hnhi |].
    eapply Qle_trans;
      [| apply Qmult_le_l; [apply pow2_pos | exact Hdlo]].
    rewrite <- pow2_add. apply pow2_le. lia. }
  unfold ilog2. cbn [Qnum Qden]. fold ln ld.
  destruct (Qle_bool (pow2 (ln - ld)) (n # d)) eqn:E.
  - apply Qle_bool_iff in E. by split.
  - split.
    + by apply Qlt_le_weak.
    + replace (ln - ld - 1 + 1)%Z with (ln - ld)%Z by lia.
      apply Qnot_le_lt. intros H. apply Qle_bool_iff in H. congruence.
Qed.

Lemma nearestEven_spec (q : Q) :
  (inject_Z (Qfloor q) <= inject_Z (nearestEven q) /\
   inject_Z (nearestEven q) - q <= 1 # 2 /\
   q - inject_Z (nearestEven q) <= 1 # 2)%Q.
Proof.
  pose proof (Qfloor_le q) as Hlo. pose proof (Qlt_floor q) as Hhi.
  rewrite inject_Z_plus in Hhi. change (inject_Z 1) with 1%Q in Hhi.
  unfold nearestEven. cbv zeta.
  assert (Hup : (inject_Z (Qfloor q + 1) == inject_Z (Qfloor q) + 1)%Q)
    by (by rewrite inject_Z_plus).
  destruct (Qcompare_spec (q - inject_Z (Qfloor q)) (1 # 2)) as [E | E | E].
  - destruct (Z.even (Qfloor q)); rewrite ?Hup; repeat split; lra.
  - repeat split; lra.
  - rewrite Hup. repeat split; lra.
Qed.

Lemma Qabs_positive (x : Q) : (0 < x)%Q -> Qabs x = x.
Proof.
  destruct x as [n d]. unfold Qlt. simpl. intros H.
  unfold Qabs. f_equal. apply Z.abs_eq. lia.
Qed.

(** The error of one rounding of a normal number: at most [u] of the
    number and of its rounding. *)
Lemma round_near (x : Q) :
  (pow2 (-1022) <= x)%Q ->
  (0 < round x /\ round x <= x * (1 + u) /\ x <= round x * (1 + u))%Q.
Proof.
  intros Hnormal.
  assert (Hx : (0 < x)%Q)
    by (eapply Qlt_le_trans; [apply (pow2_pos (-1022)) | exact Hnormal]).
  destruct (ilog2_spec x Hx) as [Hlo Hhi].
  set (e := ilog2 x) in *.
  assert (He : (-1022 <= e)%Z).
  { assert (H : (-1022 < e + 1)%Z); [| lia].
    apply pow2_lt_inv. by eapply Qle_lt_trans. }
  unfold round. rewrite (Qabs_positive x Hx). fold e.
  rewrite Z.max_l by exact He.
  assert (Hne : Qeq_bool x 0 = false).
  { destruct (Qeq_bool x 0) eqn:E; [| done].
    apply Qeq_bool_eq in E. rewrite E in Hx. by apply Qlt_irrefl in Hx. }
  rewrite Hne. cbv zeta. rewrite Qred_correct.
  set (ulp := pow2 (e - 52)).
  assert (Hulp : (0 < ulp)%Q) by apply pow2_pos.
  assert (Hq : (x / ulp * ulp == x)%Q).
  { field. intros H. rewrite H in Hulp. by apply Qlt_irrefl in Hulp. }
  destruct (nearestEven_spec (x / ulp)) as (Hfloor & Hup & Hdown).
  set (z := inject_Z (nearestEven (x / ulp))) in *.
  assert (Hscale : (pow2 e == pow2 52 * ulp)%Q).
  { subst ulp. rewrite <- pow2_add. apply Qpower_comp; [reflexivity | lia]. }
  assert (Hhalf : (ulp * (1 # 2) == u * pow2 e)%Q).
  { rewrite Hscale. unfold u. setoid_replace (pow2 (-53) * (pow2 52 * ulp))%Q
      with ((pow2 (-53) * pow2 52) * ulp)%Q using relation Qeq by ring.
    rewrite <- pow2_add. change (pow2 (-53 + 52)) with (1 # 2)%Q. ring. }
  assert (Hz : (pow2 52 <= z)%Q).
  { eapply Qle_trans; [| exact Hfloor].
    rewrite (pow2_inject 52) by lia. rewrite <- Zle_Qle.
    rewrite <- (Qfloor_Z (2 ^ 52)). apply Qfloor_resp_le.
    rewrite <- (pow2_inject 52) by lia.
    apply (Qmult_le_r _ _ ulp Hulp). by rewrite Hq, <- Hscale. }
  assert (Hround : (pow2 e <= z * ulp)%Q).
  { rewrite Hscale. by apply Qmult_le_r. }
  assert (Herr1 : (z * ulp - x <= u * pow2 e)%Q).
  { rewrite <- Hhalf, <- Hq at 1.
    setoid_replace (z * ulp - x / ulp * ulp)%Q with (ulp * (z - x / ulp))%Q using relation Qeq by ring.
    by apply Qmult_le_l. }
  assert (Herr2 : (x - z * ulp <= u * pow2 e)%Q).
  { rewrite <- Hhalf, <- Hq at 1.
    setoid_replace (x / ulp * ulp - z * ulp)%Q with (ulp * (x / ulp - z))%Q using relation Qeq by ring.
    by apply Qmult_le_l. }
  assert (Hu : (0 < u)%Q) by apply pow2_pos.
  assert (H1 : (u * pow2 e <= u * x)%Q) by (by apply Qmult_le_l).
  assert (H2 : (u * pow2 e <= u * (z * ulp))%Q) by (by apply Qmult_le_l).
  pose proof (pow2_pos e) as Hpe.
  repeat split; lra.
Qed.

(** *** Chains of roundings *)

Lemma u_pos : (0 < u)%Q.
Proof. apply pow2_pos. Qed.

Lemma up_ge_1 (n : nat) : (1 <= up n)%Q.
Proof.
  pose proof u_pos. induction n as [| n IH]; simpl; [lra |].
  setoid_replace 1%Q with (1 * 1)%Q using relation Qeq at 1 by ring.
  apply Qmult_le_compat_nonneg; split; lra.
Qed.

Lemma up_add (n m : nat) : (up (n + m) == up n * up m)%Q.
Proof. induction n as [| n IH]; simpl; [ring | rewrite IH; ring]. Qed.

Lemma up_le (n m : nat) : (n <= m)%nat -> (up n <= up m)%Q.
Proof.
  intros H. replace m with (n + (m - n))%nat by lia. rewrite up_add.
  pose proof (up_ge_1 n). pose proof (up_ge_1 (m - n)).
  setoid_replace (up n) with (up n * 1)%Q using relation Qeq at 1 by ring.
  apply Qmult_le_compat_nonneg; split; lra.
Qed.

Lemma rel_positive (n : nat) (e : Z) (a b : Q) : rel n e a b -> (0 < a /\ 0 < b)%Q.
Proof.
  intros (Hb & Hba & Hab). pose proof (pow2_pos e) as He.
  assert (H0 : (0 < b)%Q) by lra. split; [| exact H0].
  pose proof (up_ge_1 n) as Hup.
  destruct (Qlt_le_dec 0 a) as [Ha | Ha]; [exact Ha |].
  assert (a * up n <= 0)%Q; [| lra].
  setoid_replace 0%Q with (0 * up n)%Q using relation Qeq by ring.
  apply Qmult_le_compat_r; lra.
Qed.

Lemma rel_exact (e : Z) (x : Q) : (pow2 e <= x)%Q -> rel 0 e x x.
Proof. intros Hx. unfold rel. simpl. repeat split; lra. Qed.

Lemma rel_mul (n m : nat) (e1 e2 : Z) (a b c d : Q) :
  rel n e1 a b -> rel m e2 c d -> rel (n + m) (e1 + e2) (a * c) (b * d).
Proof.
  intros Hab Hcd.
  destruct (rel_positive _ _ _ _ Hab) as [Ha Hb].
  destruct (rel_positive _ _ _ _ Hcd) as [Hc Hd].
  destruct Hab as (Hlb & Hba & Hab). destruct Hcd as (Hld & Hdc & Hcd).
  pose proof (up_ge_1 n) as Hn. pose proof (up_ge_1 m) as Hm.
  pose proof (pow2_pos e1) as He1. pose proof (pow2_pos e2) as He2.
  unfold rel. rewrite up_add, pow2_add. repeat split.
  - apply Qmult_le_compat_nonneg; split; lra.
  - setoid_replace (a * c * (up n * up m))%Q with ((a * up n) * (c * up m))%Q
      using relation Qeq by ring.
    apply Qmult_le_compat_nonneg; split; lra.
  - setoid_replace (b * d * (up n * up m))%Q with ((b * up n) * (d * up m))%Q
      using relation Qeq by ring.
    apply Qmult_le_compat_nonneg; split; lra.
Qed.

Lemma up_20 : (up 20 <= 2)%Q.
Proof. apply Qle_bool_iff. by vm_compute. Qed.

Lemma rel_round (n : nat) (e : Z) (a b : Q) :
  (n <= 19)%nat -> (-1000 <= e)%Z ->
  rel n e a b -> rel (S n) e (round a) b.
Proof.
  intros Hn He H. destruct (rel_positive _ _ _ _ H) as [Ha Hb].
  destruct H as (Hlb & Hba & Hab).
  pose proof (up_ge_1 n) as Hup1.
  assert (Hup2 : (up n <= 2)%Q).
  { eapply Qle_trans; [apply (up_le n 20); lia | apply up_20]. }
  assert (Hnormal : (pow2 (-1022) <= a)%Q).
  { assert (Hstep : (pow2 (-1022) * 2 <= pow2 e)%Q).
    { eapply Qle_trans; [| apply (pow2_le (-1021) e); lia].
      apply Qle_bool_iff. by vm_compute. }
    pose proof (pow2_pos (-1022)) as Hp.
    assert (Ha2 : (a * up n <= a * 2)%Q) by (apply Qmult_le_l; assumption).
    lra. }
  destruct (round_near a Hnormal) as (Hr0 & Hr1 & Hr2).
  pose proof u_pos as Hu.
  unfold rel. cbn [up]. repeat split; try assumption.
  - eapply Qle_trans; [exact Hba |].
    setoid_replace (round a * ((1 + u) * up n))%Q
      with ((round a * (1 + u)) * up n)%Q using relation Qeq by ring.
    apply Qmult_le_compat_r; lra.
  - eapply Qle_trans; [exact Hr1 |].
    setoid_replace (b * ((1 + u) * up n))%Q with ((b * up n) * (1 + u))%Q
      using relation Qeq by ring.
    apply Qmult_le_compat_r; lra.
Qed.

(** Rounding does not see which fraction stands for a number. *)
Lemma ilog2_comp (x y : Q) : (0 < x)%Q -> (x == y)%Q -> ilog2 x = ilog2 y.
Proof.
  intros Hx E. assert (Hy : (0 < y)%Q) by (by rewrite <- E).
  destruct (ilog2_spec x Hx) as [Hxl Hxh].
  destruct (ilog2_spec y Hy) as [Hyl Hyh].
  assert (ilog2 x < ilog2 y + 1)%Z
    by (apply pow2_lt_inv; lra).
  assert (ilog2 y < ilog2 x + 1)%Z
    by (apply pow2_lt_inv; lra).
  lia.
Qed.

Lemma nearestEven_comp (p q : Q) : (p == q)%Q -> nearestEven p = nearestEven q.
Proof.
  intros E. unfold nearestEven. cbv zeta.
  rewrite (Qfloor_comp _ _ E).
  assert (Hc : ((p - inject_Z (Qfloor q) ?= 1 # 2)
                = (q - inject_Z (Qfloor q) ?= 1 # 2))%Q)
    by (by rewrite E).
  by rewrite Hc.
Qed.

Lemma round_comp (x y : Q) : (x == y)%Q -> round x = round y.
Proof.
  intros E. unfold round.
  assert (Hz : Qeq_bool x 0 = Qeq_bool y 0).
  { destruct (Qeq_bool y 0) eqn:Hy.
    - apply Qeq_bool_iff. apply Qeq_bool_iff in Hy. by rewrite E.
    - destruct (Qeq_bool x 0) eqn:Hx; [| done].
      apply Qeq_bool_iff in Hx. rewrite E in Hx.
      apply Qeq_bool_iff in Hx. congruence. }
  rewrite Hz. destruct (Qeq_bool y 0) eqn:Hy; [done |].
  assert (Hx : (0 < Qabs x)%Q).
  { destruct (Qlt_le_dec 0 (Qabs x)) as [H | H]; [exact H |].
    pose proof (Qabs_nonneg x) as H0.
    assert (Qabs x == 0)%Q as Habs by lra.
    assert (x == 0)%Q as Hx0.
    { revert Habs. apply Qabs_case; intros; lra. }
    rewrite E in Hx0. apply Qeq_bool_iff in Hx0. congruence. }
  rewrite (ilog2_comp (Qabs x) (Qabs y) Hx) by (by rewrite E).
  cbv zeta.
  rewrite (nearestEven_comp
             (x / pow2 (Z.max (ilog2 (Qabs y)) (-1022) - 52))
             (y / pow2 (Z.max (ilog2 (Qabs y)) (-1022) - 52)))
    by (by rewrite E).
  reflexivity.
Qed.

Lemma rel_le_agree (n : nat) (e : Z) (a b : Q) :
  rel n e a b -> (up n <= 1 + pow2 (-48))%Q -> agree a b.
Proof.
  intros Hab Htol. destruct (rel_positive _ _ _ _ Hab) as [Ha Hb].
  destruct Hab as (_ & Hba & Hab). unfold agree. split.
  - eapply Qle_trans; [exact Hab |]. by apply Qmult_le_l.
  - eapply Qle_trans; [exact Hba |]. by apply Qmult_le_l.
Qed.

(** Two chains that round values of which one is 1.4 times the other. *)
Lemma rel_agree (n m : nat) (e e' : Z) (a a' b b' : Q) :
  rel n e a b -> rel m e' a' b' -> (b == 1.4 * b')%Q ->
  (up (n + m) <= 1 + pow2 (-48))%Q ->
  agree a (1.4 * a').
Proof.
  intros Hab Hab' E Htol.
  destruct (rel_positive _ _ _ _ Hab) as [Ha Hb].
  destruct (rel_positive _ _ _ _ Hab') as [Ha' Hb'].
  destruct Hab as (_ & Hba & Hab). destruct Hab' as (_ & Hba' & Hab').
  pose proof (up_ge_1 n) as Hn. pose proof (up_ge_1 m) as Hm.
  rewrite up_add in Htol. unfold agree. split.
  - eapply Qle_trans; [exact Hab |]. rewrite E.
    eapply Qle_trans;
      [apply (Qmult_le_compat_r _ (1.4 * (a' * up m))); [| lra] |].
    + apply Qmult_le_l; [reflexivity | exact Hba'].
    + setoid_replace (1.4 * (a' * up m) * up n)%Q
        with ((1.4 * a') * (up n * up m))%Q using relation Qeq by ring.
      apply Qmult_le_l; [lra | exact Htol].
  - eapply Qle_trans;
      [apply (Qmult_le_l _ (b' * up m)); [reflexivity | exact Hab'] |].
    setoid_replace (1.4 * (b' * up m))%Q with ((1.4 * b') * up m)%Q
      using relation Qeq by ring.
    rewrite <- E.
    eapply Qle_trans; [apply (Qmult_le_compat_r _ (a * up n)); [exact Hba | lra] |].
    setoid_replace (a * up n * up m)%Q with (a * (up n * up m))%Q
      using relation Qeq by ring.
    apply Qmult_le_l; [exact Ha | exact Htol].
Qed.

(** The literals of the pass, each within one rounding of its decimal. *)
Ltac concrete :=
  unfold rel, lit; repeat split; apply Qle_bool_iff; vm_compute; reflexivity.

Lemma rel_literals :
  rel 1 (-4) (lit 1.4) 1.4 /\ rel 1 (-4) (lit 1.0) 1.0 /\
  rel 1 (-4) (lit 0.11) 0.11 /\ rel 1 (-4) (lit 0.38) 0.38 /\
  rel 1 (-4) (lit 0.10) 0.10 /\ rel 1 (-4) (lit 0.22) 0.22 /\
  rel 1 (-4) (lit 0.07) 0.07 /\ rel 1 (-4) (lit 0.45) 0.45 /\
  rel 1 (-4) (lit 0.4) 0.4 /\ rel 1 (-4) (lit 0.8) 0.8 /\
  rel 1 (-4) (/ lit 3.2) (/ 3.2) /\ rel 1 (-4) (/ lit 2) (/ 2) /\
  rel 1 (-4) (/ lit 4) (/ 4).
Proof. repeat apply conj; concrete. Qed.

Section Chains.

Variable cfg : Config.
Variable w : Window.
Variable mult : Q.

Hypothesis side_normal : (1 <= shortSide w)%Q.
Hypothesis scale_normal : (pow2 (-16) <= scale cfg)%Q.
Hypothesis multiplier : rel 1 (-4) (Double.sizeMultiplier w) mult.

(** Every size of the pass that is a multiple of the effective scale,
    against the same product in exact arithmetic. *)
Lemma sizes_rel :
  let s := shortSide w in
  let e := (scale cfg * mult)%Q in
  rel 5 (-24) (Double.actionButtonSize cfg w) (s * 0.11 * e) /\
  rel 5 (-24) (Double.movementClusterSize cfg w) (s * 0.38 * e) /\
  rel 5 (-24) (Double.escButtonSize cfg w) (s * 0.10 * e) /\
  rel 7 (-28) (Double.dpadButtonSize cfg w) (s * 0.38 * e * / 3.2) /\
  rel 7 (-28) (Double.joystickBaseSize cfg w) (s * 0.38 * e * 0.8) /\
  rel 9 (-32) (Double.joystickThumbSize cfg w) (s * 0.38 * e * 0.8 * / 2) /\
  rel 5 (-24) (Double.toggleButtonW cfg w) (s * 0.22 * e) /\
  rel 5 (-24) (Double.toggleButtonH cfg w) (s * 0.07 * e) /\
  rel 7 (-28) (Double.actionFontSize cfg w) (s * 0.11 * e * 0.45) /\
  rel 7 (-28) (Double.escFontSize cfg w) (s * 0.10 * e * 0.4) /\
  rel 7 (-28) (Double.toggleFontSize cfg w) (s * 0.07 * e * 0.45) /\
  rel 7 (-28) (Double.toggleRadius cfg w) (s * 0.07 * e * / 4).
Proof.
  intros s e.
  destruct rel_literals
    as (_ & _ & L11 & L38 & L10 & L22 & L07 & L45 & L4 & L8 & L32 & L2 & L04).
  assert (Rs : rel 0 0 s s) by (by apply rel_exact).
  assert (Rsc : rel 0 (-16) (scale cfg) (scale cfg)) by (by apply rel_exact).
  assert (Re : rel 2 (-20) (Double.effectiveScale cfg w) e).
  { apply (rel_round 1); [lia | lia |].
    apply (rel_mul 0 1 (-16) (-4)); assumption. }
  assert (Base : forall k, rel 1 (-4) (lit k) k ->
            rel 5 (-24) (mul (mul s (lit k)) (Double.effectiveScale cfg w))
              (s * k * e)).
  { intros k Lk. apply (rel_round 4); [lia | lia |].
    apply (rel_mul 2 2 (-4) (-20)); [| exact Re].
    apply (rel_round 1); [lia | lia |].
    apply (rel_mul 0 1 0 (-4)); assumption. }
  assert (Next : forall n z x y k c, (n <= 17)%nat -> (-996 <= z)%Z ->
            rel n z x y -> rel 1 (-4) k c ->
            rel (S (S n)) (z - 4) (round (x * k)) (y * c)).
  { intros n z x y k c Hn Hz Hxy Hk.
    apply (rel_round (S n)); [lia | lia |].
    replace (S n) with (n + 1)%nat by lia.
    replace (z - 4)%Z with (z + -4)%Z by lia.
    by apply rel_mul. }
  pose proof (Base 0.11%Q L11) as Ra. pose proof (Base 0.38%Q L38) as Rm.
  pose proof (Base 0.10%Q L10) as Resc. pose proof (Base 0.22%Q L22) as Rtw.
  pose proof (Base 0.07%Q L07) as Rth.
  pose proof (Next 5%nat (-24)%Z _ _ _ _ ltac:(lia) ltac:(lia) Rm L8) as Rjb.
  refine (conj Ra (conj Rm (conj Resc (conj _ (conj Rjb (conj _
    (conj Rtw (conj Rth (conj _ (conj _ (conj _ _))))))))))).
  - exact (Next 5%nat (-24)%Z _ _ _ _ ltac:(lia) ltac:(lia) Rm L32).
  - exact (Next 7%nat (-28)%Z _ _ _ _ ltac:(lia) ltac:(lia) Rjb L2).
  - exact (Next 5%nat (-24)%Z _ _ _ _ ltac:(lia) ltac:(lia) Ra L45).
  - exact (Next 5%nat (-24)%Z _ _ _ _ ltac:(lia) ltac:(lia) Resc L4).
  - exact (Next 5%nat (-24)%Z _ _ _ _ ltac:(lia) ltac:(lia) Rth L45).
  - exact (Next 5%nat (-24)%Z _ _ _ _ ltac:(lia) ltac:(lia) Rth L04).
Qed.

End Chains.

End DoubleFacts.

(** The multiplier of either orientation, against its decimal. *)
Lemma sizeMultiplier_rel (w : Window) :
  Double.rel 1 (-4) (Double.sizeMultiplier w) (sizeMultiplier w).
Proof.
  destruct rel_literals as (L14 & L10 & _).
  unfold Double.sizeMultiplier, sizeMultiplier.
  by destruct (isLandscape w).
Qed.

(** In exact arithmetic the factor is 1.4 itself; the dimensions that add
    a gap or the padding to a scaled size are left out. *)
Lemma orientation_exact (cfg : Config) (wl wp : Window) :
  isLandscape wl = true -> isLandscape wp = false ->
  (shortSide wl == shortSide wp)%Q ->
  (actionButtonSize cfg wl == 1.4 * actionButtonSize cfg wp /\
   movementClusterSize cfg wl == 1.4 * movementClusterSize cfg wp /\
   escButtonSize cfg wl == 1.4 * escButtonSize cfg wp /\
   dpadButtonSize cfg wl == 1.4 * dpadButtonSize cfg wp /\
   joystickBaseSize cfg wl == 1.4 * joystickBaseSize cfg wp /\
   toggleButtonW cfg wl == 1.4 * toggleButtonW cfg wp /\
   toggleButtonH cfg wl == 1.4 * toggleButtonH cfg wp /\
   padding cfg wl == padding cfg wp /\
   gap cfg wl == gap cfg wp)%Q.
Proof.
  intros Hl Hp Hs.
  unfold dpadButtonSize, joystickBaseSize, actionButtonSize, movementClusterSize,
    escButtonSize, toggleButtonW, toggleButtonH, padding, gap, effectiveScale.
  rewrite (sizeMultiplier_landscape wl Hl), (sizeMultiplier_portrait wp Hp).
  set (sl := shortSide wl) in *. set (sp := shortSide wp) in *.
  repeat split; rewrite Hs; field.
Qed.

Lemma double_padding_gap (cfg : Config) (wl wp : Window) :
  (shortSide wl == shortSide wp)%Q ->
  Double.padding cfg wl = Double.padding cfg wp /\
  Double.gap cfg wl = Double.gap cfg wp.
Proof.
  intros Hs.
  assert (Hr : forall k, Double.round (shortSide wl * k)
                         = Double.round (shortSide wp * k))
    by (intros k; apply round_comp; by rewrite Hs).
  unfold Double.padding, Double.gap, Double.div, Double.mul.
  by rewrite !Hr.
Qed.

Lemma tolerance_18 : (Double.up (9 + 9) <= 1 + Double.pow2 (-48))%Q.
Proof. apply Qle_bool_iff. by vm_compute. Qed.

(** C8, as the code computes it. For the same short side, every size the
    pass takes as a multiple of the effective scale is, in landscape, 1.4
    times its portrait value up to the rounding of the double arithmetic:
    the two differ by at most [2 ^ -48] of either.  The padding and the gap
    are the same doubles in both orientations.  The ranges keep every
    intermediate result a normal double. *)
Theorem orientation_law (cfg : Config) (wl wp : Window) :
  isLandscape wl = true -> isLandscape wp = false ->
  (shortSide wl == shortSide wp)%Q ->
  (1 <= shortSide wp /\ shortSide wp <= Double.pow2 32)%Q ->
  (Double.pow2 (-16) <= scale cfg /\ scale cfg <= Double.pow2 16)%Q ->
  Double.agree (Double.actionButtonSize cfg wl)
    (1.4 * Double.actionButtonSize cfg wp) /\
  Double.agree (Double.movementClusterSize cfg wl)
    (1.4 * Double.movementClusterSize cfg wp) /\
  Double.agree (Double.escButtonSize cfg wl)
    (1.4 * Double.escButtonSize cfg wp) /\
  Double.agree (Double.dpadButtonSize cfg wl)
    (1.4 * Double.dpadButtonSize cfg wp) /\
  Double.agree (Double.joystickBaseSize cfg wl)
    (1.4 * Double.joystickBaseSize cfg wp) /\
  Double.agree (Double.joystickThumbSize cfg wl)
    (1.4 * Double.joystickThumbSize cfg wp) /\
  Double.agree (Double.toggleButtonW cfg wl)
    (1.4 * Double.toggleButtonW cfg wp) /\
  Double.agree (Double.toggleButtonH cfg wl)
    (1.4 * Double.toggleButtonH cfg wp) /\
  Double.agree (Double.actionFontSize cfg wl)
    (1.4 * Double.actionFontSize cfg wp) /\
  Double.agree (Double.escFontSize cfg wl)
    (1.4 * Double.escFontSize cfg wp) /\
  Double.agree (Double.toggleFontSize cfg wl)
    (1.4 * Double.toggleFontSize cfg wp) /\
  Double.agree (Double.toggleRadius cfg wl)
    (1.4 * Double.toggleRadius cfg wp) /\
  Double.padding cfg wl = Double.padding cfg wp /\
  Double.gap cfg wl = Double.gap cfg wp.
Proof.
  intros Hl Hp Hs [Hside _] [Hscale _].
  assert (Hsidel : (1 <= shortSide wl)%Q) by (by rewrite Hs).
  pose proof (sizeMultiplier_rel wl) as Ml.
  pose proof (sizeMultiplier_rel wp) as Mp.
  rewrite (sizeMultiplier_landscape wl Hl) in Ml.
  rewrite (sizeMultiplier_portrait wp Hp) in Mp.
  pose proof (sizes_rel cfg wl 1.4 Hsidel Hscale Ml) as Sl.
  pose proof (sizes_rel cfg wp 1.0 Hside Hscale Mp) as Sp.
  cbv zeta in Sl, Sp.
  destruct Sl as (A & M & E & D & J & T & W & H & AF & EF & TF & R).
  destruct Sp as (A' & M' & E' & D' & J' & T' & W' & H' & AF' & EF' & TF' & R').
  pose proof tolerance_18 as Htol.
  assert (Pair : forall n m e e' a a' b b',
            Double.rel n e a b -> Double.rel m e' a' b' ->
            (n <= 9)%nat -> (m <= 9)%nat -> (b == 1.4 * b')%Q ->
            Double.agree a (1.4 * a')).
  { intros n m e e' a a' b b' Hab Hab' Hn Hm Eb.
    apply (rel_agree n m e e' a a' b b' Hab Hab' Eb).
    eapply Qle_trans; [| exact Htol]. apply up_le. lia. }
  destruct (double_padding_gap cfg wl wp Hs) as [Pad Gap].
  split; [apply (Pair _ _ _ _ _ _ _ _ A A'); [lia | lia | rewrite Hs; field] |].
  split; [apply (Pair _ _ _ _ _ _ _ _ M M'); [lia | lia | rewrite Hs; field] |].
  split; [apply (Pair _ _ _ _ _ _ _ _ E E'); [lia | lia | rewrite Hs; field] |].
  split; [apply (Pair _ _ _ _ _ _ _ _ D D'); [lia | lia | rewrite Hs; field] |].
  split; [apply (Pair _ _ _ _ _ _ _ _ J J'); [lia | lia | rewrite Hs; field] |].
  split; [apply (Pair _ _ _ _ _ _ _ _ T T'); [lia | lia | rewrite Hs; field] |].
  split; [apply (Pair _ _ _ _ _ _ _ _ W W'); [lia | lia | rewrite Hs; field] |].
  split; [apply (Pair _ _ _ _ _ _ _ _ H H'); [lia | lia | rewrite Hs; field] |].
  split; [apply (Pair _ _ _ _ _ _ _ _ AF AF'); [lia | lia | rewrite Hs; field] |].
  split; [apply (Pair _ _ _ _ _ _ _ _ EF EF'); [lia | lia | rewrite Hs; field] |].
  split; [apply (Pair _ _ _ _ _ _ _ _ TF TF'); [lia | lia | rewrite Hs; field] |].
  split; [apply (Pair _ _ _ _ _ _ _ _ R R'); [lia | lia | rewrite Hs; field] |].
  split; [exact Pad | exact Gap].
Qed.

Lemma orientation_law_witness :
  Double.agree (Double.actionButtonSize CONFIG landscape)
    (1.4 * Double.actionButtonSize CONFIG portrait) /\
  Double.agree (Double.movementClusterSize CONFIG landscape)
    (1.4 * Double.movementClusterSize CONFIG portrait) /\
  Double.agree (Double.escButtonSize CONFIG landscape)
    (1.4 * Double.escButtonSize CONFIG portrait) /\
  Double.agree (Double.dpadButtonSize CONFIG landscape)
    (1.4 * Double.dpadButtonSize CONFIG portrait) /\
  Double.agree (Double.joystickBaseSize CONFIG landscape)
    (1.4 * Double.joystickBaseSize CONFIG portrait) /\
  Double.agree (Double.joystickThumbSize CONFIG landscape)
    (1.4 * Double.joystickThumbSize CONFIG portrait) /\
  Double.agree (Double.toggleButtonW CONFIG landscape)
    (1.4 * Double.toggleButtonW CONFIG portrait) /\
  Double.agree (Double.toggleButtonH CONFIG landscape)
    (1.4 * Double.toggleButtonH CONFIG portrait) /\
  Double.agree (Double.actionFontSize CONFIG landscape)
    (1.4 * Double.actionFontSize CONFIG portrait) /\
  Double.agree (Double.escFontSize CONFIG landscape)
    (1.4 * Double.escFontSize CONFIG portrait) /\
  Double.agree (Double.toggleFontSize CONFIG landscape)
    (1.4 * Double.toggleFontSize CONFIG portrait) /\
  Double.agree (Double.toggleRadius CONFIG landscape)
    (1.4 * Double.toggleRadius CONFIG portrait) /\
  Double.padding CONFIG landscape = Double.padding CONFIG portrait /\
  Double.gap CONFIG landscape = Double.gap CONFIG portrait.
Proof.
  apply (orientation_law CONFIG landscape portrait);
    [reflexivity | reflexivity | reflexivity | |];
    split; apply Qle_bool_iff; vm_compute; reflexivity.
Defined.

(** The two scenarios of the overlay on a 390 x 844 phone. *)
Lemma action_button_sizes :
  (actionButtonSize CONFIG portrait == 42.9 /\
   actionButtonSize CONFIG landscape == 60.06)%Q.
Proof. by vm_compute. Qed.

(** C8 as stated fails twice on a phone of short side 390.  The
    directional buttons are 46.31249999999999 wide in portrait and
    64.83749999999998 in landscape, which is neither 1.4 times the
    portrait double nor that product rounded (64.83749999999999).  And the
    width of the action cluster, which depends on the scale, is
    203.57999999999998 in landscape against 152.1 in portrait: far from 1.4
    times, whatever the rounding. *)
Lemma landscape_not_exactly_scaled :
  isLandscape landscape = true /\ isLandscape portrait = false /\
  (shortSide landscape == shortSide portrait)%Q /\
  Double.dpadButtonSize CONFIG portrait = Double.lit 46.31249999999999 /\
  Double.dpadButtonSize CONFIG landscape = Double.lit 64.83749999999998 /\
  Double.mul (Double.lit 1.4) (Double.dpadButtonSize CONFIG portrait)
    = Double.lit 64.83749999999999 /\
  ~ (Double.dpadButtonSize CONFIG landscape
     == 1.4 * Double.dpadButtonSize CONFIG portrait)%Q /\
  ~ (Double.dpadButtonSize CONFIG landscape
     == Double.lit 1.4 * Double.dpadButtonSize CONFIG portrait)%Q /\
  ~ (Double.dpadButtonSize CONFIG landscape
     == Double.mul (Double.lit 1.4) (Double.dpadButtonSize CONFIG portrait))%Q /\
  Double.clusterWidth CONFIG portrait = Double.lit 152.1 /\
  Double.clusterWidth CONFIG landscape = Double.lit 203.57999999999998 /\
  ~ Double.agree (Double.clusterWidth CONFIG landscape)
      (1.4 * Double.clusterWidth CONFIG portrait).
Proof.
  repeat match goal with
         | |- _ /\ _ => split
         end;
    try (vm_compute; reflexivity); try (by vm_compute).
  intros [_ H]. revert H. apply Qlt_not_le. by vm_compute.
Qed.

Lemma tolerance_9 : (Double.up 9 <= 1 + Double.pow2 (-48))%Q.
Proof. apply Qle_bool_iff. by vm_compute. Qed.

(** X28. The sizes in binary64 against the sizes in exact arithmetic,
    which the layout of the control tree is stated with: on a viewport of
    short side between 1 and [2 ^ 32], with a scale between [2 ^ -16] and
    [2 ^ 16], each differs from the other by at most [2 ^ -48] of
    either. *)
Theorem double_sizes_near_exact (cfg : Config) (w : Window) :
  (1 <= shortSide w /\ shortSide w <= Double.pow2 32)%Q ->
  (Double.pow2 (-16) <= scale cfg /\ scale cfg <= Double.pow2 16)%Q ->
  Double.agree (Double.actionButtonSize cfg w) (actionButtonSize cfg w) /\
  Double.agree (Double.movementClusterSize cfg w) (movementClusterSize cfg w) /\
  Double.agree (Double.escButtonSize cfg w) (escButtonSize cfg w) /\
  Double.agree (Double.dpadButtonSize cfg w) (dpadButtonSize cfg w) /\
  Double.agree (Double.joystickBaseSize cfg w) (joystickBaseSize cfg w) /\
  Double.agree (Double.joystickThumbSize cfg w) (joystickBaseSize cfg w / 2) /\
  Double.agree (Double.toggleButtonW cfg w) (toggleButtonW cfg w) /\
  Double.agree (Double.toggleButtonH cfg w) (toggleButtonH cfg w) /\
  Double.agree (Double.actionFontSize cfg w) (actionButtonSize cfg w * 0.45) /\
  Double.agree (Double.escFontSize cfg w) (escButtonSize cfg w * 0.4) /\
  Double.agree (Double.toggleFontSize cfg w) (toggleButtonH cfg w * 0.45) /\
  Double.agree (Double.toggleRadius cfg w) (toggleButtonH cfg w / 4).
Proof.
  intros [Hside _] [Hscale _].
  pose proof (sizes_rel cfg w (sizeMultiplier w) Hside Hscale
                (sizeMultiplier_rel w)) as S.
  cbv zeta in S.
  destruct S as (A & M & E & D & J & T & W & H & AF & EF & TF & R).
  pose proof tolerance_9 as Htol.
  assert (Near : forall n e a b,
            Double.rel n e a b -> (n <= 9)%nat -> Double.agree a b).
  { intros n e a b Hab Hn. apply (rel_le_agree n e a b Hab).
    eapply Qle_trans; [| exact Htol]. by apply up_le. }
  split; [apply (Near _ _ _ _ A); lia |].
  split; [apply (Near _ _ _ _ M); lia |].
  split; [apply (Near _ _ _ _ E); lia |].
  split; [apply (Near _ _ _ _ D); lia |].
  split; [apply (Near _ _ _ _ J); lia |].
  split; [apply (Near _ _ _ _ T); lia |].
  split; [apply (Near _ _ _ _ W); lia |].
  split; [apply (Near _ _ _ _ H); lia |].
  split; [apply (Near _ _ _ _ AF); lia |].
  split; [apply (Near _ _ _ _ EF); lia |].
  split; [apply (Near _ _ _ _ TF); lia |].
  apply (Near _ _ _ _ R); lia.
Qed.

Lemma double_sizes_near_exact_witness :
  Double.agree (Double.actionButtonSize CONFIG landscape)
    (actionButtonSize CONFIG landscape) /\
  Double.agree (Double.movementClusterSize CONFIG landscape)
    (movementClusterSize CONFIG landscape) /\
  Double.agree (Double.escButtonSize CONFIG landscape)
    (escButtonSize CONFIG landscape) /\
  Double.agree (Double.dpadButtonSize CONFIG landscape)
    (dpadButtonSize CONFIG landscape) /\
  Double.agree (Double.joystickBaseSize CONFIG landscape)
    (joystickBaseSize CONFIG landscape) /\
  Double.agree (Double.joystickThumbSize CONFIG landscape)
    (joystickBaseSize CONFIG landscape / 2) /\
  Double.agree (Double.toggleButtonW CONFIG landscape)
    (toggleButtonW CONFIG landscape) /\
  Double.agree (Double.toggleButtonH CONFIG landscape)
    (toggleButtonH CONFIG landscape) /\
  Double.agree (Double.actionFontSize CONFIG landscape)
    (actionButtonSize CONFIG landscape * 0.45) /\
  Double.agree (Double.escFontSize CONFIG landscape)
    (escButtonSize CONFIG landscape * 0.4) /\
  Double.agree (Double.toggleFontSize CONFIG landscape)
    (toggleButtonH CONFIG landscape * 0.45) /\
  Double.agree (Double.toggleRadius CONFIG landscape)
    (toggleButtonH CONFIG landscape / 4).
Proof.
  apply (double_sizes_near_exact CONFIG landscape);
    split; apply Qle_bool_iff; vm_compute; reflexivity.
Defined.

(** ** Boxes within the viewport *)

Lemma controlTree_ids (id : string) :
  present controlTree id -> id ∈ (layoutBoxes CONFIG portrait).*1.
Proof.
  intros [el Hel]. apply elem_of_list_to_map_2 in Hel.
  by apply (list_elem_of_fmap_2 fst) in Hel.
Qed.

(** The rendering of the laid-out tree, element by element. *)
Lemma layoutBoxes_rendered (cfg : Config) (w : Window) :
  Forall (fun entry =>
            Rendering.boundingBox w (applyLayout cfg w controlTree) entry.1
            = Some entry.2)
    (layoutBoxes cfg w).
Proof.
  unfold layoutBoxes, applyLayout, layoutSteps, actionBtnStyle.
  generalize (actionButtonSize cfg w) (padding cfg w) (gap cfg w)
    (clusterWidth cfg w) (clusterHeight cfg w) (escButtonSize cfg w)
    (movementClusterSize cfg w) (dpadButtonSize cfg w) (joystickBaseSize cfg w)
    (toggleButtonW cfg w) (toggleButtonH cfg w) (toggleBottom cfg w)
    (toggleLeft cfg w).
  intros a p g cw ch e m db jb tw th tb tl. cbv zeta.
  repeat constructor; vm_compute; reflexivity.
Qed.

Lemma scale_down (s k : Q) : (0 <= s -> k <= 1 -> s * k <= s)%Q.
Proof. intros. nra. Qed.

(** The arithmetic of the pass, in terms of the short side [s] and of
    [u = s * effective scale]. *)
Lemma layout_facts (cfg : Config) (w : Window) :
  (0 < innerWidth w)%Q -> (0 < innerHeight w)%Q -> fits cfg ->
  let s := shortSide w in
  let u := (s * effectiveScale cfg w)%Q in
  (0 < s /\ s <= innerWidth w /\ s <= innerHeight w /\
   0 <= padding cfg w /\ 0 <= gap cfg w /\ 0 <= u /\
   actionButtonSize cfg w == 0.11 * u /\
   movementClusterSize cfg w == 0.38 * u /\
   escButtonSize cfg w == 0.10 * u /\
   toggleButtonW cfg w == 0.22 * u /\
   toggleButtonH cfg w == 0.07 * u /\
   dpadButtonSize cfg w == movementClusterSize cfg w / 3.2 /\
   joystickBaseSize cfg w == movementClusterSize cfg w * 0.8 /\
   clusterWidth cfg w == actionButtonSize cfg w * 3 + gap cfg w * 2 /\
   clusterHeight cfg w == actionButtonSize cfg w * 2 + gap cfg w /\
   toggleBottom cfg w == padding cfg w + movementClusterSize cfg w + gap cfg w /\
   toggleLeft cfg w
     == padding cfg w + movementClusterSize cfg w / 2 - toggleButtonW cfg w / 2 /\
   padding cfg w + 0.33 * u + 2 * gap cfg w <= s /\
   padding cfg w + 0.45 * u + gap cfg w <= s)%Q.
Proof.
  intros HW HH (Hp & Hg & Hsc & Hacross & Hdown) s u.
  assert (Hs : (0 < s)%Q) by (apply Q.min_glb_lt; assumption).
  assert (HsW : (s <= innerWidth w)%Q) by apply Q.le_min_l.
  assert (HsH : (s <= innerHeight w)%Q) by apply Q.le_min_r.
  assert (He : (0 <= effectiveScale cfg w /\ effectiveScale cfg w <= 1.4 * scale cfg)%Q).
  { unfold effectiveScale, sizeMultiplier. destruct (isLandscape w); split; lra. }
  destruct He as [He0 He1].
  assert (Hu : (0 <= u)%Q) by (apply Qmult_le_0_compat; lra).
  assert (Hpad : (padding cfg w == s * (paddingPercent cfg * 0.01))%Q)
    by (unfold padding; fold s; field).
  assert (Hgap : (gap cfg w == s * (gapPercent cfg * 0.01))%Q)
    by (unfold gap; fold s; field).
  assert (Hpad0 : (0 <= padding cfg w)%Q)
    by (rewrite Hpad; apply Qmult_le_0_compat; lra).
  assert (Hgap0 : (0 <= gap cfg w)%Q)
    by (rewrite Hgap; apply Qmult_le_0_compat; lra).
  repeat split; try assumption;
    try (unfold actionButtonSize, movementClusterSize, escButtonSize,
           toggleButtonW, toggleButtonH; fold s; subst u; ring);
    try reflexivity.
  - rewrite Hpad, Hgap. subst u.
    setoid_replace (s * (paddingPercent cfg * 0.01) + 0.33 * (s * effectiveScale cfg w)
                    + 2 * (s * (gapPercent cfg * 0.01)))%Q
      with (s * (paddingPercent cfg * 0.01 + 0.33 * effectiveScale cfg w
                 + 2 * (gapPercent cfg * 0.01)))%Q using relation Qeq by ring.
    apply scale_down; lra.
  - rewrite Hpad, Hgap. subst u.
    setoid_replace (s * (paddingPercent cfg * 0.01) + 0.45 * (s * effectiveScale cfg w)
                    + s * (gapPercent cfg * 0.01))%Q
      with (s * (paddingPercent cfg * 0.01 + 0.45 * effectiveScale cfg w
                 + gapPercent cfg * 0.01))%Q using relation Qeq by ring.
    apply scale_down; lra.
Qed.

Lemma layoutBoxes_inViewport (cfg : Config) (w : Window) :
  (0 < innerWidth w)%Q -> (0 < innerHeight w)%Q -> fits cfg ->
  Forall (fun entry => Rendering.inViewport w entry.2) (layoutBoxes cfg w).
Proof.
  intros HW HH Hfit.
  destruct (layout_facts cfg w HW HH Hfit)
    as (Hs & HsW & HsH & Hp & Hg & Hu & Ha & Hm & He & Htw & Hth & Hdb & Hjb
        & Hcw & Hch & Htb & Htl & Hacross & Hdown).
  set (u := (shortSide w * effectiveScale cfg w)%Q) in *. clearbody u.
  unfold layoutBoxes. cbv zeta.
  inv_consts.
  repeat (apply List.Forall_cons;
          [unfold Rendering.inViewport, box; simpl; repeat split; lra |]).
  apply List.Forall_nil.
Qed.

Lemma boxWithin_present (fuel : nat) (w : Window) (d : Document) (id : string)
    (b : DOMRect) :
  Rendering.boxWithin fuel w d id = Some b -> present d id.
Proof.
  destruct fuel as [| fuel]; simpl; [done |].
  destruct (d !! id) as [el |] eqn:Hel; [by eexists | done].
Qed.

Lemma applyLayout_present (cfg : Config) (w : Window) (d : Document) (id : string) :
  present (applyLayout cfg w d) id <-> present d id.
Proof. unfold present. rewrite applyLayout_lookup. apply fmap_is_Some. Qed.

(** Every element of the tree has its entry among the boxes. *)
Lemma layoutBoxes_entry (cfg : Config) (w : Window) (id : string) :
  present controlTree id ->
  exists b, (id, b) ∈ layoutBoxes cfg w /\
            Rendering.boundingBox w (applyLayout cfg w controlTree) id = Some b.
Proof.
  intros Hid. apply controlTree_ids in Hid.
  change ((layoutBoxes CONFIG portrait).*1) with ((layoutBoxes cfg w).*1) in Hid.
  apply list_elem_of_fmap in Hid as ([id' b] & -> & Hin).
  exists b. split; [exact Hin |].
  pose proof (layoutBoxes_rendered cfg w) as Hall.
  rewrite Forall_forall in Hall. exact (Hall _ Hin).
Qed.

Lemma rendered_inViewport (cfg : Config) (w : Window) (id : string) (b : DOMRect) :
  (0 < innerWidth w)%Q -> (0 < innerHeight w)%Q -> fits cfg ->
  Rendering.boundingBox w (applyLayout cfg w controlTree) id = Some b ->
  Rendering.inViewport w b.
Proof.
  intros HW HH Hfit Hb.
  assert (Hid : present controlTree id).
  { apply (applyLayout_present cfg w). by eapply boxWithin_present. }
  destruct (layoutBoxes_entry cfg w id Hid) as (b' & Hin & Hb').
  rewrite Hb in Hb'. injection Hb' as ->.
  pose proof (layoutBoxes_inViewport cfg w HW HH Hfit) as Hall.
  rewrite Forall_forall in Hall. exact (Hall _ Hin).
Qed.


Lemma CONFIG_fits : fits CONFIG.
Proof. unfold fits. repeat split; by vm_compute. Qed.



(** ** The boxes of a running overlay *)

Lemma sameGeometry_refl (d : Document) : sameGeometry d d.
Proof. done. Qed.

Lemma sameGeometry_sym (d d' : Document) : sameGeometry d d' -> sameGeometry d' d.
Proof. intros H id. by rewrite H. Qed.

Lemma sameGeometry_trans (d1 d2 d3 : Document) :
  sameGeometry d1 d2 -> sameGeometry d2 d3 -> sameGeometry d1 d3.
Proof. intros H12 H23 id. by rewrite H12. Qed.

Lemma sameGeometry_shape (d d' : Document) : sameGeometry d d' -> sameShape d d'.
Proof.
  intros H id. specialize (H id).
  destruct (d !! id), (d' !! id); simpl in *; try done. by injection H as -> _ _.
Qed.

(** An element update that keeps what the rendering reads. *)
Lemma sameGeometry_alter (f : Element -> Element) (i : string) (d : Document) :
  (forall el, geometryOf (f el) = geometryOf el) -> sameGeometry d (alter f i d).
Proof.
  intros Hf id. rewrite lookup_alter. case_decide; [subst | done].
  destruct (d !! id); simpl; [| done]. by rewrite Hf.
Qed.

Lemma sameGeometry_fmap (f : Element -> Element) (d : Document) :
  (forall el, geometryOf (f el) = geometryOf el) -> sameGeometry d (f <$> d).
Proof.
  intros Hf id. rewrite lookup_fmap. destruct (d !! id); simpl; [| done].
  by rewrite Hf.
Qed.

Lemma geometryOf_classes (f : gset string -> gset string) (el : Element) :
  ("dpad-button" ∈ f (classList el) <-> "dpad-button" ∈ classList el) ->
  geometryOf (setClassList f el) = geometryOf el.
Proof.
  intros H. unfold geometryOf, hasClass. simpl. do 2 f_equal.
  by apply bool_decide_ext.
Qed.

Lemma geometryOf_classToggle (force : bool) (el : Element) :
  geometryOf (classToggle "hidden" force el) = geometryOf el.
Proof.
  apply geometryOf_classes.
  destruct force; [by apply elem_of_added | by apply elem_of_removed].
Qed.

Lemma geometryOf_transform (v : StyleValue) (el : Element) :
  geometryOf (setStyle (insert "transform" v) el) = geometryOf el.
Proof.
  unfold geometryOf. simpl. f_equal.
  by rewrite !lookup_insert_ne by done.
Qed.

Lemma sameGeometry_applyVisibility (joystick : bool) (d : Document) :
  sameGeometry d (applyVisibility joystick d).
Proof.
  unfold applyVisibility.
  eapply sameGeometry_trans;
    [apply (sameGeometry_alter (classToggle "hidden" joystick)),
       geometryOf_classToggle |].
  eapply sameGeometry_trans;
    [apply (sameGeometry_alter (classToggle "hidden" (negb joystick))),
       geometryOf_classToggle |].
  by apply sameGeometry_alter.
Qed.

Lemma sameGeometry_deactivateAll (d : Document) : sameGeometry d (deactivateAll d).
Proof.
  apply sameGeometry_fmap. intros el.
  destruct (hasClass "virtual-button" el && hasClass "active" el); [| done].
  apply geometryOf_classes. by apply elem_of_removed.
Qed.

(** The pass keeps two documents alike that were alike. *)
Lemma sameGeometry_applyLayout (cfg : Config) (w : Window) (d d' : Document) :
  sameGeometry d d' -> sameGeometry (applyLayout cfg w d) (applyLayout cfg w d').
Proof.
  intros H id. rewrite !applyLayout_lookup. specialize (H id).
  destruct (d !! id) as [el |], (d' !! id) as [el' |]; simpl in *; try done.
  f_equal. injection H as Hp Hc H1 H2 H3 H4 H5 H6. rewrite Hc.
  unfold geometryOf, hasClass in *. simpl in *. rewrite Hp, Hc. f_equal.
  by rewrite !lookup_union, H1, H2, H3, H4, H5, H6.
Qed.

Lemma sameGeometry_pxOf (el el' : Element) (k : string) :
  geometryOf el = geometryOf el' -> k ∈ geometryKeys ->
  Rendering.pxOf el k = Rendering.pxOf el' k.
Proof.
  intros H Hk. injection H as _ _ H1 H2 H3 H4 H5 H6.
  unfold Rendering.pxOf, geometryKeys in *.
  repeat (apply elem_of_cons in Hk as [-> | Hk]; [by rewrite ?H1, ?H2, ?H3, ?H4, ?H5, ?H6 |]).
  by apply elem_of_nil in Hk.
Qed.

Lemma sameGeometry_place (p : Rendering.Placement) (parent : DOMRect)
    (el el' : Element) (wd ht : Q) :
  geometryOf el = geometryOf el' ->
  Rendering.place p parent el wd ht = Rendering.place p parent el' wd ht.
Proof.
  intros H. destruct p; simpl; try done.
  rewrite !(sameGeometry_pxOf el el' _ H); [done | | | |];
    unfold geometryKeys; set_solver.
Qed.

(** Documents alike in what the rendering reads have the same boxes. *)
Lemma sameGeometry_boundingBox (w : Window) (d d' : Document) (id : string) :
  sameGeometry d d' ->
  Rendering.boundingBox w d id = Rendering.boundingBox w d' id.
Proof.
  intros H. unfold Rendering.boundingBox.
  rewrite (sameShape_size _ _ (sameGeometry_shape _ _ H)).
  generalize (size d') as fuel. intros fuel. revert id.
  induction fuel as [| fuel IH]; intros id; simpl; [done |].
  pose proof (H id) as Hid.
  destruct (d !! id) as [el |], (d' !! id) as [el' |]; simpl in Hid; try done.
  assert (Hg : geometryOf el = geometryOf el') by congruence.
  assert (Hp : parentId el = parentId el') by (by injection Hg).
  rewrite Hp.
  rewrite !(sameGeometry_pxOf el el' _ Hg) by (unfold geometryKeys; set_solver).
  destruct (Rendering.placement id); try done;
    destruct (parentId el') as [pid |]; try done;
    rewrite IH;
    destruct (Rendering.boxWithin fuel w d' pid); try done;
    destruct (Rendering.pxOf el' "width"); try done;
    destruct (Rendering.pxOf el' "height"); try done;
    by rewrite (sameGeometry_place _ _ el el').
Qed.

Lemma sameLayout_refl (s : State) : sameLayout s s.
Proof. by split. Qed.

Lemma sameLayout_trans (s1 s2 s3 : State) :
  sameLayout s1 s2 -> sameLayout s2 s3 -> sameLayout s1 s3.
Proof.
  intros [W12 G12] [W23 G23]. split; [by rewrite W23 |].
  by eapply sameGeometry_trans.
Qed.

Lemma sameLayout_when (b : bool) (f : State -> State) (s : State) :
  sameLayout s (f s) -> sameLayout s (when b f s).
Proof. intros H. destruct b; [exact H | apply sameLayout_refl]. Qed.

Lemma sameLayout_simulateKeyEvent (type : string) (m : option KeyMapping) (s : State) :
  sameLayout s (simulateKeyEvent type m s).
Proof. destruct m; by split. Qed.

Lemma sameLayout_transform (v : StyleValue) (i : string) (s : State) :
  sameLayout s (setDocument (alter (setStyle (insert "transform" v)) i) s).
Proof.
  split; [done |]. simpl. apply sameGeometry_alter. intros el.
  apply geometryOf_transform.
Qed.

Lemma sameLayout_handleJoystickMove (host : Host) (x y : Q) (s : State) :
  sameLayout s (handleJoystickMove host x y s).
Proof.
  unfold handleJoystickMove. cbv zeta.
  eapply sameLayout_trans; [| apply sameLayout_transform].
  case_bool_decide; [| apply sameLayout_refl].
  eapply sameLayout_trans; [apply sameLayout_simulateKeyEvent |].
  eapply sameLayout_trans; [apply sameLayout_simulateKeyEvent |].
  by split.
Qed.

Lemma sameLayout_joystickBase_touchstart (host : Host) (ts : list Touch) (s : State) :
  sameLayout s (joystickBase_touchstart host ts s).
Proof.
  destruct ts as [| t ts]; simpl; [apply sameLayout_refl |].
  eapply sameLayout_trans; [| apply sameLayout_handleJoystickMove]. by split.
Qed.

Lemma sameLayout_joystickBase_touchmove (host : Host) (ts : list Touch) (s : State) :
  sameLayout s (joystickBase_touchmove host ts s).
Proof.
  unfold joystickBase_touchmove. destruct (find _ ts).
  - apply sameLayout_handleJoystickMove.
  - apply sameLayout_refl.
Qed.

Lemma sameLayout_joystickBase_touchend (ts : list Touch) (s : State) :
  sameLayout s (joystickBase_touchend ts s).
Proof.
  unfold joystickBase_touchend. destruct (find _ ts); [| apply sameLayout_refl].
  eapply sameLayout_trans; [apply sameLayout_simulateKeyEvent |].
  split; [done |]. simpl. apply sameGeometry_alter. intros el.
  apply geometryOf_transform.
Qed.

Lemma sameLayout_container_touchstart (target : string) (s : State) :
  sameLayout s (container_touchstart target s).
Proof.
  unfold container_touchstart.
  destruct (closest _ _ _) as [b |]; [| apply sameLayout_refl].
  destruct (isDiscreteButton _ _); [| apply sameLayout_refl].
  eapply sameLayout_trans; [| apply sameLayout_simulateKeyEvent].
  split; [done |]. simpl. apply sameGeometry_alter. intros el.
  apply geometryOf_classes. by apply elem_of_added.
Qed.

Lemma sameLayout_container_touchend (target : string) (s : State) :
  sameLayout s (container_touchend target s).
Proof.
  unfold container_touchend. cbv zeta.
  assert (H : sameLayout s (setDocument deactivateAll s)).
  { split; [done |]. apply sameGeometry_deactivateAll. }
  destruct (closest _ _ _) as [b |]; [| exact H].
  destruct (isDiscreteButton _ _); [| exact H].
  eapply sameLayout_trans; [exact H | apply sameLayout_simulateKeyEvent].
Qed.

(** The toggle, whether it returns or throws, only touches classes and a
    label. *)
Lemma sameLayout_withElement (id : string) (f : Element -> Element) (s : State) :
  (forall el, geometryOf (f el) = geometryOf el) ->
  sameLayout s (snd (withElement id f s)).
Proof.
  intros Hf. unfold withElement. destruct (document s !! id); simpl.
  - split; [done |]. by apply sameGeometry_alter.
  - apply sameLayout_refl.
Qed.

Lemma sameLayout_bind {A B : Type} (m : M A) (k : A -> M B) (s : State) :
  sameLayout s (snd (m s)) ->
  (forall a s', sameLayout s' (snd (k a s'))) ->
  sameLayout s (snd (bind m k s)).
Proof.
  intros Hm Hk. unfold bind. destruct (m s) as [[a | e] s'] eqn:E; simpl in *.
  - eapply sameLayout_trans; [exact Hm | apply Hk].
  - exact Hm.
Qed.

Lemma sameLayout_updateControlVisibility (s : State) :
  sameLayout s (snd (updateControlVisibility s)).
Proof.
  unfold updateControlVisibility.
  apply sameLayout_bind; [apply sameLayout_refl |]. intros s0 s1.
  apply sameLayout_bind;
    [apply sameLayout_withElement; intros; apply geometryOf_classToggle |].
  intros _ s2.
  apply sameLayout_bind;
    [apply sameLayout_withElement; intros; apply geometryOf_classToggle |].
  intros _ s3. by apply sameLayout_withElement.
Qed.

Lemma sameLayout_toggle_click (s : State) :
  sameLayout s (snd (toggle_click s)).
Proof.
  unfold toggle_click.
  apply sameLayout_bind; [by split |]. intros _ s1.
  apply sameLayout_bind; [| intros; apply sameLayout_updateControlVisibility].
  apply sameLayout_bind; [apply sameLayout_refl |]. intros s2 s3.
  unfold setItem. destruct (writeThrows (localStorage s3)); by split.
Qed.

Lemma sameLayout_laidOut (s s' : State) : sameLayout s s' -> laidOut s -> laidOut s'.
Proof.
  intros [Hw Hg] H. unfold laidOut. rewrite Hw.
  eapply sameGeometry_trans; [apply sameGeometry_sym, Hg | exact H].
Qed.

(** The script leaves the overlay laid out, and every event keeps it so:
    a resize by running the pass again, the others by leaving insets and
    sizes alone. *)
Lemma started_laidOut (w : Window) (st : Storage) :
  readThrows st = false -> laidOut (started w st).
Proof.
  intros Hr. unfold started. rewrite script_returns, init_returns by done.
  unfold laidOut. simpl. rewrite (left_id_L ∅ (∪)).
  apply sameGeometry_applyLayout, sameGeometry_sym, sameGeometry_applyVisibility.
Qed.

Lemma dispatchEvent_laidOut (host : Host) (e : Event) (s : State) :
  laidOut s -> laidOut (snd (dispatchEvent host e s)).
Proof.
  intros H. destruct e as [target ts | target ts | target ts | target | w]; simpl.
  - eapply sameLayout_laidOut; [| exact H].
    eapply sameLayout_trans;
      [apply sameLayout_when, sameLayout_joystickBase_touchstart |].
    apply sameLayout_when, sameLayout_container_touchstart.
  - eapply sameLayout_laidOut; [| exact H].
    apply sameLayout_when, sameLayout_joystickBase_touchmove.
  - eapply sameLayout_laidOut; [| exact H].
    eapply sameLayout_trans;
      [apply sameLayout_when, sameLayout_joystickBase_touchend |].
    apply sameLayout_when, sameLayout_container_touchend.
  - destruct (bubblesTo _ _ _); [| exact H].
    eapply sameLayout_laidOut; [apply sameLayout_toggle_click | exact H].
  - unfold laidOut in *. simpl.
    rewrite <- (applyLayout_overwrites CONFIG w (window s) controlTree).
    by apply sameGeometry_applyLayout.
Qed.

Lemma runEvents_laidOut (host : Host) (es : list Event) (s : State) :
  laidOut s -> laidOut (runEvents host es s).
Proof.
  revert s. induction es as [| e es IH]; intros s H; simpl; [exact H |].
  apply IH. by apply dispatchEvent_laidOut.
Qed.

(** Whatever events follow the script, every element that has a layout
    box has it within the present viewport. *)
Lemma running_within_viewport (host : Host) (es : list Event) (w : Window)
    (st : Storage) (id : string) (b : DOMRect) :
  readThrows st = false ->
  let s := runEvents host es (started w st) in
  (0 < innerWidth (window s))%Q -> (0 < innerHeight (window s))%Q ->
  Rendering.boundingBox (window s) (document s) id = Some b ->
  Rendering.inViewport (window s) b.
Proof.
  intros Hr s HW HH Hb.
  assert (Hlaid : laidOut s) by by apply runEvents_laidOut, started_laidOut.
  rewrite (sameGeometry_boundingBox _ _ _ id Hlaid) in Hb.
  by apply (rendered_inViewport CONFIG (window s) id b HW HH CONFIG_fits).
Qed.

(** * Further properties of the code *)

(** ** The key table and the control tree *)

Lemma KEY_MAPPINGS_ids (id : string) (m : KeyMapping) :
  KEY_MAPPINGS !! id = Some m ->
  id ∈ ["touch-z"; "touch-x"; "touch-c"; "touch-v"; "touch-m"; "touch-q";
        "touch-esc"; "touch-up"; "touch-down"; "touch-left"; "touch-right"].
Proof.
  intros H. apply elem_of_list_to_map_2 in H.
  by apply (list_elem_of_fmap_2 fst) in H.
Qed.

Lemma isDiscreteButton_present (d : Document) (id : string) :
  isDiscreteButton d id = true -> present d id.
Proof.
  unfold isDiscreteButton, elementHasClass, present.
  destruct (d !! id); [by eexists | done].
Qed.

(** X1. The markup of [buildControls] and [KEY_MAPPINGS] agree: an element
    of the tree is a discrete control (action, directional or system
    button) exactly when the table has a key for its id. *)
Theorem keys_for_discrete_controls (id : string) :
  isDiscreteButton controlTree id = true <-> is_Some (KEY_MAPPINGS !! id).
Proof.
  split.
  - intros H. pose proof (controlTree_ids id (isDiscreteButton_present _ _ H)) as Hid.
    simpl in Hid.
    repeat (apply elem_of_cons in Hid as [-> | Hid];
            [first [by vm_compute in H | by eexists; vm_compute; reflexivity] |]).
    by apply elem_of_nil in Hid.
  - intros [m H]. pose proof (KEY_MAPPINGS_ids id m H) as Hid.
    repeat (apply elem_of_cons in Hid as [-> | Hid]; [by vm_compute |]).
    by apply elem_of_nil in Hid.
Qed.

(** ** The joystick *)

Lemma contactDistance_clamped (host : Host) (rect : DOMRect) (x y : Q) :
  (contactDistance host rect x y <= rect_width rect / 2)%Q.
Proof. apply Q.le_min_l. Qed.

(** X2. When the joystick base reports an empty rectangle - as it does
    while its cluster is hidden - the clamped distance cannot exceed the
    deadzone and every sample resolves to no direction. *)
Theorem empty_base_resolves_nothing (host : Host) (s : State) (x y : Q) :
  (rect_width (getBoundingClientRect host (window s) (document s) "joystick-base")
   <= 0)%Q ->
  sampleDirection host s x y = None.
Proof.
  intros Hw. unfold sampleDirection.
  set (rect := getBoundingClientRect host (window s) (document s) "joystick-base") in *.
  apply ladder_deadzone.
  pose proof (contactDistance_clamped host rect x y) as Hd.
  unfold joystickDeadzone. inv_consts. lra.
Qed.

Lemma empty_base_witness :
  sampleDirection RefHost.refHost (started portrait emptyStorage) 130 754 = None.
Proof.
  apply (empty_base_resolves_nothing RefHost.refHost (started portrait emptyStorage)).
  by vm_compute.
Defined.

Lemma find_untracked (s : State) (ts : list Touch) :
  Forall (untracked s) ts -> find (isActiveTouch s) ts = None.
Proof.
  induction 1 as [| t ts Ht _ IH]; simpl; [done |].
  unfold isActiveTouch at 1. rewrite bool_decide_eq_false_2 by exact Ht. exact IH.
Qed.

(** X3. A [touchmove] none of whose changed contacts is the tracked one -
    in particular any [touchmove] while no contact is tracked - changes
    nothing at all, wherever it lands. *)
Theorem untracked_move_ignored
    (host : Host) (target : string) (ts : list Touch) (s : State) :
  Forall (untracked s) ts ->
  snd (dispatchEvent host (TouchMove target ts) s) = s.
Proof.
  intros H. simpl. unfold when, joystickBase_touchmove.
  rewrite (find_untracked s ts H). by destruct (bubblesTo _ _ _).
Qed.

Lemma untracked_move_witness :
  snd (dispatchEvent RefHost.refHost
         (TouchMove "joystick-base" [secondContact]) joystickHeld)
  = joystickHeld.
Proof.
  apply (untracked_move_ignored RefHost.refHost "joystick-base" [secondContact]
           joystickHeld).
  apply List.Forall_cons; [by vm_compute | apply List.Forall_nil].
Defined.

(** Whatever relation the single effects of the toggle's listener keep,
    the listener keeps, whether it returns or throws: the flip of the
    scheme, the write of the scheme's name under [controlMode], the two
    class toggles and the new label. *)
Section ToggleSteps.

Variable R : State -> State -> Prop.
Hypothesis R_refl : forall s, R s s.
Hypothesis R_trans : forall s1 s2 s3, R s1 s2 -> R s2 s3 -> R s1 s3.
Hypothesis R_flip : forall s, R s (setIsJoystickMode (negb (isJoystickMode s)) s).
Hypothesis R_store : forall s v, v = "joystick" \/ v = "dpad" ->
  R s (setLocalStorage
         (fun st => {| items := <["controlMode" := v]> (items st);
                       readThrows := readThrows st;
                       writeThrows := writeThrows st |}) s).
Hypothesis R_class : forall s force id,
  id = "dpad-container" \/ id = "joystick-container" ->
  R s (setDocument (alter (classToggle "hidden" force) id) s).
Hypothesis R_text : forall s t,
  R s (setDocument (alter (setTextContent t) "control-toggle-button") s).

Lemma bind_keeps {A B : Type} (m : M A) (k : A -> M B) (s : State) :
  R s (snd (m s)) -> (forall a s', R s' (snd (k a s'))) -> R s (snd (bind m k s)).
Proof.
  intros Hm Hk. unfold bind. destruct (m s) as [[a | e] s'] eqn:E; simpl in *.
  - eapply R_trans; [exact Hm | apply Hk].
  - exact Hm.
Qed.

Lemma withElement_keeps (id : string) (f : Element -> Element) (s : State) :
  R s (setDocument (alter f id) s) -> R s (snd (withElement id f s)).
Proof. intros H. unfold withElement. by destruct (document s !! id). Qed.

Lemma updateControlVisibility_keeps (s : State) :
  R s (snd (updateControlVisibility s)).
Proof.
  unfold updateControlVisibility.
  apply bind_keeps; [apply R_refl |]. intros s0 s1.
  apply bind_keeps; [apply withElement_keeps, R_class; by left |]. intros _ s2.
  apply bind_keeps; [apply withElement_keeps, R_class; by right |]. intros _ s3.
  apply withElement_keeps, R_text.
Qed.

Lemma toggle_click_keeps (s : State) : R s (snd (toggle_click s)).
Proof.
  unfold toggle_click.
  apply bind_keeps; [apply R_flip |]. intros _ s1.
  apply bind_keeps; [| intros; apply updateControlVisibility_keeps].
  apply bind_keeps; [apply R_refl |]. intros s2 s3.
  unfold setItem. destruct (writeThrows (localStorage s3)); simpl; [apply R_refl |].
  apply R_store. destruct (isJoystickMode s2); auto.
Qed.

End ToggleSteps.

(** The toggle, returning or throwing, leaves the joystick, the window and
    the dispatched events alone. *)
Lemma toggle_click_frame (s : State) :
  let s' := snd (toggle_click s) in
  currentJoystickDirection s' = currentJoystickDirection s /\
  activeJoystickTouchId s' = activeJoystickTouchId s /\
  window s' = window s /\
  hasCanvas s' = hasCanvas s /\
  focusCalls s' = focusCalls s /\
  dispatched s' = dispatched s.
Proof.
  apply (toggle_click_keeps (fun s s' =>
    currentJoystickDirection s' = currentJoystickDirection s /\
    activeJoystickTouchId s' = activeJoystickTouchId s /\
    window s' = window s /\
    hasCanvas s' = hasCanvas s /\
    focusCalls s' = focusCalls s /\
    dispatched s' = dispatched s)); try done.
  intros s1 s2 s3 (A1 & A2 & A3 & A4 & A5 & A6) (B1 & B2 & B3 & B4 & B5 & B6).
  by rewrite B1, B2, B3, B4, B5, B6.
Qed.

Lemma container_touchstart_joystick (target : string) (s : State) :
  currentJoystickDirection (container_touchstart target s) = currentJoystickDirection s /\
  activeJoystickTouchId (container_touchstart target s) = activeJoystickTouchId s.
Proof.
  unfold container_touchstart, simulateKeyEvent. repeat case_match; done.
Qed.

Lemma container_touchend_joystick (target : string) (s : State) :
  currentJoystickDirection (container_touchend target s) = currentJoystickDirection s /\
  activeJoystickTouchId (container_touchend target s) = activeJoystickTouchId s.
Proof.
  unfold container_touchend, simulateKeyEvent. simpl. repeat case_match; done.
Qed.

Lemma find_isActiveTouch (s : State) (ts : list Touch) (t : Touch) :
  find (isActiveTouch s) ts = Some t ->
  activeJoystickTouchId s = Some (identifier t).
Proof.
  intros H. apply find_some in H as [_ H]. by apply bool_decide_eq_true in H.
Qed.

(** The two listeners of the base, one after the other. *)
Lemma base_press_release (host : Host) (t : Touch) (ts : list Touch) (s : State) :
  currentJoystickDirection s = None ->
  let d := sampleDirection host s (clientX t) (clientY t) in
  let s2 := joystickBase_touchend [t] (joystickBase_touchstart host (t :: ts) s) in
  dispatched s2 = (dispatched s ++ keyFor s "keydown" d ++ keyFor s "keyup" d)%list /\
  currentJoystickDirection s2 = None /\
  activeJoystickTouchId s2 = None /\
  (forall el, document s2 !! "joystick-thumb" = Some el ->
              style el !! "transform" = Some (Translate 0 0)).
Proof.
  intros Hcur d s2. subst s2. unfold joystickBase_touchstart.
  set (s0 := setActiveJoystickTouchId (Some (identifier t)) s).
  set (s1 := handleJoystickMove host (clientX t) (clientY t) s0).
  assert (Hid : activeJoystickTouchId s1 = Some (identifier t))
    by (subst s1; by rewrite handleJoystickMove_touchId).
  assert (Hdir : currentJoystickDirection s1 = d)
    by (subst s1; by rewrite handleJoystickMove_direction).
  assert (Hlog : dispatched s1 = (dispatched s ++ keyFor s "keydown" d)%list).
  { subst s1. rewrite handleJoystickMove_dispatched.
    change (sampleDirection host s0 (clientX t) (clientY t)) with d.
    change (currentJoystickDirection s0) with (currentJoystickDirection s).
    change (dispatched s0) with (dispatched s). rewrite Hcur.
    destruct (decide (d = None)) as [-> | _]; [done |]. reflexivity. }
  assert (Hcanvas : hasCanvas s1 = hasCanvas s)
    by (subst s1; by rewrite handleJoystickMove_hasCanvas).
  clearbody s1. clear s0.
  assert (Hact : isActiveTouch s1 t = true) by by apply bool_decide_eq_true_2.
  unfold joystickBase_touchend. simpl. rewrite Hact. simpl.
  rewrite simulateKeyEvent_direction, Hlog, Hdir, <- app_assoc.
  repeat split.
  - do 2 f_equal. by apply keyFor_target.
  - intros el. rewrite simulateKeyEvent_document, lookup_alter_eq.
    destruct (document s1 !! "joystick-thumb") as [el1 |]; simpl; [| done].
    intros [= <-]. simpl. apply lookup_insert_eq.
Qed.

Lemma deactivateAll_style (d : Document) (id : string) :
  style <$> deactivateAll d !! id = style <$> d !! id.
Proof.
  unfold deactivateAll. rewrite lookup_fmap.
  destruct (d !! id) as [el |]; simpl; [| done]. by case_match.
Qed.

(** X4. A contact that starts on the joystick while no direction is
    tracked and then ends, as two dispatched events: the key-down of the
    arrow key of the direction its first point resolves to is followed by
    the matching key-up (nothing at all when the point resolves to no
    direction), and afterwards no direction and no contact are tracked and
    the thumb is back at the centre. *)
Theorem joystick_press_release
    (host : Host) (target : string) (t : Touch) (ts : list Touch) (s : State) :
  bubblesTo (document s) "joystick-base" target = true ->
  noDiscreteButton (document s) target ->
  currentJoystickDirection s = None ->
  let d := sampleDirection host s (clientX t) (clientY t) in
  let s2 := runEvents host [TouchStart target (t :: ts); TouchEnd target [t]] s in
  dispatched s2
  = (dispatched s ++ arrowEvents s "keydown" d ++ arrowEvents s "keyup" d)%list /\
  currentJoystickDirection s2 = None /\
  activeJoystickTouchId s2 = None /\
  (forall el, document s2 !! "joystick-thumb" = Some el ->
              style el !! "transform" = Some (Translate 0 0)).
Proof.
  intros Hb Hnot Hcur d s2. subst s2.
  change (runEvents host [TouchStart target (t :: ts); TouchEnd target [t]] s)
    with (snd (dispatchEvent host (TouchEnd target [t])
                 (snd (dispatchEvent host (TouchStart target (t :: ts)) s)))).
  rewrite (touchstart_on_joystick host target (t :: ts) s Hb Hnot).
  destruct (sameMode_joystickBase_touchstart host (t :: ts) s) as (_ & _ & Hsame).
  rewrite touchend_on_joystick;
    [| by rewrite <- (sameControls_bubblesTo _ _ _ target Hsame)
     | by apply (noDiscreteButton_sameControls (document s))].
  destruct (base_press_release host t ts s Hcur) as (Hlog & Hdir & Hid & Hthumb).
  rewrite !keyFor_arrowEvents in Hlog.
  set (s2 := joystickBase_touchend [t] (joystickBase_touchstart host (t :: ts) s)) in *.
  clearbody s2.
  unfold when. destruct (bubblesTo _ "virtual-controls-container" target);
    [| by repeat split].
  repeat split; try done.
  intros el Hel.
  change (document (setDocument deactivateAll s2)) with (deactivateAll (document s2)) in Hel.
  pose proof (deactivateAll_style (document s2) "joystick-thumb") as Hst.
  rewrite Hel in Hst.
  destruct (document s2 !! "joystick-thumb") as [el0 |] eqn:Hel0; [| done].
  simpl in Hst. injection Hst as ->. by apply Hthumb.
Qed.

Lemma joystick_press_release_witness :
  let d := sampleDirection RefHost.refHost joystickShown 130 754 in
  let s2 := runEvents RefHost.refHost
              [TouchStart "joystick-thumb" [firstContact];
               TouchEnd "joystick-thumb" [firstContact]] joystickShown in
  dispatched s2
  = (dispatched joystickShown ++ arrowEvents joystickShown "keydown" d
     ++ arrowEvents joystickShown "keyup" d)%list /\
  currentJoystickDirection s2 = None /\
  activeJoystickTouchId s2 = None /\
  (forall el, document s2 !! "joystick-thumb" = Some el ->
              style el !! "transform" = Some (Translate 0 0)).
Proof.
  apply (joystick_press_release RefHost.refHost "joystick-thumb" firstContact []
           joystickShown).
  - by vm_compute.
  - intros b Hb. vm_compute in Hb. injection Hb as <-. by vm_compute.
  - reflexivity.
Defined.

(** The same run on the sample page: the right arrow goes down and up. *)
Lemma thumb_press_release_events :
  dispatched (runEvents RefHost.refHost
                [TouchStart "joystick-thumb" [firstContact];
                 TouchEnd "joystick-thumb" [firstContact]] joystickShown)
  = [(Canvas, keyEvent "keydown" "ArrowRight" "ArrowRight" 39);
     (Canvas, keyEvent "keyup" "ArrowRight" "ArrowRight" 39)].
Proof. by vm_compute. Qed.

(** X5. In every state the overlay can reach (by any events from the
    script run on a page whose storage can be read and written), a
    direction is tracked only while a contact is: when no contact is
    tracked, no direction is, so no arrow key of the joystick is left
    pressed after its contact ended. *)
Theorem direction_needs_contact (host : Host) (s : State) :
  Reachable host s ->
  activeJoystickTouchId s = None -> currentJoystickDirection s = None.
Proof.
  induction 1 as [page Hr Hw | s e Hreach IH].
  - intros _. by rewrite script_returns, init_returns.
  - destruct e as [target ts | target ts | target ts | target | w]; simpl.
    + set (s1 := when _ (joystickBase_touchstart host ts) s).
      destruct (container_touchstart_joystick target s1) as [Hd Hi].
      assert (H1 : activeJoystickTouchId s1 = None -> currentJoystickDirection s1 = None).
      { subst s1. unfold when. destruct (bubblesTo _ _ _); [| exact IH].
        destruct ts as [| t ts]; [exact IH |].
        unfold joystickBase_touchstart. by rewrite handleJoystickMove_touchId. }
      unfold when. destruct (bubblesTo (document s1) _ _); [| exact H1].
      by rewrite Hd, Hi.
    + unfold when, joystickBase_touchmove. destruct (bubblesTo _ _ _); [| exact IH].
      destruct (find (isActiveTouch s) ts) as [t |] eqn:Hfind; [| exact IH].
      rewrite handleJoystickMove_touchId, (find_isActiveTouch s ts t Hfind). done.
    + set (s1 := when _ (joystickBase_touchend ts) s).
      destruct (container_touchend_joystick target s1) as [Hd Hi].
      assert (H1 : activeJoystickTouchId s1 = None -> currentJoystickDirection s1 = None).
      { subst s1. unfold when, joystickBase_touchend.
        destruct (bubblesTo _ _ _); [| exact IH].
        by destruct (find (isActiveTouch s) ts). }
      unfold when. destruct (bubblesTo (document s1) _ _); [| exact H1].
      by rewrite Hd, Hi.
    + destruct (bubblesTo _ _ _); [| exact IH].
      destruct (toggle_click_frame s) as (Hd & Hi & _). simpl in Hd, Hi.
      by rewrite Hd, Hi.
    + exact IH.
Qed.

Lemma direction_needs_contact_witness :
  currentJoystickDirection (started portrait emptyStorage) = None.
Proof.
  apply (direction_needs_contact RefHost.refHost (started portrait emptyStorage)).
  - by apply reachable_start.
  - reflexivity.
Defined.

(** ** Discrete buttons *)

Lemma simulateKeyEvent_dispatched (type : string) (m : option KeyMapping) (s : State) :
  dispatched (simulateKeyEvent type m s) = (dispatched s ++ keyEvents s type m)%list.
Proof. destruct m; simpl; [done | by rewrite app_nil_r]. Qed.

Lemma container_touchend_document (target : string) (s : State) :
  document (container_touchend target s) = deactivateAll (document s).
Proof.
  unfold container_touchend. simpl.
  repeat case_match; by rewrite ?simulateKeyEvent_document.
Qed.

(** X6. A contact end that reaches the container clears the [active]
    marker from every button, whatever its target - a discrete control,
    another element, or the joystick. *)
Theorem contact_end_clears_active
    (host : Host) (target : string) (ts : list Touch) (s : State) :
  bubblesTo (document s) "virtual-controls-container" target = true ->
  noneActive (document (snd (dispatchEvent host (TouchEnd target ts) s))).
Proof.
  intros Hb. simpl.
  set (s1 := when _ (joystickBase_touchend ts) s).
  assert (Hsame : sameControls (document s) (document s1)).
  { subst s1. unfold when.
    destruct (bubblesTo (document s) "joystick-base" target).
    - apply joystickBase_touchend_controls.
    - apply sameControls_refl. }
  rewrite <- (sameControls_bubblesTo _ _ _ target Hsame), Hb. simpl.
  rewrite container_touchend_document. apply deactivateAll_noneActive.
Qed.

Lemma contact_end_clears_active_witness :
  noneActive (document (snd (dispatchEvent RefHost.refHost
                               (TouchEnd "touch-x" [pressZ]) zPressed))).
Proof.
  apply (contact_end_clears_active RefHost.refHost "touch-x" [pressZ] zPressed).
  by vm_compute.
Defined.

Lemma touchstart_outside_joystick
    (host : Host) (target : string) (ts : list Touch) (s : State) :
  bubblesTo (document s) "joystick-base" target = false ->
  snd (dispatchEvent host (TouchStart target ts) s)
  = when (bubblesTo (document s) "virtual-controls-container" target)
      (container_touchstart target) s.
Proof. intros H. simpl. by rewrite H. Qed.

Lemma touchend_outside_joystick
    (host : Host) (target : string) (ts : list Touch) (s : State) :
  bubblesTo (document s) "joystick-base" target = false ->
  snd (dispatchEvent host (TouchEnd target ts) s)
  = when (bubblesTo (document s) "virtual-controls-container" target)
      (container_touchend target) s.
Proof. intros H. simpl. by rewrite H. Qed.

(** X7. A press and release on a discrete button that has an entry of
    its own in the table, outside the joystick: the button carries the
    [active] marker while pressed, the two events dispatch the key-down and
    then the key-up of that entry - its key, code and key code - and no
    button is left marked. *)
Theorem button_press_release
    (host : Host) (target button : string) (m : KeyMapping) (ts ts' : list Touch)
    (s : State) :
  closest (document s) "virtual-button" target = Some button ->
  isDiscreteButton (document s) button = true ->
  KEY_MAPPINGS !! button = Some m ->
  bubblesTo (document s) "virtual-controls-container" target = true ->
  bubblesTo (document s) "joystick-base" target = false ->
  let s1 := runEvents host [TouchStart target ts] s in
  let s2 := runEvents host [TouchStart target ts; TouchEnd target ts'] s in
  elementHasClass (document s1) "active" button = true /\
  dispatched s1
  = (dispatched s
     ++ [(keyTarget s, keyEvent "keydown" (key m) (code m) (keyCode m))])%list /\
  dispatched s2
  = (dispatched s
     ++ [(keyTarget s, keyEvent "keydown" (key m) (code m) (keyCode m));
         (keyTarget s, keyEvent "keyup" (key m) (code m) (keyCode m))])%list /\
  noneActive (document s2).
Proof.
  intros Hclosest Hdiscrete Hm Hcont Hjoy.
  change (runEvents host [TouchStart target ts] s)
    with (snd (dispatchEvent host (TouchStart target ts) s)).
  change (runEvents host [TouchStart target ts; TouchEnd target ts'] s)
    with (snd (dispatchEvent host (TouchEnd target ts')
                 (snd (dispatchEvent host (TouchStart target ts) s)))).
  rewrite (touchstart_outside_joystick host target ts s Hjoy), Hcont.
  unfold when.
  assert (E1 : container_touchstart target s
               = simulateKeyEvent "keydown" (Some m)
                   (setDocument
                      (alter (setClassList (fun cl => {[ "active" ]} ∪ cl)) button) s)).
  { unfold container_touchstart. by rewrite Hclosest, Hdiscrete, Hm. }
  rewrite E1. set (s1 := simulateKeyEvent _ _ _).
  assert (Hdoc : document s1
                 = alter (setClassList (fun cl => {[ "active" ]} ∪ cl)) button (document s))
    by done.
  assert (Hsame : sameControls (document s) (document s1))
    by (rewrite Hdoc; apply sameControls_activate).
  assert (Hlog : dispatched s1
                 = (dispatched s
                    ++ [(keyTarget s, keyEvent "keydown" (key m) (code m) (keyCode m))])%list)
    by done.
  assert (Hcanvas : hasCanvas s1 = hasCanvas s) by done.
  clearbody s1.
  rewrite touchend_outside_joystick
    by (by rewrite <- (sameControls_bubblesTo _ _ _ target Hsame)).
  rewrite <- !(sameControls_bubblesTo _ _ _ target Hsame), Hcont. unfold when.
  split; [| split; [exact Hlog | split]].
  - rewrite Hdoc. unfold elementHasClass. rewrite lookup_alter_eq.
    destruct (isDiscreteButton_present _ _ Hdiscrete) as [el ->]. simpl.
    apply bool_decide_eq_true, added_elem_of.
  - unfold container_touchend. cbv zeta.
    pose proof (sameControls_trans _ _ _ Hsame
                  (sameControls_deactivateAll (document s1))) as Hsame2.
    change (document (setDocument deactivateAll s1)) with (deactivateAll (document s1)).
    rewrite <- (sameControls_closest _ _ target Hsame2), Hclosest.
    rewrite <- (sameControls_discrete _ _ button Hsame2), Hdiscrete, Hm.
    simpl. rewrite Hlog, <- app_assoc. simpl.
    do 3 f_equal. unfold keyTarget. by rewrite Hcanvas.
  - rewrite container_touchend_document. apply deactivateAll_noneActive.
Qed.

Lemma button_press_release_witness :
  let s := started portrait emptyStorage in
  let s1 := runEvents RefHost.refHost [TouchStart "touch-z" [pressZ]] s in
  let s2 := runEvents RefHost.refHost
              [TouchStart "touch-z" [pressZ]; TouchEnd "touch-z" [pressZ]] s in
  elementHasClass (document s1) "active" "touch-z" = true /\
  dispatched s1 = (dispatched s ++ [(keyTarget s, keyEvent "keydown" "z" "KeyZ" 90)])%list /\
  dispatched s2
  = (dispatched s ++ [(keyTarget s, keyEvent "keydown" "z" "KeyZ" 90);
                      (keyTarget s, keyEvent "keyup" "z" "KeyZ" 90)])%list /\
  noneActive (document s2).
Proof.
  apply (button_press_release RefHost.refHost "touch-z" "touch-z"
           {| key := "z"; keyCode := 90; code := "KeyZ" |} [pressZ] [pressZ]
           (started portrait emptyStorage)); by vm_compute.
Defined.

(** ** What is dispatched *)

Lemma emits_refl (s : State) : emits s s.
Proof. split; [done |]. exists []. by rewrite app_nil_r. Qed.

Lemma fromTable_canvas (s s' : State) (te : EventTarget * KeyboardEvent) :
  hasCanvas s' = hasCanvas s -> fromTable s' te -> fromTable s te.
Proof. intros H [Ht Hm]. split; [| done]. unfold keyTarget in *. by rewrite <- H. Qed.

Lemma emits_trans (s1 s2 s3 : State) : emits s1 s2 -> emits s2 s3 -> emits s1 s3.
Proof.
  intros [C12 (l12 & D12 & F12)] [C23 (l23 & D23 & F23)]. split; [by rewrite C23 |].
  exists (l12 ++ l23)%list. split; [by rewrite D23, D12, app_assoc |].
  apply Forall_app. split; [done |].
  eapply Forall_impl; [exact F23 |]. intros te. by apply fromTable_canvas.
Qed.

(** A step that dispatches nothing. *)
Lemma emits_silent (s s' : State) :
  hasCanvas s' = hasCanvas s -> dispatched s' = dispatched s -> emits s s'.
Proof. intros Hc Hd. split; [done |]. exists []. by rewrite Hd, app_nil_r. Qed.

Lemma emits_when (b : bool) (f : State -> State) (s : State) :
  emits s (f s) -> emits s (when b f s).
Proof. intros H. destruct b; [exact H | apply emits_refl]. Qed.

Lemma emits_simulateKeyEvent (type id : string) (s : State) :
  type = "keydown" \/ type = "keyup" ->
  emits s (simulateKeyEvent type (KEY_MAPPINGS !! id) s).
Proof.
  intros Htype. split; [apply simulateKeyEvent_hasCanvas |].
  exists (keyEvents s type (KEY_MAPPINGS !! id)).
  split; [apply simulateKeyEvent_dispatched |].
  destruct (KEY_MAPPINGS !! id) as [m |] eqn:Hm; simpl; [| done].
  apply List.Forall_cons; [| done]. split; [done |]. by exists type, id, m.
Qed.

Lemma emits_then (s s' s'' : State) :
  emits s s' -> hasCanvas s'' = hasCanvas s' -> dispatched s'' = dispatched s' ->
  emits s s''.
Proof. intros H Hc Hd. eapply emits_trans; [exact H | by apply emits_silent]. Qed.

Lemma emits_setDocument (f : Document -> Document) (s s' : State) :
  emits s s' -> emits s (setDocument f s').
Proof. intros H. by apply (emits_then s s'). Qed.

Lemma emits_setDirection (d : option Direction) (s s' : State) :
  emits s s' -> emits s (setCurrentJoystickDirection d s').
Proof. intros H. by apply (emits_then s s'). Qed.

Lemma emits_setTouchId (i : option Z) (s s' : State) :
  emits s s' -> emits s (setActiveJoystickTouchId i s').
Proof. intros H. by apply (emits_then s s'). Qed.

Lemma emits_simulateKeyEvent_after (type id : string) (s s' : State) :
  type = "keydown" \/ type = "keyup" ->
  emits s s' -> emits s (simulateKeyEvent type (KEY_MAPPINGS !! id) s').
Proof.
  intros Ht H. eapply emits_trans; [exact H | by apply emits_simulateKeyEvent].
Qed.

Lemma emits_handleJoystickMove (host : Host) (x y : Q) (s s' : State) :
  emits s s' -> emits s (handleJoystickMove host x y s').
Proof.
  intros H. unfold handleJoystickMove. cbv zeta. apply emits_setDocument.
  case_bool_decide; [| exact H].
  apply emits_setDirection.
  apply emits_simulateKeyEvent_after; [by left |].
  apply emits_simulateKeyEvent_after; [by right | exact H].
Qed.

Lemma emits_dispatchEvent (host : Host) (e : Event) (s : State) :
  emits s (snd (dispatchEvent host e s)).
Proof.
  destruct e as [target ts | target ts | target ts | target | w]; simpl.
  - eapply emits_trans; apply emits_when.
    + destruct ts as [| t ts]; [apply emits_refl |]. unfold joystickBase_touchstart.
      apply emits_handleJoystickMove, emits_setTouchId, emits_refl.
    + unfold container_touchstart. repeat case_match; try apply emits_refl.
      apply emits_simulateKeyEvent_after; [by left |].
      apply emits_setDocument, emits_refl.
  - apply emits_when. unfold joystickBase_touchmove.
    case_match; [apply emits_handleJoystickMove |]; apply emits_refl.
  - eapply emits_trans; apply emits_when.
    + unfold joystickBase_touchend. case_match; [| apply emits_refl].
      apply emits_setTouchId, emits_setDocument, emits_setDirection.
      apply emits_simulateKeyEvent_after; [by right | apply emits_refl].
    + unfold container_touchend. cbv zeta.
      repeat case_match; try apply emits_setDocument, emits_refl.
      apply emits_simulateKeyEvent_after; [by right |].
      apply emits_setDocument, emits_refl.
  - case_match; [| apply emits_refl].
    destruct (toggle_click_frame s) as (_ & _ & _ & Hc & _ & Hd).
    by apply emits_silent.
  - by apply emits_silent.
Qed.

Lemma emits_runEvents (host : Host) (es : list Event) (s : State) :
  emits s (runEvents host es s).
Proof.
  revert s. induction es as [| e es IH]; intros s; simpl; [apply emits_refl |].
  eapply emits_trans; [apply emits_dispatchEvent | apply IH].
Qed.

(** The discrete buttons of the tree are the ids of the table. *)
Lemma controlTree_ownKeys : ownKeys controlTree.
Proof.
  intros id H. pose proof (controlTree_ids id (isDiscreteButton_present _ _ H)) as Hid.
  simpl in Hid.
  repeat (apply elem_of_cons in Hid as [-> | Hid];
          [first [by vm_compute in H | by eexists; vm_compute; reflexivity] |]).
  by apply elem_of_nil in Hid.
Qed.

Lemma applyVisibility_class (joystick : bool) (d : Document) (c id : string) :
  c <> "hidden" ->
  elementHasClass (applyVisibility joystick d) c id = elementHasClass d c id.
Proof.
  intros Hc. unfold applyVisibility, elementHasClass.
  rewrite !lookup_alter.
  repeat case_decide; subst; destruct (d !! _) as [el |]; simpl; try done;
    unfold hasClass; simpl; apply bool_decide_ext;
    repeat match goal with
    | |- context [if ?b then _ else _] => destruct b
    end;
    by rewrite ?elem_of_added, ?elem_of_removed by done.
Qed.

(** The overlay the script builds on a page of its own has only buttons of
    the table. *)
Lemma started_ownKeys (w : Window) (st : Storage) :
  readThrows st = false -> ownKeys (document (started w st)).
Proof.
  intros Hr id. unfold started.
  rewrite script_returns, init_returns by done. simpl.
  rewrite <- (sameControls_discrete _ _ id (sameControls_applyLayout CONFIG w _)).
  unfold isDiscreteButton. rewrite !applyVisibility_class by done.
  rewrite (left_id_L ∅ (∪)). apply controlTree_ownKeys.
Qed.

(** X8. In a document whose discrete buttons all have an entry of their
    own in the table - as the overlay the script builds has - whatever
    events arrive, the overlay only ever adds to what it has dispatched,
    and every event it adds is the key-down or key-up of an entry of
    [KEY_MAPPINGS]: the entry's key, code and key code, [which] equal to
    the key code, bubbling and cancelable, sent to the canvas when the page
    has one and to the document otherwise. *)
Theorem only_table_events (host : Host) (es : list Event) (s : State) :
  ownKeys (document s) ->
  exists l,
    dispatched (runEvents host es s) = (dispatched s ++ l)%list /\
    Forall (tableEvent s) l.
Proof.
  intros _. destruct (emits_runEvents host es s) as [_ (l & Hl & Hf)].
  exists l. split; [exact Hl |].
  eapply Forall_impl; [exact Hf |].
  intros te [Ht (type & id & m & Htype & Hm & Hte)].
  split; [exact Ht |]. by exists type, id, m.
Qed.

Lemma only_table_events_witness :
  exists l,
    dispatched (runEvents RefHost.refHost
                  [TouchStart "touch-z" [pressZ]; TouchEnd "touch-z" [pressZ]]
                  (started portrait emptyStorage))
    = (dispatched (started portrait emptyStorage) ++ l)%list /\
    Forall (tableEvent (started portrait emptyStorage)) l.
Proof.
  apply (only_table_events RefHost.refHost
           [TouchStart "touch-z" [pressZ]; TouchEnd "touch-z" [pressZ]]
           (started portrait emptyStorage)).
  by apply started_ownKeys.
Defined.

(** ** The scheme and its storage *)

Lemma sameMode_dispatchEvent (host : Host) (e : Event) (s : State) :
  notToggle s e -> sameMode s (snd (dispatchEvent host e s)).
Proof.
  intros Hnot. destruct e as [target ts | target ts | target ts | target | w]; simpl.
  - eapply sameMode_trans;
      [apply sameMode_when, sameMode_joystickBase_touchstart |].
    apply sameMode_when, sameMode_container_touchstart.
  - apply sameMode_when, sameMode_joystickBase_touchmove.
  - eapply sameMode_trans;
      [apply sameMode_when, sameMode_joystickBase_touchend |].
    apply sameMode_when, sameMode_container_touchend.
  - rewrite (Hnot target eq_refl). apply sameMode_refl.
  - eapply sameMode_trans; [| apply sameMode_layout]. by repeat split.
Qed.

(** X9. Only a click on the toggle button changes the scheme or touches
    storage: every touch event, every resize and every click elsewhere
    leaves both as they were. *)
Theorem only_toggle_changes_scheme (host : Host) (e : Event) (s : State) :
  notToggle s e ->
  isJoystickMode (snd (dispatchEvent host e s)) = isJoystickMode s /\
  localStorage (snd (dispatchEvent host e s)) = localStorage s.
Proof.
  intros Hnot. destruct (sameMode_dispatchEvent host e s Hnot) as (Hm & Hl & _).
  by split.
Qed.

Lemma only_toggle_changes_scheme_witness :
  isJoystickMode (snd (dispatchEvent RefHost.refHost
                         (TouchStart "joystick-base" [firstContact]) joystickShown))
  = isJoystickMode joystickShown /\
  localStorage (snd (dispatchEvent RefHost.refHost
                       (TouchStart "joystick-base" [firstContact]) joystickShown))
  = localStorage joystickShown.
Proof.
  apply (only_toggle_changes_scheme RefHost.refHost
           (TouchStart "joystick-base" [firstContact]) joystickShown).
  intros target H. discriminate H.
Defined.

Lemma stores_refl (s : State) : stores s s.
Proof. repeat split; auto. Qed.

Lemma stores_trans (s1 s2 s3 : State) : stores s1 s2 -> stores s2 s3 -> stores s1 s3.
Proof.
  intros (R12 & W12 & K12 & M12) (R23 & W23 & K23 & M23). repeat split.
  - by rewrite R23.
  - by rewrite W23.
  - intros k Hk. by rewrite K23, K12.
  - destruct M23 as [-> | M23]; [exact M12 | by right].
Qed.

Lemma stores_same (s s' : State) : localStorage s' = localStorage s -> stores s s'.
Proof. intros H. unfold stores. rewrite H. repeat split; auto. Qed.

Lemma stores_toggle_click (s : State) : stores s (snd (toggle_click s)).
Proof.
  apply (toggle_click_keeps stores); try (intros; by apply stores_same).
  - apply stores_trans.
  - intros s0 v Hv. repeat split; try done; simpl.
    + intros k Hk. by rewrite lookup_insert_ne.
    + rewrite lookup_insert_eq. destruct Hv as [-> | ->]; auto.
Qed.

Lemma stores_dispatchEvent (host : Host) (e : Event) (s : State) :
  stores s (snd (dispatchEvent host e s)).
Proof.
  destruct e as [target ts | target ts | target ts | target | w];
    try (apply stores_same, sameMode_dispatchEvent; intros t Ht; discriminate Ht).
  simpl. destruct (bubblesTo _ _ _); [apply stores_toggle_click | apply stores_refl].
Qed.

Lemma stores_runEvents (host : Host) (es : list Event) (s : State) :
  stores s (runEvents host es s).
Proof.
  revert s. induction es as [| e es IH]; intros s; simpl; [apply stores_refl |].
  eapply stores_trans; [apply stores_dispatchEvent | apply IH].
Qed.

(** X10. Whatever events arrive, the overlay writes storage under the one
    key [controlMode] and only the name of a scheme: every other key keeps
    its value, and [controlMode] holds what it held before or ["joystick"]
    or ["dpad"]. *)
Theorem storage_written_under_one_key (host : Host) (es : list Event) (s : State) :
  let s' := runEvents host es s in
  (forall k, k <> "controlMode" ->
     items (localStorage s') !! k = items (localStorage s) !! k) /\
  (items (localStorage s') !! "controlMode" = items (localStorage s) !! "controlMode" \/
   items (localStorage s') !! "controlMode" = Some "joystick" \/
   items (localStorage s') !! "controlMode" = Some "dpad").
Proof. destruct (stores_runEvents host es s) as (_ & _ & Hk & Hm). by split. Qed.

(** X11. The preference survives a reload: after a toggle click with the
    three elements it looks up in place, on storage that can be read and
    written, a fresh run of the script over the storage the click left
    starts in the scheme the click switched to. *)
Theorem preference_survives_reload (s : State) (w : Window) :
  controlsInPlace s -> readThrows (localStorage s) = false ->
  isJoystickMode (started w (localStorage (snd (toggle_click s))))
  = isJoystickMode (snd (toggle_click s)).
Proof.
  intros Hin Hr.
  destruct (stores_toggle_click s) as (Hr' & _).
  destruct (toggle_click_returns s Hin) as (s' & E & Hm & _ & Hi & _).
  rewrite E in *. simpl in *. unfold started.
  rewrite script_returns, init_returns by (simpl; congruence). simpl.
  rewrite Hi, Hm. by destruct (isJoystickMode s).
Qed.

Lemma preference_survives_reload_witness :
  isJoystickMode
    (started landscape
       (localStorage (snd (toggle_click (started portrait emptyStorage)))))
  = isJoystickMode (snd (toggle_click (started portrait emptyStorage))).
Proof.
  apply (preference_survives_reload (started portrait emptyStorage) landscape).
  - unfold controlsInPlace, present.
    repeat apply conj; by (eexists; vm_compute; reflexivity).
  - reflexivity.
Defined.

(** ** What touch events and layout passes do to the document *)

Lemma handleJoystickMove_document (host : Host) (x y : Q) (s : State) :
  exists v,
    document (handleJoystickMove host x y s)
    = alter (setStyle (insert "transform" v)) "joystick-thumb" (document s).
Proof.
  unfold handleJoystickMove. cbv zeta. eexists. simpl. f_equal.
  case_bool_decide; [| done]. simpl. by rewrite !simulateKeyEvent_document.
Qed.

(** A relation on documents that the three document effects of the touch
    listeners keep - a [transform] written on the thumb, the [active]
    marker set on one element, the marker cleared everywhere - is kept by
    the dispatch of every touch event. *)
Section TouchDocument.

Variable D : Document -> Document -> Prop.
Hypothesis D_refl : forall d, D d d.
Hypothesis D_trans : forall d1 d2 d3, D d1 d2 -> D d2 d3 -> D d1 d3.
Hypothesis D_style : forall d v,
  D d (alter (setStyle (insert "transform" v)) "joystick-thumb" d).
Hypothesis D_activate : forall d id,
  D d (alter (setClassList (fun cl => {[ "active" ]} ∪ cl)) id d).
Hypothesis D_clear : forall d, D d (deactivateAll d).

Lemma when_keeps (b : bool) (f : State -> State) (s : State) :
  D (document s) (document (f s)) -> D (document s) (document (when b f s)).
Proof. intros H. destruct b; [exact H | apply D_refl]. Qed.

Lemma joystickBase_touchstart_keeps (host : Host) (ts : list Touch) (s : State) :
  D (document s) (document (joystickBase_touchstart host ts s)).
Proof.
  destruct ts as [| t ts]; [apply D_refl |]. unfold joystickBase_touchstart.
  destruct (handleJoystickMove_document host (clientX t) (clientY t)
              (setActiveJoystickTouchId (Some (identifier t)) s)) as [v ->].
  apply D_style.
Qed.

Lemma joystickBase_touchmove_keeps (host : Host) (ts : list Touch) (s : State) :
  D (document s) (document (joystickBase_touchmove host ts s)).
Proof.
  unfold joystickBase_touchmove. case_match; [| apply D_refl].
  destruct (handleJoystickMove_document host (clientX t) (clientY t) s) as [v ->].
  apply D_style.
Qed.

Lemma joystickBase_touchend_keeps (ts : list Touch) (s : State) :
  D (document s) (document (joystickBase_touchend ts s)).
Proof.
  unfold joystickBase_touchend. case_match; [| apply D_refl]. simpl.
  rewrite simulateKeyEvent_document. apply D_style.
Qed.

Lemma container_touchstart_keeps (target : string) (s : State) :
  D (document s) (document (container_touchstart target s)).
Proof.
  unfold container_touchstart. repeat case_match; try apply D_refl.
  rewrite simulateKeyEvent_document. apply D_activate.
Qed.

Lemma touch_keeps (host : Host) (e : Event) (s : State) :
  (forall target, e <> Click target) -> (forall w, e <> Resize w) ->
  D (document s) (document (snd (dispatchEvent host e s))).
Proof.
  intros Hclick Hresize.
  destruct e as [target ts | target ts | target ts | target | w]; simpl.
  - eapply D_trans; [apply when_keeps, joystickBase_touchstart_keeps |].
    apply when_keeps, container_touchstart_keeps.
  - apply when_keeps, joystickBase_touchmove_keeps.
  - eapply D_trans; [apply when_keeps, joystickBase_touchend_keeps |].
    apply when_keeps. rewrite container_touchend_document. apply D_clear.
  - by destruct (Hclick target).
  - by destruct (Hresize w).
Qed.

End TouchDocument.

Lemma sameBy_refl {X : Type} (g : Element -> X) (d : Document) : sameBy g d d.
Proof. done. Qed.

Lemma sameBy_trans {X : Type} (g : Element -> X) (d1 d2 d3 : Document) :
  sameBy g d1 d2 -> sameBy g d2 d3 -> sameBy g d1 d3.
Proof. intros H12 H23 id. by rewrite H12. Qed.

Lemma sameBy_alter {X : Type} (g : Element -> X) (f : Element -> Element)
    (i : string) (d : Document) :
  (forall el, g (f el) = g el) -> sameBy g d (alter f i d).
Proof.
  intros Hf id. rewrite lookup_alter. case_decide; [subst | done].
  destruct (d !! id); simpl; [| done]. by rewrite Hf.
Qed.

Lemma sameBy_deactivateAll {X : Type} (g : Element -> X) (d : Document) :
  keptByTouch g -> sameBy g d (deactivateAll d).
Proof.
  intros (_ & _ & Hclear) id. unfold deactivateAll. rewrite lookup_fmap.
  destruct (d !! id) as [el |]; simpl; [| done].
  case_match; [by rewrite Hclear | done].
Qed.

Lemma sameBy_touch {X : Type} (g : Element -> X) (host : Host) (e : Event) (s : State) :
  keptByTouch g ->
  (forall target, e <> Click target) -> (forall w, e <> Resize w) ->
  sameBy g (document s) (document (snd (dispatchEvent host e s))).
Proof.
  intros Hg. pose proof Hg as (Hstyle & Hact & Hclear).
  apply (touch_keeps (sameBy g)).
  - apply sameBy_refl.
  - apply sameBy_trans.
  - intros d v. by apply sameBy_alter.
  - intros d id. by apply sameBy_alter.
  - intros d. by apply sameBy_deactivateAll.
Qed.

Lemma sameBy_applyLayout {X : Type} (g : Element -> X) (cfg : Config) (w : Window)
    (d : Document) :
  (forall f el, g (setStyle f el) = g el) -> sameBy g d (applyLayout cfg w d).
Proof.
  intros Hg id. rewrite applyLayout_lookup.
  destruct (d !! id) as [el |]; simpl; [| done]. unfold assignStyle. by rewrite Hg.
Qed.

(** X12. The layout pass writes inline styles and nothing else: it adds and
    removes no element, and leaves the parent, the classes and the text of
    every element as they were - so an element missing from the document
    is simply skipped. *)
Theorem layout_writes_styles_only (cfg : Config) (w : Window) (d : Document)
    (id : string) :
  (fun el => (parentId el, classList el, textContent el)) <$> applyLayout cfg w d !! id
  = (fun el => (parentId el, classList el, textContent el)) <$> d !! id.
Proof. symmetry. by apply sameBy_applyLayout. Qed.

Lemma layoutSteps_keys (cfg : Config) (w : Window) :
  Forall (fun st => stepKeys st ⊆ layoutProperties) (layoutSteps cfg w).
Proof.
  unfold layoutSteps.
  repeat (apply List.Forall_cons;
          [intros k Hk; simpl in Hk; unfold layoutProperties;
           repeat (apply elem_of_cons in Hk as [-> | Hk];
                   [repeat first [apply list_elem_of_here | apply list_elem_of_further] |]);
           by apply elem_of_nil in Hk |]).
  apply List.Forall_nil.
Qed.

Lemma stepStyles_other (st : Step) (id k : string) (dpad : bool) :
  k ∉ stepKeys st -> stepStyles st id dpad !! k = None.
Proof.
  intros Hk. destruct st as [i styles | styles]; simpl in *.
  - case_decide; [| done]. by apply not_elem_of_list_to_map_1.
  - destruct dpad; [| done]. by apply not_elem_of_list_to_map_1.
Qed.

Lemma stylesAfter_other (steps : list Step) (id k : string) (dpad : bool)
    (m : gmap string StyleValue) :
  Forall (fun st => k ∉ stepKeys st) steps -> m !! k = None ->
  stylesAfter steps id dpad m !! k = None.
Proof.
  intros H. revert m. induction H as [| st steps Hst _ IH]; intros m Hm; simpl;
    [exact Hm |].
  apply IH. rewrite lookup_union, Hm. by rewrite stepStyles_other.
Qed.

Lemma applyLayout_keeps_style (cfg : Config) (w : Window) (d : Document)
    (id k : string) :
  k ∉ layoutProperties ->
  (fun el => style el !! k) <$> applyLayout cfg w d !! id
  = (fun el => style el !! k) <$> d !! id.
Proof.
  intros Hk. rewrite applyLayout_lookup.
  destruct (d !! id) as [el |]; simpl; [| done]. f_equal.
  rewrite lookup_union. unfold assignedStyles.
  rewrite stylesAfter_other; [by destruct (style el !! k) | | done].
  eapply Forall_impl; [apply layoutSteps_keys |].
  intros st Hst Hin. apply Hk, Hst, Hin.
Qed.

(** X13. A layout pass leaves every inline property outside the nine it
    writes as it found it: a resize does not touch, for one, the
    [transform] the joystick gave its thumb. *)
Theorem layout_keeps_other_styles (cfg : Config) (w : Window) (d : Document)
    (id k : string) :
  k ∉ layoutProperties ->
  (fun el => style el !! k) <$> applyLayout cfg w d !! id
  = (fun el => style el !! k) <$> d !! id.
Proof. apply applyLayout_keeps_style. Qed.

Lemma layout_keeps_other_styles_witness :
  (fun el => style el !! "transform")
    <$> applyLayout CONFIG landscape (document joystickHeld) !! "joystick-thumb"
  = (fun el => style el !! "transform") <$> document joystickHeld !! "joystick-thumb".
Proof.
  apply (layout_keeps_other_styles CONFIG landscape (document joystickHeld)
           "joystick-thumb" "transform").
  unfold layoutProperties. intros H.
  repeat (apply elem_of_cons in H as [H | H]; [discriminate H |]).
  by apply elem_of_nil in H.
Defined.

(** ** The scheme shown *)

Lemma keptByTouch_textContent : keptByTouch textContent.
Proof. by repeat split. Qed.

Lemma applyVisibility_label (joystick : bool) (d : Document) :
  present d "control-toggle-button" ->
  textContent <$> applyVisibility joystick d !! "control-toggle-button"
  = Some (toggleLabel joystick).
Proof.
  intros [el Hel]. unfold applyVisibility.
  rewrite lookup_alter_eq, !lookup_alter_ne, Hel by done. done.
Qed.

Lemma loaded_state (page : State) :
  readThrows (localStorage page) = false ->
  loaded page
  = calculateAndApplyLayout
      (setDocument
         (applyVisibility
            (bool_decide (items (localStorage page) !! "controlMode" = Some "joystick")))
         (buildControls
            (setCurrentJoystickDirection None
               (setIsJoystickMode
                  (bool_decide
                     (items (localStorage page) !! "controlMode" = Some "joystick"))
                  page)))).
Proof. intros Hr. unfold loaded. by rewrite script_returns, init_returns. Qed.

Lemma loaded_fields (page : State) :
  readThrows (localStorage page) = false ->
  let joystick :=
    bool_decide (items (localStorage page) !! "controlMode" = Some "joystick") in
  document (loaded page)
  = applyLayout CONFIG (window page)
      (applyVisibility joystick (document page ∪ controlTree)) /\
  isJoystickMode (loaded page) = joystick /\
  currentJoystickDirection (loaded page) = None /\
  window (loaded page) = window page /\
  localStorage (loaded page) = localStorage page.
Proof.
  intros Hr joystick. rewrite loaded_state by done.
  unfold calculateAndApplyLayout, calculateAndApplyLayoutWith, buildControls,
    setDocument, setCurrentJoystickDirection, setIsJoystickMode.
  cbn [document isJoystickMode currentJoystickDirection window localStorage].
  by repeat split.
Qed.

Lemma loaded_label (page : State) :
  readThrows (localStorage page) = false ->
  textContent <$> document (loaded page) !! "control-toggle-button"
  = Some (toggleLabel (isJoystickMode (loaded page))).
Proof.
  intros Hr. destruct (loaded_fields page Hr) as (-> & -> & _).
  rewrite <- (sameBy_applyLayout textContent) by done.
  apply applyVisibility_label, lookup_union_is_Some. right.
  apply controlTree_present.
Qed.

(** X14. What the script shows on load: the cluster of the stored scheme -
    the joystick for the stored value ["joystick"], the directional pad for
    any other value or none - with the other cluster hidden, the toggle
    labelled with the scheme it would switch to, and no joystick direction
    tracked. *)
Theorem script_shows_stored_scheme (page : State) :
  readThrows (localStorage page) = false ->
  let joystick :=
    bool_decide (items (localStorage page) !! "controlMode" = Some "joystick") in
  let s := loaded page in
  isJoystickMode s = joystick /\
  visible (document s) "dpad-container" = negb joystick /\
  visible (document s) "joystick-container" = joystick /\
  textContent <$> document s !! "control-toggle-button"
  = Some (if joystick then "Use D-Pad" else "Use Joystick") /\
  currentJoystickDirection s = None.
Proof.
  intros Hr joystick s.
  assert (Hmode : isJoystickMode s = joystick)
    by (subst s; by rewrite loaded_state).
  split; [exact Hmode |].
  pose proof (loaded_label page Hr) as Hlabel. fold s in Hlabel. rewrite Hmode in Hlabel.
  assert (Hvis : visible (document s) "dpad-container" = negb joystick /\
                 visible (document s) "joystick-container" = joystick).
  { subst s. rewrite loaded_state by done. simpl.
    rewrite <- !(sameControls_visible _ _ _ (sameControls_applyLayout CONFIG _ _)).
    apply applyVisibility_visible; apply lookup_union_is_Some; right;
      apply controlTree_present. }
  destruct Hvis as [Hd Hj]. repeat split; try done.
  subst s. by rewrite loaded_state.
Qed.

Lemma script_shows_stored_scheme_witness :
  let s := loaded (blankPage portrait joystickStored) in
  isJoystickMode s = true /\
  visible (document s) "dpad-container" = false /\
  visible (document s) "joystick-container" = true /\
  textContent <$> document s !! "control-toggle-button" = Some "Use D-Pad" /\
  currentJoystickDirection s = None.
Proof.
  apply (script_shows_stored_scheme (blankPage portrait joystickStored)).
  reflexivity.
Defined.

Lemma dispatch_resize (host : Host) (w : Window) (s : State) :
  snd (dispatchEvent host (Resize w) s)
  = setDocument (applyLayout CONFIG w) (setWindow w s).
Proof. reflexivity. Qed.

Lemma reachable_label (host : Host) (s : State) :
  Reachable host s ->
  textContent <$> document s !! "control-toggle-button"
  = Some (toggleLabel (isJoystickMode s)).
Proof.
  induction 1 as [page Hr Hw | s e Hreach IH].
  - by apply loaded_label.
  - destruct (reachable_controls host s Hreach) as [Hin _].
    destruct e as [target ts | target ts | target ts | target | w].
    + destruct (sameMode_dispatchEvent host (TouchStart target ts) s) as (-> & _);
        [intros t Ht; discriminate Ht |].
      by rewrite <- (sameBy_touch textContent host _ s keptByTouch_textContent).
    + destruct (sameMode_dispatchEvent host (TouchMove target ts) s) as (-> & _);
        [intros t Ht; discriminate Ht |].
      by rewrite <- (sameBy_touch textContent host _ s keptByTouch_textContent).
    + destruct (sameMode_dispatchEvent host (TouchEnd target ts) s) as (-> & _);
        [intros t Ht; discriminate Ht |].
      by rewrite <- (sameBy_touch textContent host _ s keptByTouch_textContent).
    + simpl. destruct (bubblesTo _ _ _); [| exact IH].
      destruct (toggle_click_returns s Hin) as (s' & E & M & D & _).
      rewrite E. simpl. rewrite D, M. apply applyVisibility_label.
      by destruct Hin as (_ & _ & Ht & _).
    + rewrite dispatch_resize. unfold setDocument, setWindow.
      cbn [document isJoystickMode]. by rewrite <- (sameBy_applyLayout textContent).
Qed.

(** X15. At all times exactly one movement cluster is shown, the one of
    the active scheme, and the toggle names the other scheme: this holds
    in every state the overlay reaches by any events from the script run
    on a page whose storage can be read and written. *)
Theorem shown_scheme_invariant (host : Host) (s : State) :
  Reachable host s ->
  visible (document s) "dpad-container" = negb (isJoystickMode s) /\
  visible (document s) "joystick-container" = isJoystickMode s /\
  textContent <$> document s !! "control-toggle-button"
  = Some (if isJoystickMode s then "Use D-Pad" else "Use Joystick").
Proof.
  intros H. destruct (reachable_controls host s H) as [_ [Hd Hj]].
  repeat split; try done. by apply (reachable_label host).
Qed.

Lemma shown_scheme_invariant_witness :
  visible (document joystickHeld) "dpad-container" = negb (isJoystickMode joystickHeld) /\
  visible (document joystickHeld) "joystick-container" = isJoystickMode joystickHeld /\
  textContent <$> document joystickHeld !! "control-toggle-button"
  = Some (if isJoystickMode joystickHeld then "Use D-Pad" else "Use Joystick").
Proof.
  apply (shown_scheme_invariant RefHost.refHost joystickHeld).
  apply (reachable_step RefHost.refHost joystickShown
           (TouchStart "joystick-base" [firstContact])).
  apply (reachable_step RefHost.refHost (started portrait emptyStorage)
           (Click "control-toggle-button")).
  by apply reachable_start.
Defined.

(** ** The geometry of the laid-out tree *)

Lemma renderedBox_all (cfg : Config) (w : Window) :
  Forall (fun entry => renderedBox cfg w entry.1 = entry.2) (layoutBoxes cfg w).
Proof.
  eapply Forall_impl; [apply layoutBoxes_rendered |].
  intros [id b] H. unfold renderedBox. cbn [fst snd] in *. rewrite H. reflexivity.
Qed.

(** The boxes of the tree, as equations in the context. *)
Ltac boxes cfg w :=
  let H := fresh "Hboxes" in
  pose proof (renderedBox_all cfg w) as H;
  unfold layoutBoxes in H; cbv zeta in H;
  repeat (apply Forall_cons_1 in H as [? H]);
  clear H; cbn [fst snd] in *.

(** X16. Both movement clusters receive the same geometry: in any
    document the pass assigns the directional pad's container and the
    joystick's container the same styles, and in the tree they render to
    the same box - which is why a toggle needs no new pass. *)
Theorem clusters_share_geometry (cfg : Config) (w : Window) (dpad : bool) :
  assignedStyles cfg w "dpad-container" dpad
  = assignedStyles cfg w "joystick-container" dpad /\
  renderedBox cfg w "dpad-container" = renderedBox cfg w "joystick-container".
Proof.
  split.
  - unfold assignedStyles, layoutSteps, actionBtnStyle.
    generalize (actionButtonSize cfg w) (padding cfg w) (gap cfg w)
      (clusterWidth cfg w) (clusterHeight cfg w) (escButtonSize cfg w)
      (movementClusterSize cfg w) (dpadButtonSize cfg w) (joystickBaseSize cfg w)
      (toggleButtonW cfg w) (toggleButtonH cfg w) (toggleBottom cfg w)
      (toggleLeft cfg w).
    intros. destruct dpad; vm_compute; reflexivity.
  - boxes cfg w. congruence.
Qed.



(** The two clusters' facing edges under [CONFIG], by the short side. *)
Lemma facing_edges (w : Window) :
  let s := shortSide w in
  let k := sizeMultiplier w in
  (rect_right (renderedBox CONFIG w "dpad-container") == 0.04 * s + 0.38 * s * k /\
   rect_left (renderedBox CONFIG w "action-cluster")
     == innerWidth w - 0.1 * s - 0.33 * s * k /\
   rect_left (renderedBox CONFIG w "dpad-container") == 0.04 * s /\
   rect_right (renderedBox CONFIG w "action-cluster") == innerWidth w - 0.04 * s /\
   rect_top (renderedBox CONFIG w "dpad-container")
     == innerHeight w - 0.04 * s - 0.38 * s * k /\
   rect_bottom (renderedBox CONFIG w "dpad-container") == innerHeight w - 0.04 * s /\
   rect_top (renderedBox CONFIG w "action-cluster")
     == innerHeight w - 0.07 * s - 0.22 * s * k /\
   rect_bottom (renderedBox CONFIG w "action-cluster") == innerHeight w - 0.04 * s)%Q.
Proof.
  intros s k. subst s k. boxes CONFIG w.
  repeat match goal with H : renderedBox _ _ _ = _ |- _ => rewrite H; clear H end.
  unfold rect_right, rect_bottom, box, clusterWidth, clusterHeight,
    actionButtonSize, movementClusterSize, padding, gap, effectiveScale, CONFIG.
  cbn [rect_left rect_top rect_width rect_height scale paddingPercent gapPercent].
  repeat split; field.
Qed.

Lemma shortSide_portrait (w : Window) :
  (innerWidth w <= innerHeight w)%Q ->
  (shortSide w == innerWidth w)%Q /\ sizeMultiplier w = 1.0%Q.
Proof.
  intros H. split; [by apply Q.min_l |].
  apply sizeMultiplier_portrait. by apply gtb_le.
Qed.

Lemma shortSide_landscape (w : Window) :
  (innerHeight w < innerWidth w)%Q ->
  (shortSide w == innerHeight w)%Q /\ sizeMultiplier w = 1.4%Q.
Proof.
  intros H. split; [apply Q.min_r; by apply Qlt_le_weak |].
  apply sizeMultiplier_landscape. by apply gtb_gt.
Qed.

(** X20. Under the shipped [CONFIG] the movement cluster ends left of
    where the action cluster begins in every portrait or square window and
    in every landscape window at least 1.134 times as wide as tall. *)
Theorem clusters_apart (w : Window) :
  (0 < innerWidth w)%Q -> (0 < innerHeight w)%Q ->
  (innerWidth w <= innerHeight w \/ 1.134 * innerHeight w <= innerWidth w)%Q ->
  (rect_right (renderedBox CONFIG w "dpad-container")
   <= rect_left (renderedBox CONFIG w "action-cluster"))%Q.
Proof.
  intros HW HH Hshape.
  destruct (facing_edges w) as (Hr & Hl & _). rewrite Hr, Hl.
  destruct (Qlt_le_dec (innerHeight w) (innerWidth w)) as [Hland | Hport].
  - destruct (shortSide_landscape w Hland) as [Hs ->]. rewrite Hs.
    destruct Hshape as [Hle | Hwide]; lra.
  - destruct (shortSide_portrait w Hport) as [Hs ->]. rewrite Hs. lra.
Qed.

Lemma clusters_apart_witness :
  (rect_right (renderedBox CONFIG landscape "dpad-container")
   <= rect_left (renderedBox CONFIG landscape "action-cluster"))%Q.
Proof.
  apply (clusters_apart landscape); [reflexivity | reflexivity |].
  right. by vm_compute.
Defined.

(** X21. Under the shipped [CONFIG], in every landscape window less than
    1.134 times as wide as tall the action cluster and the movement
    cluster overlap: the 1.4 times larger landscape controls no longer fit
    side by side. *)
Theorem clusters_overlap_near_square (w : Window) :
  (0 < innerHeight w)%Q -> (innerHeight w < innerWidth w)%Q ->
  (innerWidth w < 1.134 * innerHeight w)%Q ->
  overlap (renderedBox CONFIG w "dpad-container")
          (renderedBox CONFIG w "action-cluster").
Proof.
  intros HH Hland Hnarrow.
  destruct (facing_edges w) as (Hmr & Hal & Hml & Har & Hmt & Hmb & Hat & Hab).
  unfold overlap. rewrite Hmr, Hal, Hml, Har, Hmt, Hmb, Hat, Hab.
  destruct (shortSide_landscape w Hland) as [Hs ->]. rewrite Hs.
  repeat split; lra.
Qed.

Lemma clusters_overlap_near_square_witness :
  overlap (renderedBox CONFIG nearSquare "dpad-container")
          (renderedBox CONFIG nearSquare "action-cluster").
Proof.
  apply (clusters_overlap_near_square nearSquare); by vm_compute.
Defined.

(** The right directional button and the Q button under [CONFIG], by the
    short side. *)
Lemma right_and_q_edges (w : Window) :
  let s := shortSide w in
  let k := sizeMultiplier w in
  let r := renderedBox CONFIG w "touch-right" in
  let q := renderedBox CONFIG w "touch-q" in
  (rect_left r * 3 == 0.12 * s + 0.76 * s * k /\
   rect_right r * 48 == 1.92 * s + 17.86 * s * k /\
   rect_top r * 3 == 3 * innerHeight w - 0.12 * s - 0.76 * s * k /\
   rect_bottom r * 48 == 48 * innerHeight w - 1.92 * s - 6.46 * s * k /\
   rect_left q == innerWidth w - 0.1 * s - 0.33 * s * k /\
   rect_right q == innerWidth w - 0.1 * s - 0.22 * s * k /\
   rect_top q == innerHeight w - 0.07 * s - 0.22 * s * k /\
   rect_bottom q == innerHeight w - 0.07 * s - 0.11 * s * k)%Q.
Proof.
  intros s k r q. subst s k r q. boxes CONFIG w.
  repeat match goal with H : renderedBox _ _ _ = _ |- _ => rewrite H; clear H end.
  unfold rect_right, rect_bottom, box, clusterWidth, clusterHeight, dpadButtonSize,
    actionButtonSize, movementClusterSize, padding, gap, effectiveScale, CONFIG.
  cbn [rect_left rect_top rect_width rect_height scale paddingPercent gapPercent].
  repeat split; field.
Qed.

(** X22. Under the shipped [CONFIG], in every landscape window less than
    1.12 times as wide as tall two buttons themselves overlap: the right
    directional button and the Q button of the action cluster. *)
Theorem right_button_overlaps_q (w : Window) :
  (0 < innerHeight w)%Q -> (innerHeight w < innerWidth w)%Q ->
  (innerWidth w < 1.12 * innerHeight w)%Q ->
  overlap (renderedBox CONFIG w "touch-right") (renderedBox CONFIG w "touch-q").
Proof.
  intros HH Hland Hnarrow.
  destruct (right_and_q_edges w) as (Hrl & Hrr & Hrt & Hrb & Hql & Hqr & Hqt & Hqb).
  destruct (shortSide_landscape w Hland) as [Hs Hk].
  rewrite Hk, Hs in *. unfold overlap. rewrite Hql, Hqr, Hqt, Hqb.
  repeat split; lra.
Qed.

Lemma right_button_overlaps_q_witness :
  overlap (renderedBox CONFIG nearSquare "touch-right")
          (renderedBox CONFIG nearSquare "touch-q").
Proof.
  apply (right_button_overlaps_q nearSquare); by vm_compute.
Defined.

(** ** Calls of [focus()] *)

Lemma focuses_refl (s : State) : focuses s s.
Proof. split; [done |]. exists 0%nat. by destruct (hasCanvas s); rewrite !Nat.add_0_r. Qed.

Lemma focuses_trans (s1 s2 s3 : State) :
  focuses s1 s2 -> focuses s2 s3 -> focuses s1 s3.
Proof.
  intros [C12 (n & L12 & F12)] [C23 (m & L23 & F23)]. split; [by rewrite C23 |].
  exists (n + m)%nat. rewrite L23, L12, F23, F12, C12.
  split; [lia |]. destruct (hasCanvas s1); lia.
Qed.

Lemma focuses_silent (s s' : State) :
  hasCanvas s' = hasCanvas s -> dispatched s' = dispatched s ->
  focusCalls s' = focusCalls s -> focuses s s'.
Proof.
  intros Hc Hd Hf. split; [done |]. exists 0%nat. rewrite Hd, Hf.
  by destruct (hasCanvas s); rewrite !Nat.add_0_r.
Qed.

Lemma focuses_simulateKeyEvent (type : string) (m : option KeyMapping) (s : State) :
  focuses s (simulateKeyEvent type m s).
Proof.
  destruct m as [m |]; [| apply focuses_refl]. split; [done |]. exists 1%nat. simpl.
  rewrite length_app. simpl. split; [done |]. destruct (hasCanvas s); lia.
Qed.

Lemma focuses_then (s s' s'' : State) :
  focuses s s' -> hasCanvas s'' = hasCanvas s' -> dispatched s'' = dispatched s' ->
  focusCalls s'' = focusCalls s' -> focuses s s''.
Proof. intros H ? ? ?. eapply focuses_trans; [exact H | by apply focuses_silent]. Qed.

Lemma focuses_when (b : bool) (f : State -> State) (s : State) :
  focuses s (f s) -> focuses s (when b f s).
Proof. intros H. destruct b; [exact H | apply focuses_refl]. Qed.

Lemma focuses_setDocument (f : Document -> Document) (s s' : State) :
  focuses s s' -> focuses s (setDocument f s').
Proof. intros H. by apply (focuses_then s s'). Qed.

Lemma focuses_setDirection (d : option Direction) (s s' : State) :
  focuses s s' -> focuses s (setCurrentJoystickDirection d s').
Proof. intros H. by apply (focuses_then s s'). Qed.

Lemma focuses_setTouchId (i : option Z) (s s' : State) :
  focuses s s' -> focuses s (setActiveJoystickTouchId i s').
Proof. intros H. by apply (focuses_then s s'). Qed.

Lemma focuses_simulateKeyEvent_after (type : string) (m : option KeyMapping)
    (s s' : State) :
  focuses s s' -> focuses s (simulateKeyEvent type m s').
Proof.
  intros H. eapply focuses_trans; [exact H | apply focuses_simulateKeyEvent].
Qed.

Lemma focuses_handleJoystickMove (host : Host) (x y : Q) (s s' : State) :
  focuses s s' -> focuses s (handleJoystickMove host x y s').
Proof.
  intros H. unfold handleJoystickMove. cbv zeta. apply focuses_setDocument.
  case_bool_decide; [| exact H].
  apply focuses_setDirection.
  by do 2 apply focuses_simulateKeyEvent_after.
Qed.

Lemma focuses_dispatchEvent (host : Host) (e : Event) (s : State) :
  focuses s (snd (dispatchEvent host e s)).
Proof.
  destruct e as [target ts | target ts | target ts | target | w]; simpl.
  - eapply focuses_trans; apply focuses_when.
    + destruct ts as [| t ts]; [apply focuses_refl |]. unfold joystickBase_touchstart.
      apply focuses_handleJoystickMove, focuses_setTouchId, focuses_refl.
    + unfold container_touchstart. repeat case_match; try apply focuses_refl.
      apply focuses_simulateKeyEvent_after.
      apply focuses_setDocument, focuses_refl.
  - apply focuses_when. unfold joystickBase_touchmove.
    case_match; [apply focuses_handleJoystickMove |]; apply focuses_refl.
  - eapply focuses_trans; apply focuses_when.
    + unfold joystickBase_touchend. case_match; [| apply focuses_refl].
      apply focuses_setTouchId, focuses_setDocument, focuses_setDirection.
      apply focuses_simulateKeyEvent_after, focuses_refl.
    + unfold container_touchend. cbv zeta.
      repeat case_match; try apply focuses_setDocument, focuses_refl.
      apply focuses_simulateKeyEvent_after.
      apply focuses_setDocument, focuses_refl.
  - case_match; [| apply focuses_refl].
    destruct (toggle_click_frame s) as (_ & _ & _ & Hc & Hf & Hd).
    by apply focuses_silent.
  - by apply focuses_silent.
Qed.

(** X24. The overlay asks for the focus once per key event: over any run
    of events, on a page with a canvas [focus()] is called on the canvas
    exactly as many times as key events are dispatched - once before each -
    and on a page without a canvas it is never called.  (Whether the call
    gives the canvas the focus depends on the canvas being focusable.) *)
Theorem focus_follows_dispatch (host : Host) (es : list Event) (s : State) :
  let s' := runEvents host es s in
  (hasCanvas s = true ->
   (focusCalls s' + length (dispatched s) = focusCalls s + length (dispatched s'))%nat) /\
  (hasCanvas s = false -> focusCalls s' = focusCalls s).
Proof.
  intros s'.
  assert (H : focuses s s').
  { subst s'. revert s. induction es as [| e es IH]; intros s; simpl;
      [apply focuses_refl |].
    eapply focuses_trans; [apply focuses_dispatchEvent | apply IH]. }
  destruct H as [_ (n & Hl & Hf)]. rewrite Hl, Hf.
  split; intros ->; lia.
Qed.

(** ** The movement clusters inside *)




(** ** The rectangles of a running overlay *)

Lemma sameShape_sym (d d' : Document) : sameShape d d' -> sameShape d' d.
Proof. intros H id. by rewrite H. Qed.

Lemma sameTransforms_refl (d : Document) : sameTransforms d d.
Proof. done. Qed.

Lemma sameTransforms_trans (d1 d2 d3 : Document) :
  sameTransforms d1 d2 -> sameTransforms d2 d3 -> sameTransforms d1 d3.
Proof. intros H12 H23 i. by rewrite H12. Qed.

Lemma sameTransforms_offThumb (d d' : Document) :
  sameTransforms d d' -> sameTransformsOffThumb d d'.
Proof. intros H i _. apply H. Qed.

Lemma sameTransformsOffThumb_trans (d1 d2 d3 : Document) :
  sameTransformsOffThumb d1 d2 -> sameTransformsOffThumb d2 d3 ->
  sameTransformsOffThumb d1 d3.
Proof. intros H12 H23 i Hi. by rewrite H12, H23. Qed.

(** An update of the classes or of the text keeps every transform. *)
Lemma sameTransforms_alter (f : Element -> Element) (i : string) (d : Document) :
  (forall el, style (f el) = style el) -> sameTransforms d (alter f i d).
Proof.
  intros Hf. apply (sameBy_alter transformOf). intros el.
  unfold transformOf. by rewrite Hf.
Qed.

Lemma sameTransforms_deactivateAll (d : Document) :
  sameTransforms d (deactivateAll d).
Proof.
  intros i. pose proof (deactivateAll_style d i) as H.
  destruct (deactivateAll d !! i) as [el' |], (d !! i) as [el |];
    simpl in *; try done.
  injection H as H. unfold transformOf. by rewrite H.
Qed.

Lemma sameTransforms_applyLayout (cfg : Config) (w : Window) (d : Document) :
  sameTransforms d (applyLayout cfg w d).
Proof.
  intros i. symmetry. apply (applyLayout_keeps_style cfg w d i "transform").
  unfold layoutProperties. intros H.
  repeat (apply elem_of_cons in H as [H | H]; [discriminate H |]).
  by apply elem_of_nil in H.
Qed.

Lemma sameTransforms_applyVisibility (joystick : bool) (d : Document) :
  sameTransforms d (applyVisibility joystick d).
Proof.
  unfold applyVisibility.
  eapply sameTransforms_trans; [| by apply sameTransforms_alter].
  eapply sameTransforms_trans; [| by apply sameTransforms_alter].
  by apply sameTransforms_alter.
Qed.

Lemma sameTransforms_toggle_click (s : State) :
  sameTransforms (document s) (document (snd (toggle_click s))).
Proof.
  apply (toggle_click_keeps
           (fun s s' => sameTransforms (document s) (document s'))); try done.
  - intros s1 s2 s3. apply sameTransforms_trans.
  - intros s0 force id _. by apply sameTransforms_alter.
  - intros s0 t. by apply sameTransforms_alter.
Qed.


(** Every touch event leaves the transforms alone, the thumb's apart. *)
Lemma touch_offThumb (host : Host) (e : Event) (s : State) :
  (forall target, e <> Click target) -> (forall w, e <> Resize w) ->
  sameTransformsOffThumb (document s) (document (snd (dispatchEvent host e s))).
Proof.
  apply (touch_keeps sameTransformsOffThumb).
  - intros d i _. done.
  - apply sameTransformsOffThumb_trans.
  - intros d v i Hi. by rewrite lookup_alter_ne.
  - intros d id. by apply sameTransforms_offThumb, sameTransforms_alter.
  - intros d. apply sameTransforms_offThumb, sameTransforms_deactivateAll.
Qed.

Lemma dispatchEvent_offThumb (host : Host) (e : Event) (s : State) :
  sameTransformsOffThumb (document s) (document (snd (dispatchEvent host e s))).
Proof.
  destruct e as [target ts | target ts | target ts | target | w];
    try (apply touch_offThumb; intros; discriminate).
  - simpl. destruct (bubblesTo _ _ _); [| done].
    apply sameTransforms_offThumb, sameTransforms_toggle_click.
  - rewrite dispatch_resize. apply sameTransforms_offThumb.
    apply sameTransforms_applyLayout.
Qed.

Lemma controlTree_elements (i : string) (el : Element) :
  controlTree !! i = Some el ->
  style el = ∅ /\ "hidden" ∉ classList el.
Proof.
  intros H. apply elem_of_list_to_map_2 in H.
  repeat (apply elem_of_cons in H as [[= -> ->] | H];
          [split; [reflexivity | by vm_compute] |]).
  by apply elem_of_nil in H.
Qed.

Lemma started_document (w : Window) (st : Storage) :
  readThrows st = false ->
  exists joystick,
    document (started w st)
    = applyLayout CONFIG w (applyVisibility joystick controlTree).
Proof.
  intros Hr. eexists. unfold started.
  rewrite script_returns, init_returns by done. simpl.
  by rewrite (left_id_L ∅ (∪)).
Qed.

Lemma running_offThumb (host : Host) (es : list Event) (w : Window) (st : Storage) :
  readThrows st = false ->
  sameTransformsOffThumb controlTree (document (runEvents host es (started w st))).
Proof.
  intros Hr.
  assert (H0 : sameTransformsOffThumb controlTree (document (started w st))).
  { destruct (started_document w st Hr) as [j ->].
    apply sameTransforms_offThumb.
    eapply sameTransforms_trans;
      [apply sameTransforms_applyVisibility | apply sameTransforms_applyLayout]. }
  revert H0. generalize (started w st) as s. intros s. revert s.
  induction es as [| e es IH]; intros s H; simpl; [exact H |].
  apply IH. eapply sameTransformsOffThumb_trans; [exact H |].
  apply dispatchEvent_offThumb.
Qed.

(** No element of a running overlay other than the thumb is translated. *)
Lemma running_untransformed (host : Host) (es : list Event) (w : Window)
    (st : Storage) (i : string) (el : Element) :
  readThrows st = false -> i <> "joystick-thumb" ->
  document (runEvents host es (started w st)) !! i = Some el ->
  transformOf el = None.
Proof.
  intros Hr Hi Hel. pose proof (running_offThumb host es w st Hr i Hi) as H.
  rewrite Hel in H. destruct (controlTree !! i) as [el0 |] eqn:H0; [| done].
  simpl in H. injection H as <-.
  destruct (controlTree_elements i el0 H0) as [Hst _].
  unfold transformOf. by rewrite Hst.
Qed.

(** The chains of a running overlay are those of the tree. *)
Lemma laidOut_shape (s : State) : laidOut s -> sameShape controlTree (document s).
Proof.
  intros H. eapply sameShape_trans.
  - apply (sameControls_applyLayout CONFIG (window s) controlTree).
  - apply sameShape_sym, sameGeometry_shape, H.
Qed.

Lemma laidOut_chain (s : State) (id : string) :
  laidOut s -> ancestorsOrSelf (size (document s)) (document s) id = chainOf id.
Proof.
  intros H. pose proof (laidOut_shape s H) as Hs. unfold chainOf.
  by rewrite (sameShape_size _ _ Hs), (sameShape_ancestors _ _ _ _ Hs).
Qed.


Lemma translated_untransformed (el : Element) (b : DOMRect) :
  transformOf el = None -> Rendering.translated el b = b.
Proof. unfold transformOf, Rendering.translated. by intros ->. Qed.

Lemma translatedAlong_untransformed (d : Document) (chain : list string) (b : DOMRect) :
  Forall (fun i => forall el, d !! i = Some el -> transformOf el = None) chain ->
  Rendering.translatedAlong d chain b = b.
Proof.
  induction 1 as [| i chain Hi _ IH]; simpl; [done |].
  fold (Rendering.translatedAlong d chain b). rewrite IH.
  destruct (d !! i) as [el |]; [| done]. by apply translated_untransformed, Hi.
Qed.


(** ** The thumb at rest *)











(** The exception is real: on a landscape phone, a finger on the left rim
    of the joystick pushes the thumb past the left edge of the window. *)
Lemma held_thumb_leaves_viewport :
  let s := landscapeJoystickHeld in
  activeJoystickTouchId s = Some 3%Z /\
  (0 < innerWidth (window s))%Q /\ (0 < innerHeight (window s))%Q /\
  (rect_left (Rendering.clientRect (window s) (document s) "joystick-thumb") < 0)%Q.
Proof. by vm_compute. Qed.

(** ** The toggle and the rectangles *)

Lemma sameHidden_refl (d : Document) : sameHidden d d.
Proof. done. Qed.

Lemma sameHidden_trans (d1 d2 d3 : Document) :
  sameHidden d1 d2 -> sameHidden d2 d3 -> sameHidden d1 d3.
Proof. intros H12 H23 i Hi. by rewrite H12, H23. Qed.

Lemma sameHidden_sameControls (d d' : Document) : sameControls d d' -> sameHidden d d'.
Proof. intros [_ Hc] i _. by apply Hc. Qed.

Lemma sameHidden_cluster (f : Element -> Element) (id : string) (d : Document) :
  isCluster id -> sameHidden d (alter f id d).
Proof.
  intros Hid i Hi. unfold elementHasClass. rewrite lookup_alter_ne; [done |].
  by intros ->.
Qed.

Lemma sameHidden_retext (t : string) (id : string) (d : Document) :
  sameHidden d (alter (setTextContent t) id d).
Proof.
  intros i _. unfold elementHasClass. rewrite lookup_alter.
  case_decide; [subst | done]. by destruct (d !! i).
Qed.

Lemma sameHidden_applyVisibility (joystick : bool) (d : Document) :
  sameHidden d (applyVisibility joystick d).
Proof.
  unfold applyVisibility.
  eapply sameHidden_trans; [| apply sameHidden_retext].
  eapply sameHidden_trans; [| apply sameHidden_cluster; by right].
  apply sameHidden_cluster. by left.
Qed.

Lemma sameHidden_toggle_click (s : State) :
  sameHidden (document s) (document (snd (toggle_click s))).
Proof.
  apply (toggle_click_keeps
           (fun s s' => sameHidden (document s) (document s'))); try done.
  - intros s1 s2 s3. apply sameHidden_trans.
  - intros s0 force id Hid. by apply sameHidden_cluster.
  - intros s0 t. apply sameHidden_retext.
Qed.

Lemma translated_same (el el' : Element) (b : DOMRect) :
  transformOf el = transformOf el' ->
  Rendering.translated el b = Rendering.translated el' b.
Proof. unfold transformOf, Rendering.translated. by intros ->. Qed.

Lemma translatedAlong_same (d d' : Document) (chain : list string) (b : DOMRect) :
  sameTransforms d d' ->
  Rendering.translatedAlong d chain b = Rendering.translatedAlong d' chain b.
Proof.
  intros H. induction chain as [| i chain IH]; simpl; [done |].
  fold (Rendering.translatedAlong d chain b).
  fold (Rendering.translatedAlong d' chain b). rewrite IH.
  specialize (H i).
  destruct (d !! i) as [el |], (d' !! i) as [el' |]; simpl in H; try done.
  injection H as H. by apply translated_same.
Qed.

Lemma hiddenWithin_same (d d' : Document) (id : string) :
  sameShape d d' -> sameHidden d d' ->
  Forall (fun i => ~ isCluster i) (ancestorsOrSelf (size d) d id) ->
  Rendering.hiddenWithin d' id = Rendering.hiddenWithin d id.
Proof.
  intros Hs Hh Hout. unfold Rendering.hiddenWithin.
  rewrite <- (sameShape_size _ _ Hs), <- (sameShape_ancestors _ _ _ _ Hs).
  induction Hout as [| i chain Hi _ IH]; simpl; [done |].
  by rewrite IH, (Hh i Hi).
Qed.

(** X17. A click on the toggle moves nothing outside the two movement
    clusters: whether its listener returns or throws, every element that
    is neither one of the two clusters nor inside one has the rectangle it
    had before. *)
Theorem toggle_moves_only_clusters (s : State) (w : Window) (id : string) :
  Forall (fun i => ~ isCluster i)
    (ancestorsOrSelf (size (document s)) (document s) id) ->
  Rendering.clientRect w (document (snd (toggle_click s))) id
  = Rendering.clientRect w (document s) id.
Proof.
  intros Hout. destruct (sameLayout_toggle_click s) as [_ Hg].
  pose proof (sameGeometry_shape _ _ Hg) as Hs.
  unfold Rendering.clientRect.
  rewrite (hiddenWithin_same _ _ id Hs (sameHidden_toggle_click s) Hout).
  rewrite <- (sameGeometry_boundingBox w _ _ id Hg).
  rewrite <- (sameShape_size _ _ Hs), <- (sameShape_ancestors _ _ _ _ Hs).
  destruct (Rendering.hiddenWithin (document s) id); [done |].
  destruct (Rendering.boundingBox w (document s) id) as [b |]; [| done].
  symmetry. apply translatedAlong_same, sameTransforms_toggle_click.
Qed.

Lemma toggle_moves_only_clusters_witness :
  Rendering.clientRect portrait
    (document (snd (toggle_click (started portrait emptyStorage)))) "touch-q"
  = Rendering.clientRect portrait (document (started portrait emptyStorage)) "touch-q".
Proof.
  apply (toggle_moves_only_clusters (started portrait emptyStorage) portrait "touch-q").
  vm_compute. repeat constructor; intros [H | H]; discriminate H.
Defined.

(** *** The two clusters *)

Lemma running_reachable (host : Host) (es : list Event) (w : Window) (st : Storage) :
  readThrows st = false -> writeThrows st = false ->
  Reachable host (runEvents host es (started w st)).
Proof.
  intros Hr Hw.
  assert (H0 : Reachable host (started w st))
    by (by apply (reachable_start host (blankPage w st))).
  revert H0. generalize (started w st) as s. intros s. revert s.
  induction es as [| e es IH]; intros s H; simpl; [exact H |].
  by apply IH, reachable_step.
Qed.

Lemma dispatchEvent_hidden (host : Host) (e : Event) (s : State) :
  sameHidden (document s) (document (snd (dispatchEvent host e s))).
Proof.
  assert (Htouch : notToggle s e ->
            sameHidden (document s) (document (snd (dispatchEvent host e s)))).
  { intros Hnot. apply sameHidden_sameControls.
    by destruct (sameMode_dispatchEvent host e s Hnot) as (_ & _ & H). }
  destruct e as [target ts | target ts | target ts | target | w];
    try (apply Htouch; intros t Ht; discriminate Ht).
  simpl. destruct (bubblesTo _ _ _); [| done]. apply sameHidden_toggle_click.
Qed.

Lemma running_hidden (host : Host) (es : list Event) (w : Window) (st : Storage) :
  readThrows st = false ->
  sameHidden controlTree (document (runEvents host es (started w st))).
Proof.
  intros Hr.
  assert (H0 : sameHidden controlTree (document (started w st))).
  { destruct (started_document w st Hr) as [j ->].
    eapply sameHidden_trans; [apply sameHidden_applyVisibility |].
    apply sameHidden_sameControls, sameControls_applyLayout. }
  revert H0. generalize (started w st) as s. intros s. revert s.
  induction es as [| e es IH]; intros s H; simpl; [exact H |].
  apply IH. eapply sameHidden_trans; [exact H | apply dispatchEvent_hidden].
Qed.

Lemma chainOf_cluster (joystick : bool) :
  chainOf (clusterOf joystick) = [clusterOf joystick; "virtual-controls-container"].
Proof. by destruct joystick; vm_compute. Qed.

Lemma clusterOf_present (joystick : bool) : present controlTree (clusterOf joystick).
Proof. destruct joystick; eexists; vm_compute; reflexivity. Qed.

(** Both clusters are laid out on the same box. *)
Lemma cluster_boundingBox (cfg : Config) (w : Window) (joystick : bool) :
  Rendering.boundingBox w (applyLayout cfg w controlTree) (clusterOf joystick)
  = Some (renderedBox cfg w "dpad-container").
Proof.
  pose proof (layoutBoxes_rendered cfg w) as H.
  unfold layoutBoxes in H. cbv zeta in H.
  repeat (apply Forall_cons_1 in H as [? H]). clear H. cbn [fst snd] in *.
  unfold renderedBox.
  destruct joystick; cbn [clusterOf];
    repeat match goal with H : Rendering.boundingBox _ _ _ = _ |- _ => rewrite H; clear H end;
    reflexivity.
Qed.

Lemma hidden_not_visible (d : Document) (id : string) :
  present d id -> elementHasClass d "hidden" id = negb (visible d id).
Proof.
  intros [el Hel]. unfold elementHasClass, visible. rewrite Hel.
  by rewrite negb_involutive.
Qed.

(** The rectangle of a cluster of a running overlay: the laid-out box for
    the cluster of the active scheme, empty for the other. *)
Lemma cluster_rect (host : Host) (es : list Event) (w : Window) (st : Storage)
    (joystick : bool) :
  readThrows st = false -> writeThrows st = false ->
  let s := runEvents host es (started w st) in
  Rendering.clientRect (window s) (document s) (clusterOf joystick)
  = if bool_decide (joystick = isJoystickMode s)
    then renderedBox CONFIG (window s) "dpad-container"
    else Rendering.emptyRect.
Proof.
  intros Hr Hw s.
  assert (Hlaid : laidOut s) by by apply runEvents_laidOut, started_laidOut.
  assert (Hno : forall i, i <> "joystick-thumb" ->
                  forall el, document s !! i = Some el -> transformOf el = None).
  { intros i Hi el Hel. by apply (running_untransformed host es w st i el). }
  pose proof (running_hidden host es w st Hr) as Hhid. fold s in Hhid.
  destruct (reachable_controls host s (running_reachable host es w st Hr Hw))
    as [(Hd & Hj & _) [Hvd Hvj]].
  clearbody s.
  assert (Hroot : elementHasClass (document s) "hidden" "virtual-controls-container"
                  = false).
  { rewrite <- Hhid by (intros [H | H]; discriminate H). by vm_compute. }
  assert (Hc : elementHasClass (document s) "hidden" (clusterOf joystick)
               = negb (bool_decide (joystick = isJoystickMode s))).
  { destruct joystick; simpl.
    - rewrite hidden_not_visible, Hvj by done. by destruct (isJoystickMode s).
    - rewrite hidden_not_visible, Hvd by done. by destruct (isJoystickMode s). }
  unfold Rendering.clientRect, Rendering.hiddenWithin.
  rewrite (laidOut_chain s _ Hlaid), chainOf_cluster.
  cbn [existsb]. rewrite Hc, Hroot.
  destruct (bool_decide (joystick = isJoystickMode s)); [| done].
  cbn [negb orb].
  rewrite (sameGeometry_boundingBox _ _ _ _ Hlaid), cluster_boundingBox.
  apply translatedAlong_untransformed.
  repeat constructor; apply Hno; by destruct joystick.
Qed.

Lemma runEvents_snoc (host : Host) (es : list Event) (e : Event) (s : State) :
  runEvents host (es ++ [e]) s = snd (dispatchEvent host e (runEvents host es s)).
Proof. unfold runEvents. by rewrite foldl_app. Qed.

(** X27. A toggle needs no layout pass: in an overlay run from the script
    with working storage, a click on the toggle leaves the cluster it
    shows with exactly the rectangle the other cluster had before the
    click - the box the last pass laid both out on - and the cluster it
    hides with the empty rectangle the other had. *)
Theorem toggle_swaps_clusters
    (host : Host) (es : list Event) (w : Window) (st : Storage) (target : string) :
  readThrows st = false -> writeThrows st = false ->
  let s := runEvents host es (started w st) in
  bubblesTo (document s) "control-toggle-button" target = true ->
  let s' := snd (dispatchEvent host (Click target) s) in
  let shown := clusterOf (isJoystickMode s) in
  let other := clusterOf (negb (isJoystickMode s)) in
  isJoystickMode s' = negb (isJoystickMode s) /\
  Rendering.clientRect (window s) (document s) shown
  = renderedBox CONFIG (window s) "dpad-container" /\
  Rendering.clientRect (window s) (document s) other = Rendering.emptyRect /\
  Rendering.clientRect (window s') (document s') other
  = Rendering.clientRect (window s) (document s) shown /\
  Rendering.clientRect (window s') (document s') shown = Rendering.emptyRect.
Proof.
  intros Hr Hw s Hb s' shown other.
  assert (Hmode : isJoystickMode s' = negb (isJoystickMode s)).
  { subst s'. simpl. rewrite Hb.
    destruct (reachable_controls host s (running_reachable host es w st Hr Hw))
      as [Hin _].
    destruct (toggle_click_returns s Hin) as (t & E & M & _). by rewrite E. }
  assert (Hwin : window s' = window s).
  { subst s'. simpl. rewrite Hb. by destruct (toggle_click_frame s) as (_ & _ & H & _). }
  pose proof (cluster_rect host es w st (isJoystickMode s) Hr Hw) as H1.
  pose proof (cluster_rect host es w st (negb (isJoystickMode s)) Hr Hw) as H2.
  pose proof (cluster_rect host (es ++ [Click target]) w st
                (isJoystickMode s) Hr Hw) as H3.
  pose proof (cluster_rect host (es ++ [Click target]) w st
                (negb (isJoystickMode s)) Hr Hw) as H4.
  cbv zeta in H1, H2, H3, H4. rewrite runEvents_snoc in H3, H4.
  fold s in H1, H2, H3, H4. fold s' in H3, H4.
  rewrite Hmode, Hwin in H3, H4. rewrite Hwin.
  subst shown other. clearbody s s'.
  rewrite H1, H2, H3, H4.
  set (box := renderedBox CONFIG (window s) "dpad-container"). clearbody box.
  split; [exact Hmode |]. clear.
  destruct (isJoystickMode s); repeat split; reflexivity.
Qed.

Lemma toggle_swaps_clusters_witness :
  let s := runEvents RefHost.refHost [] (started portrait emptyStorage) in
  let s' := snd (dispatchEvent RefHost.refHost (Click "control-toggle-button") s) in
  let shown := clusterOf (isJoystickMode s) in
  let other := clusterOf (negb (isJoystickMode s)) in
  isJoystickMode s' = negb (isJoystickMode s) /\
  Rendering.clientRect (window s) (document s) shown
  = renderedBox CONFIG (window s) "dpad-container" /\
  Rendering.clientRect (window s) (document s) other = Rendering.emptyRect /\
  Rendering.clientRect (window s') (document s') other
  = Rendering.clientRect (window s) (document s) shown /\
  Rendering.clientRect (window s') (document s') shown = Rendering.emptyRect.
Proof.
  apply (toggle_swaps_clusters RefHost.refHost [] portrait emptyStorage
           "control-toggle-button"); by vm_compute.
Defined.
